(** * GitGate: request-admission pipeline

    A shallow embedding of the TypeScript sources of the gateway
    (rate limiter, cache manager, sanitizer, trust adapters and the two
    release routes) together with the properties its design document
    states about them.

    Conventions.
    - JavaScript numbers that hold epoch milliseconds, counters and
      limits are integers in the code paths modelled here and are
      represented by [Z].
    - JavaScript strings are represented by [string]; one character is
      one code unit below 256.
    - [Map<string, T>] is a [gmap string T]; mutating the object stored
      under a key is an [insert] at that key.
    - [Date.now()] is an explicit argument of every operation that reads
      the clock. *)

From Stdlib Require Import ZArith Lia Ascii String List Bool.
From stdpp Require Import base option gmap strings list.

Open Scope string_scope.
Open Scope list_scope.
Open Scope Z_scope.

(** ** Rate limiter (middleware/ratelimit.ts) *)

Module RateLimiter.

(** [interface RateLimitState]: [blocked_until] and [violations] are
    optional members. *)
Record RateLimitState := mkState {
  requests : Z;
  reset_at : Z;
  blocked_until : option Z;
  violations : option Z
}.

(** The object returned by [consumeInternal]. *)
Record Verdict := mkVerdict {
  allowed : bool;
  remaining : Z;
  v_reset_at : Z
}.

Definition window_ms : Z := 60000.
Definition max_block_ms : Z := 15 * 60 * 1000.

(** [state.violations ?? 0] *)
Definition violations_or_zero (s : RateLimitState) : Z :=
  default 0 (violations s).

(** [state.blocked_until && now < state.blocked_until]: an absent member
    and the number 0 are both falsy. *)
Definition is_blocked (s : RateLimitState) (now : Z) : bool :=
  match blocked_until s with
  | Some b => negb (Z.eqb b 0) && (now <? b)
  | None => false
  end.

(** [Math.min(15 * 60 * 1000, 60000 * violations)] *)
Definition blockMs (v : Z) : Z := Z.min max_block_ms (window_ms * v).

Section Limiter.

(** [this.requestsPerMinute] *)
Variable limit : Z.

(** [consumeInternal(deviceId)] with the clock reading [now]; returns the
    updated mapping and the verdict. *)
Definition consumeInternal (limits : gmap string RateLimitState)
    (deviceId : string) (now : Z) : gmap string RateLimitState * Verdict :=
  match limits !! deviceId with
  | None =>
      (<[deviceId := mkState 1 (now + window_ms) None (Some 0)]> limits,
       mkVerdict true (Z.max 0 (limit - 1)) (now + window_ms))
  | Some state =>
      if is_blocked state now then
        (limits, mkVerdict false 0 (default 0 (blocked_until state)))
      else if now >? reset_at state then
        let state' :=
          mkState 1 (now + window_ms) (blocked_until state)
                  (Some (Z.max 0 (violations_or_zero state - 1))) in
        (<[deviceId := state']> limits,
         mkVerdict true (Z.max 0 (limit - 1)) (reset_at state'))
      else if requests state <? limit then
        let state' :=
          mkState (requests state + 1) (reset_at state)
                  (blocked_until state) (violations state) in
        (<[deviceId := state']> limits,
         mkVerdict true (Z.max 0 (limit - requests state')) (reset_at state'))
      else
        let v := violations_or_zero state + 1 in
        let until := now + blockMs v in
        let state' :=
          mkState (requests state) (reset_at state) (Some until) (Some v) in
        (<[deviceId := state']> limits, mkVerdict false 0 until)
  end.

(** [consume] adds the configured limit to the verdict. *)
Record ConsumeResult := mkConsume {
  c_allowed : bool;
  c_limit : Z;
  c_remaining : Z;
  c_reset_at : Z
}.

Definition consume (limits : gmap string RateLimitState)
    (deviceId : string) (now : Z) : gmap string RateLimitState * ConsumeResult :=
  let '(limits', r) := consumeInternal limits deviceId now in
  (limits', mkConsume (allowed r) limit (remaining r) (v_reset_at r)).

(** [isAllowed] consumes as well. *)
Definition isAllowed (limits : gmap string RateLimitState)
    (deviceId : string) (now : Z) : gmap string RateLimitState * bool :=
  let '(limits', r) := consumeInternal limits deviceId now in
  (limits', allowed r).

(** [getRemainingRequests(deviceId)]: reads only. *)
Definition getRemainingRequests (limits : gmap string RateLimitState)
    (deviceId : string) (now : Z) : Z :=
  match limits !! deviceId with
  | None => limit
  | Some state =>
      if now >? reset_at state then limit
      else if is_blocked state now then 0
      else Z.max 0 (limit - requests state)
  end.

(** [getResetTime(deviceId)] *)
Definition getResetTime (limits : gmap string RateLimitState)
    (deviceId : string) (now : Z) : Z :=
  match limits !! deviceId with
  | None => now
  | Some state =>
      match blocked_until state with
      | Some b =>
          if negb (Z.eqb b 0) && (b >? reset_at state) then b else reset_at state
      | None => reset_at state
      end
  end.

(** A sequence of [consumeInternal] calls, each with its key and its
    clock reading; the verdicts are returned in call order. *)
Fixpoint run (limits : gmap string RateLimitState) (calls : list (string * Z))
    : gmap string RateLimitState * list Verdict :=
  match calls with
  | [] => (limits, [])
  | (k, now) :: rest =>
      let '(limits', r) := consumeInternal limits k now in
      let '(limits'', rs) := run limits' rest in
      (limits'', r :: rs)
  end.

(** Mappings the limiter can be in: it starts empty and only
    [consumeInternal] writes to it. *)
Inductive reachable : gmap string RateLimitState -> Prop :=
| reach_init : reachable ∅
| reach_step limits k now :
    reachable limits -> reachable (consumeInternal limits k now).1.

(** Lockout durations handed out along a sequence of calls: one entry
    for each call that finds the key unlocked and is denied, i.e. for
    each violation, giving [blocked_until - now] at the time of
    setting. *)
Fixpoint lockout_durations (limits : gmap string RateLimitState)
    (calls : list (string * Z)) : list Z :=
  match calls with
  | [] => []
  | (k, now) :: rest =>
      let '(limits', r) := consumeInternal limits k now in
      let later := lockout_durations limits' rest in
      let was_blocked :=
        match limits !! k with
        | Some s => is_blocked s now
        | None => false
        end in
      if negb (allowed r) && negb was_blocked
      then (v_reset_at r - now) :: later
      else later
  end.

End Limiter.

(** The design document's lock condition: [locked_until] set and
    [now < locked_until]. *)
Definition locked (s : RateLimitState) (now : Z) : Prop :=
  exists b, blocked_until s = Some b /\ now < b.

(** Successive durations strictly increase until they sit at the
    15-minute cap. *)
Definition escalating (ds : list Z) : Prop :=
  forall (i : nat) d1 d2,
    ds !! i = Some d1 -> ds !! S i = Some d2 ->
    d1 < d2 \/ d2 = max_block_ms.

(** Clock readings that never go back, starting at [from]. *)
Fixpoint nondecreasing (from : Z) (calls : list (string * Z)) : Prop :=
  match calls with
  | [] => True
  | (_, now) :: rest => from <= now /\ nondecreasing now rest
  end.

(** What holds of a stored state when the clock never goes back and
    last read [last]: at most two violations are on record, the window
    ends at most a minute after [last], and a second violation on record
    comes with a lockout that outlasts the window. *)
Definition settled (s : RateLimitState) (last : Z) : Prop :=
  exists v,
    violations s = Some v /\ 0 <= v <= 2
    /\ reset_at s <= last + window_ms
    /\ (v = 2 ->
        exists b, blocked_until s = Some b /\ 0 < b /\ reset_at s < b).

(** A device that sent 61 requests: the first at 1000 ms, the other
    sixty one second later. *)
Definition burst_calls : list (string * Z) :=
  ("dev-1", 1000) :: replicate 60 ("dev-1", 2000).

(** A device that exhausts its window at 1000 ms (61 calls), waits
    until its one-minute lockout is over and does the same again. *)
Definition repeat_offender_calls : list (string * Z) :=
  replicate 61 ("dev-1", 1000) ++ replicate 61 ("dev-1", 61001).

End RateLimiter.

(** ** JavaScript string primitives used by the sources *)

Module JS.

Definition code (c : ascii) : N := N_of_ascii c.

(** Code units removed by [String.prototype.trim] that fit the string
    model: TAB, LF, VT, FF, CR, SPACE and NBSP. *)
Definition is_space (c : ascii) : bool :=
  let n := code c in
  ((9 <=? n) && (n <=? 13) || (n =? 32) || (n =? 160))%N.

Fixpoint trimStart (s : string) : string :=
  match s with
  | EmptyString => EmptyString
  | String c rest => if is_space c then trimStart rest else s
  end.

Fixpoint trimEnd (s : string) : string :=
  match s with
  | EmptyString => EmptyString
  | String c rest =>
      match trimEnd rest with
      | EmptyString => if is_space c then EmptyString else String c EmptyString
      | kept => String c kept
      end
  end.

(** [s.trim()] *)
Definition trim (s : string) : string := trimEnd (trimStart s).

(** [s.length] *)
Definition len (s : string) : Z := Z.of_nat (String.length s).

(** [s.startsWith(p)] *)
Fixpoint startsWith (p s : string) : bool :=
  match p, s with
  | EmptyString, _ => true
  | String a p', String b s' => Ascii.eqb a b && startsWith p' s'
  | String _ _, EmptyString => false
  end.

(** [s.includes(sub)] *)
Fixpoint includes (sub s : string) : bool :=
  startsWith sub s ||
  match s with
  | EmptyString => false
  | String _ rest => includes sub rest
  end.

(** [s.indexOf(c)] for a one-character needle; [None] is JavaScript's -1. *)
Fixpoint indexOf (c : ascii) (s : string) : option nat :=
  match s with
  | EmptyString => None
  | String a rest =>
      if Ascii.eqb a c then Some O else option_map S (indexOf c rest)
  end.

(** [s.slice(n)] for [0 <= n]. *)
Fixpoint sliceFrom (n : nat) (s : string) : string :=
  match n, s with
  | O, _ => s
  | S n', String _ rest => sliceFrom n' rest
  | S _, EmptyString => EmptyString
  end.

(** [s.slice(0, n)] for [0 <= n]. *)
Fixpoint sliceTo (n : nat) (s : string) : string :=
  match n, s with
  | O, _ => EmptyString
  | S n', String a rest => String a (sliceTo n' rest)
  | S _, EmptyString => EmptyString
  end.

(** [s.split(sep)] for a separator given as a set of single characters:
    every separator character ends a piece, so the result is never
    empty and may contain empty pieces. *)
Fixpoint splitOn (sep : ascii -> bool) (s : string) : list string :=
  match s with
  | EmptyString => [EmptyString]
  | String c rest =>
      if sep c then EmptyString :: splitOn sep rest
      else match splitOn sep rest with
           | piece :: pieces => String c piece :: pieces
           | [] => [String c EmptyString]
           end
  end.

(** No character of the string is a separator. *)
Definition free_of (sep : ascii -> bool) (x : string) : Prop :=
  forall c, In c (list_ascii_of_string x) -> sep c = false.

(** [Boolean(s)] for a string: the empty string is falsy. *)
Definition truthy (s : string) : bool :=
  match s with EmptyString => false | _ => true end.

(** [xs.filter(Boolean)] *)
Definition filterTruthy (xs : list string) : list string :=
  List.filter truthy xs.

(** [c.toLowerCase()] on ASCII letters. *)
Definition lower (c : ascii) : ascii :=
  let n := code c in
  if ((65 <=? n) && (n <=? 90))%N then ascii_of_N (n + 32) else c.

Fixpoint toLowerCase (s : string) : string :=
  match s with
  | EmptyString => EmptyString
  | String c rest => String (lower c) (toLowerCase rest)
  end.

(** [xs.join(sep)] *)
Fixpoint join (sep : string) (xs : list string) : string :=
  match xs with
  | [] => EmptyString
  | [x] => x
  | x :: rest => x +:+ sep +:+ join sep rest
  end.

(** [a || b] on optional strings: [undefined], [null] and the empty
    string are falsy. *)
Definition orElse (a b : option string) : option string :=
  match a with
  | Some s => if truthy s then a else b
  | None => b
  end.

(** [!value] for an optional string. *)
Definition falsy (a : option string) : bool :=
  match a with
  | Some s => negb (truthy s)
  | None => true
  end.

End JS.

(** ** Regular expressions

    The patterns of the sanitizer are all anchored with [^] and [$] and
    use character classes, concatenation, alternation, [?], [*] and [+]
    only; they are matched by derivatives. *)

Module Regex.

Inductive regex : Type :=
| Void : regex
| Eps : regex
| Class : (ascii -> bool) -> regex
| Cat : regex -> regex -> regex
| Alt : regex -> regex -> regex
| Star : regex -> regex.

Definition Plus (r : regex) : regex := Cat r (Star r).
Definition Opt (r : regex) : regex := Alt Eps r.

Fixpoint nullable (r : regex) : bool :=
  match r with
  | Void => false
  | Eps => true
  | Class _ => false
  | Cat a b => nullable a && nullable b
  | Alt a b => nullable a || nullable b
  | Star _ => true
  end.

Fixpoint deriv (c : ascii) (r : regex) : regex :=
  match r with
  | Void => Void
  | Eps => Void
  | Class p => if p c then Eps else Void
  | Cat a b =>
      if nullable a then Alt (Cat (deriv c a) b) (deriv c b)
      else Cat (deriv c a) b
  | Alt a b => Alt (deriv c a) (deriv c b)
  | Star a => Cat (deriv c a) (Star a)
  end.

(** [/^r$/.test(s)] *)
Fixpoint test (r : regex) (s : string) : bool :=
  match s with
  | EmptyString => nullable r
  | String c rest => test (deriv c r) rest
  end.

Definition range (lo hi : N) (c : ascii) : bool :=
  ((lo <=? JS.code c) && (JS.code c <=? hi))%N.

Definition chr (ch : ascii) (c : ascii) : bool := Ascii.eqb ch c.

Definition upper : ascii -> bool := range 65 90.
Definition lower : ascii -> bool := range 97 122.
Definition digit : ascii -> bool := range 48 57.
Definition alnum (c : ascii) : bool := upper c || lower c || digit c.

Definition oneOf (chars : string) (c : ascii) : bool :=
  existsb (Ascii.eqb c) (list_ascii_of_string chars).

End Regex.

(** ** node:path, POSIX flavour

    [isAbsolute], [normalize], [resolve], [relative] and [sep] are
    library functions; they are modelled here on path segments, which is
    what the library's character loops compute: empty segments and [.]
    are dropped, [..] removes the segment before it, and at the root of
    an absolute path [..] is dropped. *)

Module Path.

Definition sep : string := "/".

Definition slash (c : ascii) : bool := Ascii.eqb c "/"%char.

(** [path.isAbsolute(p)] *)
Definition isAbsolute (p : string) : bool := JS.startsWith "/" p.

(** The non-empty pieces between slashes. *)
Definition segments (p : string) : list string :=
  JS.filterTruthy (JS.splitOn slash p).

(** One step of the library's [normalizeString]; [acc] holds the
    segments kept so far, last one first. *)
Definition pushSegment (allowAboveRoot : bool) (acc : list string)
    (seg : string) : list string :=
  if String.eqb seg "" || String.eqb seg "." then acc
  else if String.eqb seg ".." then
    match acc with
    | top :: below =>
        if String.eqb top ".." then seg :: acc else below
    | [] => if allowAboveRoot then [seg] else []
    end
  else seg :: acc.

(** The segments normalization keeps when it meets no [..]. *)
Definition keeps (seg : string) : bool :=
  negb (String.eqb seg "" || String.eqb seg ".").

Definition normalizeSegments (allowAboveRoot : bool) (segs : list string)
    : list string :=
  rev (fold_left (pushSegment allowAboveRoot) segs []).

Definition endsWithSlash (p : string) : bool :=
  match rev (list_ascii_of_string p) with
  | c :: _ => slash c
  | [] => false
  end.

(** [path.normalize(p)] *)
Definition normalize (p : string) : string :=
  if String.eqb p "" then "."
  else
    let absolute := isAbsolute p in
    let body :=
      JS.join "/" (normalizeSegments (negb absolute) (JS.splitOn slash p)) in
    if String.eqb body "" then
      if absolute then "/" else if endsWithSlash p then "./" else "."
    else
      (if absolute then "/" else "") +:+ body +:+
      (if endsWithSlash p then "/" else "").

Section Cwd.

(** [process.cwd()], an absolute path. *)
Variable cwd : string.

(** The segments of [path.resolve(a, b)] and whether the result is
    absolute: arguments are taken from the right until one is absolute,
    the working directory coming last. *)
Definition resolveParts (a b : string) : bool * list string :=
  let '(absolute, joined) :=
    if isAbsolute b then (true, b)
    else
      let tail := if String.eqb b "" then "" else b +:+ "/" in
      if isAbsolute a then (true, a +:+ "/" +:+ tail)
      else
        let tail' := if String.eqb a "" then tail else a +:+ "/" +:+ tail in
        (isAbsolute cwd, if String.eqb cwd "" then tail' else cwd +:+ "/" +:+ tail')
  in (absolute, normalizeSegments (negb absolute) (JS.splitOn slash joined)).

Definition render (parts : bool * list string) : string :=
  let '(absolute, segs) := parts in
  if absolute then "/" +:+ JS.join "/" segs
  else if String.eqb (JS.join "/" segs) "" then "." else JS.join "/" segs.

(** [path.resolve(a, b)] *)
Definition resolve (a b : string) : string := render (resolveParts a b).

(** [path.resolve(p)] *)
Definition resolve1 (p : string) : string := render (resolveParts "" p).

(** Drops the common leading segments of two paths. *)
Fixpoint stripCommon (xs ys : list string) : list string * list string :=
  match xs, ys with
  | x :: xs', y :: ys' =>
      if String.eqb x y then stripCommon xs' ys' else (xs, ys)
  | _, _ => (xs, ys)
  end.

(** [path.relative(from, to)]: one [..] for every segment of [from]
    below the common prefix, then what is left of [to]. *)
Definition relative (from to : string) : string :=
  if String.eqb from to then ""
  else
    let from' := resolve1 from in
    let to' := resolve1 to in
    if String.eqb from' to' then ""
    else
      let '(up, down) := stripCommon (segments from') (segments to') in
      JS.join "/" (map (fun _ => "..") up ++ down).

(** A segment that names a directory entry: not empty, not [.] or
    [..], and without a slash. *)
Definition entryName (seg : string) : Prop :=
  keeps seg = true /\ String.eqb seg ".." = false /\ JS.free_of slash seg.

(** [p] lies under [base]: it is made of the segments of the resolved
    base followed by entry names. *)
Definition under (base p : string) : Prop :=
  exists below,
    Forall entryName below
    /\ p = render ((resolveParts "" base).1,
                   (resolveParts "" base).2 ++ below).

End Cwd.

End Path.

(** ** Input sanitizer (utils/validation.ts) *)

Module Validation.
Import Regex.

(** [/^[A-Za-z0-9_-]+$/] *)
Definition OWNER_REPO_PATTERN : regex :=
  Plus (Class (fun c => alnum c || oneOf "_-" c)).

(** [/^[A-Za-z0-9._-]+$/] *)
Definition TAG_PATTERN : regex :=
  Plus (Class (fun c => alnum c || oneOf "._-" c)).

(** The group [0|[1-9][0-9]...]: zero, or digits without a leading zero. *)
Definition numeric_identifier : regex :=
  Alt (Class (chr "0")) (Cat (Class (range 49 57)) (Star (Class digit))).

(** One or more [[0-9A-Za-z-]+] identifiers separated by dots. *)
Definition dotted_identifiers : regex :=
  let ident := Plus (Class (fun c => alnum c || chr "-" c)) in
  Cat ident (Star (Cat (Class (chr ".")) ident)).

(** SEMVER_PATTERN: an optional [v], three numeric identifiers
    separated by dots, an optional pre-release part after [-] and an
    optional build part after [+]. *)
Definition SEMVER_PATTERN : regex :=
  Cat (Opt (Class (chr "v")))
  (Cat numeric_identifier
  (Cat (Class (chr "."))
  (Cat numeric_identifier
  (Cat (Class (chr "."))
  (Cat numeric_identifier
  (Cat (Opt (Cat (Class (chr "-")) dotted_identifiers))
       (Opt (Cat (Class (chr "+")) dotted_identifiers)))))))).

(** [/^[A-Za-z0-9._+() -]+$/] *)
Definition ASSET_PATTERN : regex :=
  Plus (Class (fun c => alnum c || oneOf "._+() -" c)).

(** [/^[A-Za-z0-9._~=-]+$/] *)
Definition TOKEN_PATTERN : regex :=
  Plus (Class (fun c => alnum c || oneOf "._~=-" c)).

(** [/^[A-Za-z0-9._@+-]+$/] *)
Definition USER_PATTERN : regex :=
  Plus (Class (fun c => alnum c || oneOf "._@+-" c)).

(** [/^[A-Za-z0-9._-]+$/] *)
Definition DEVICE_PATTERN : regex :=
  Plus (Class (fun c => alnum c || oneOf "._-" c)).

Definition MAX_OWNER_REPO_LENGTH : Z := 100.
Definition MAX_VERSION_LENGTH : Z := 200.
Definition MAX_ASSET_LENGTH : Z := 200.
Definition MAX_HEADER_LENGTH : Z := 2048.

Definition NUL : ascii := ascii_of_N 0.
Definition CR : ascii := ascii_of_N 13.
Definition LF : ascii := ascii_of_N 10.

Definition validateOwnerRepo (value : string) : option string :=
  let trimmed := JS.trim value in
  if (JS.len trimmed =? 0) || (JS.len trimmed >? MAX_OWNER_REPO_LENGTH) then None
  else if negb (test OWNER_REPO_PATTERN trimmed) then None
  else Some trimmed.

Definition validateVersion (value : string) : option string :=
  let trimmed := JS.trim value in
  if (JS.len trimmed =? 0) || (JS.len trimmed >? MAX_VERSION_LENGTH) then None
  else if test SEMVER_PATTERN trimmed || test TAG_PATTERN trimmed
  then Some trimmed
  else None.

Definition validateAssetName (value : string) : option string :=
  let trimmed := JS.trim value in
  if (JS.len trimmed =? 0) || (JS.len trimmed >? MAX_ASSET_LENGTH) then None
  else if JS.includes "/" trimmed || JS.includes "\" trimmed
          || JS.includes ".." trimmed then None
  else if negb (test ASSET_PATTERN trimmed) then None
  else Some trimmed.

(** [/[\r\n\0]/.test(s)] *)
Definition hasControl (s : string) : bool :=
  existsb (fun c => Ascii.eqb c CR || Ascii.eqb c LF || Ascii.eqb c NUL)
          (list_ascii_of_string s).

Definition validateHeaderValue (value : option string) (maxLength : Z)
    : option string :=
  if JS.falsy value then None
  else
    let trimmed := JS.trim (default "" value) in
    if (JS.len trimmed =? 0) || (JS.len trimmed >? maxLength) then None
    else if hasControl trimmed then None
    else Some trimmed.

Definition validateTokenHeader (value : option string) : option string :=
  match validateHeaderValue value MAX_HEADER_LENGTH with
  | None => None
  | Some token => if negb (test TOKEN_PATTERN token) then None else Some token
  end.

Definition validateUserHeader (value : option string) : option string :=
  match validateHeaderValue value MAX_HEADER_LENGTH with
  | None => None
  | Some user =>
      if negb (test USER_PATTERN user) || (JS.len user >? MAX_OWNER_REPO_LENGTH)
      then None else Some user
  end.

Definition validateDeviceHeader (value : option string) : option string :=
  match validateHeaderValue value MAX_HEADER_LENGTH with
  | None => None
  | Some device =>
      if negb (test DEVICE_PATTERN device)
         || (JS.len device >? MAX_OWNER_REPO_LENGTH)
      then None else Some device
  end.

Definition validateDeviceId (value : option string) : option string :=
  if JS.falsy value then None
  else
    let trimmed := JS.trim (default "" value) in
    if (JS.len trimmed =? 0) || (JS.len trimmed >? MAX_OWNER_REPO_LENGTH)
    then None
    else if negb (test DEVICE_PATTERN trimmed) then None
    else Some trimmed.

(** [Record<string, string>]: the members in insertion order. *)
Definition Headers : Type := list (string * string).

(** [headers[key]] *)
Definition member (headers : Headers) (key : string) : option string :=
  snd <$> find (fun e => String.eqb (fst e) key) headers.

(** Writing an own member: an existing member keeps its place. *)
Fixpoint put (headers : Headers) (key value : string) : Headers :=
  match headers with
  | [] => [(key, value)]
  | (k, v) :: rest =>
      if String.eqb k key then (k, value) :: rest
      else (k, v) :: put rest key value
  end.

(** [headers[key] = value] on an object literal, for a string value.
    The name [__proto__] is an accessor every object inherits; its
    setter ignores a value that is not an object, so the assignment
    creates no member. *)
Definition assign (headers : Headers) (key value : string) : Headers :=
  if String.eqb key "__proto__" then headers else put headers key value.

Definition getHeader (headers : Headers) (name : string) : option string :=
  let key := JS.toLowerCase name in
  match member headers key with
  | Some v => Some v
  | None =>
      snd <$> find (fun e => String.eqb (JS.toLowerCase (fst e)) key) headers
  end.

(** [collectValidatedHeaders]: the request's headers in iteration
    order. *)
Definition collectValidatedHeaders (raw : list (string * string)) : Headers :=
  fold_left
    (fun result '(name, value) =>
       match validateHeaderValue (Some value) MAX_HEADER_LENGTH with
       | Some safeValue => assign result (JS.toLowerCase name) safeValue
       | None => result
       end)
    raw [].

Section Net.

(** [isIP] of node:net: 4, 6 or 0. *)
Variable isIP : string -> Z.

Definition isIPb (s : string) : bool := negb (isIP s =? 0).

Definition parseForwardedFor (value : option string) : string :=
  if JS.falsy value then "0.0.0.0"
  else
    let first :=
      JS.trim (hd "" (JS.splitOn (Ascii.eqb ",") (default "" value))) in
    if negb (JS.truthy first) then "0.0.0.0"
    else if isIPb first then first
    else
      let bracketed :=
        if JS.startsWith "[" first && JS.includes "]" first then
          let inner :=
            JS.sliceFrom 1
              (JS.sliceTo (default O (JS.indexOf "]" first)) first) in
          if isIPb inner then Some inner else None
        else None in
      match bracketed with
      | Some inner => inner
      | None =>
          let ipv4Port := hd "" (JS.splitOn (Ascii.eqb ":") first) in
          if isIPb ipv4Port then ipv4Port else "0.0.0.0"
      end.

Definition validateIpAddress (value : option string) : option string :=
  if JS.falsy value then None
  else
    let trimmed := JS.trim (default "" value) in
    if isIPb trimmed then Some trimmed else None.

End Net.

(** What the sanitizer reads from a [URL] object. *)
Record URL := mkURL {
  protocol : string;
  username : string;
  password : string;
  hostname : string;
  href : string;
  origin : string
}.

Section Url.

(** [new URL(s)]; [None] when the constructor throws. *)
Variable parseURL : string -> option URL.

Definition validateHttpsUrl (value : option string) : option URL :=
  if JS.falsy value then None
  else
    let trimmed := JS.trim (default "" value) in
    if (JS.len trimmed =? 0) || (JS.len trimmed >? 2048) then None
    else
      match parseURL trimmed with
      | None => None
      | Some url =>
          if negb (String.eqb (protocol url) "https:") then None
          else if JS.truthy (username url) || JS.truthy (password url) then None
          else if negb (JS.truthy (hostname url)) then None
          else Some url
      end.

Definition validateOrigin (value : option string) : option string :=
  match validateHeaderValue value MAX_HEADER_LENGTH with
  | None => None
  | Some header =>
      match validateHttpsUrl (Some header) with
      | None => None
      | Some url => Some (origin url)
      end
  end.

End Url.

Section SafePath.

Variable cwd : string.

(** [trimmed.split(/[\\/]+/).filter(Boolean)]: splitting at every single
    separator and dropping the empty pieces gives the same list. *)
Definition rawSegments (trimmed : string) : list string :=
  JS.filterTruthy
    (JS.splitOn (fun c => Ascii.eqb c "/" || Ascii.eqb c "\") trimmed).

Definition hasDotDot (segs : list string) : bool :=
  existsb (String.eqb "..") segs.

Definition resolveSafePath (baseDir inputPath : string) : option string :=
  let trimmed := JS.trim inputPath in
  if (JS.len trimmed =? 0) || (JS.len trimmed >? 4096) then None
  else if JS.includes (String NUL "") trimmed then None
  else if hasDotDot (rawSegments trimmed) then None
  else
    let resolved :=
      if Path.isAbsolute trimmed then Path.normalize trimmed
      else Path.resolve cwd baseDir trimmed in
    if negb (Path.isAbsolute resolved) then None
    else if negb (Path.isAbsolute trimmed)
            && (let rel := Path.relative cwd baseDir resolved in
                String.eqb rel ".." || JS.startsWith (".." +:+ Path.sep) rel)
    then None
    else Some resolved.

End SafePath.

End Validation.

(** ** Cache manager (github/cache.ts) *)

Module Cache.

(** A [Buffer] is the sequence of its bytes. *)
Definition Buffer : Type := string.

(** [interface CacheEntry] *)
Record CacheEntry := mkEntry {
  data : string;
  checksum : string;
  timestamp : Z;
  ttl : Z
}.

(** The cache directory: content by path. Only the cache manager writes
    there. *)
Abbreviation Files := (gmap string string).

Record CacheManager := mkCache {
  cacheDir : string;
  ttlSeconds : Z
}.

Section Runtime.

(** [process.cwd()] *)
Variable cwd : string.
(** [createHash("sha256").update(x).digest("hex")] *)
Variable sha256_hex : string -> string.
(** [buf.toString("base64")] and [Buffer.from(s, "base64")] *)
Variable base64_encode : Buffer -> string.
Variable base64_decode : string -> Buffer.
(** [JSON.stringify(entry)] and [JSON.parse(content) as CacheEntry];
    [None] when parsing throws. *)
Variable json_stringify : CacheEntry -> string.
Variable json_parse : string -> option CacheEntry.

Definition getCachePath (cm : CacheManager) (key : string) : string :=
  Path.resolve cwd (cacheDir cm) (sha256_hex key +:+ ".cache").

(** [get(key)] at clock reading [now]; [read_ok] tells whether
    [readFileSync] succeeds. The directory is left as it is. *)
Definition get (cm : CacheManager) (files : Files) (key : string)
    (now : Z) (read_ok : bool) : option Buffer :=
  match files !! getCachePath cm key with
  | None => None
  | Some content =>
      if negb read_ok then None
      else match json_parse content with
           | None => None
           | Some entry =>
               if now - timestamp entry >? ttl entry * 1000 then None
               else Some (base64_decode (data entry))
           end
  end.

(** The entry that [set] builds. *)
Definition newEntry (cm : CacheManager) (payload : Buffer) (now : Z)
    : CacheEntry :=
  mkEntry (base64_encode payload) (sha256_hex payload) now (ttlSeconds cm).

(** [set(key, data)]; [write_ok] tells whether [writeFileSync]
    succeeds, a failure being swallowed. *)
Definition set (cm : CacheManager) (files : Files) (key : string)
    (payload : Buffer) (now : Z) (write_ok : bool) : Files :=
  if write_ok
  then <[getCachePath cm key := json_stringify (newEntry cm payload now)]> files
  else files.

(** [getChecksum(key)] *)
Definition getChecksum (cm : CacheManager) (files : Files) (key : string)
    (now : Z) (read_ok : bool) : option string :=
  match files !! getCachePath cm key with
  | None => None
  | Some content =>
      if negb read_ok then None
      else match json_parse content with
           | None => None
           | Some entry =>
               if now - timestamp entry >? ttl entry * 1000 then None
               else Some (checksum entry)
           end
  end.

(** [clear(key)] overwrites an existing file with the empty string. *)
Definition clear (cm : CacheManager) (files : Files) (key : string)
    (write_ok : bool) : Files :=
  match files !! getCachePath cm key with
  | None => files
  | Some _ =>
      if write_ok then <[getCachePath cm key := ""]> files else files
  end.

(** Directories that cache managers, of this or an earlier run of the
    process, can produce from an empty one. *)
Inductive written : Files -> Prop :=
| written_empty : written ∅
| written_set cm files key payload now write_ok :
    written files -> written (set cm files key payload now write_ok)
| written_clear cm files key write_ok :
    written files -> written (clear cm files key write_ok).

End Runtime.

End Cache.

(** ** Shared types (types.ts) and results of fallible code *)

(** [interface DeviceContext] *)
Record DeviceContext := mkDevice {
  device_id : string;
  device_name : option string;
  user_id : option string;
  auth_method : string;
  ip_address : string;
  dc_timestamp : Z
}.

(** What a call does: it returns a value or throws. *)
Inductive Outcome (A : Type) : Type :=
| Returned : A -> Outcome A
| Thrown : string -> Outcome A.
Arguments Returned {A} _.
Arguments Thrown {A} _.

(** ** Certificate adapter (auth/mtls.ts) *)

Module MTLS.

(** Own members of the object literal are looked up before the members
    every object inherits; [result[key]] for one of these names is
    never undefined and has no [push]. *)
Definition inheritedMember (key : string) : bool :=
  existsb (String.eqb key)
    ["constructor"; "__proto__"; "hasOwnProperty"; "isPrototypeOf";
     "propertyIsEnumerable"; "toLocaleString"; "toString"; "valueOf";
     "__defineGetter__"; "__defineSetter__"; "__lookupGetter__";
     "__lookupSetter__"].

(** The scanning loop of [parseDistinguishedName]: a backslash escapes
    the next character, commas and slashes end a segment, and segments
    that are blank after trimming are dropped. *)
Fixpoint scanSegments (chars : list ascii) (current : string)
    (escaped : bool) (segments : list string) : list string :=
  match chars with
  | [] =>
      if JS.truthy (JS.trim current) then segments ++ [JS.trim current]
      else segments
  | char :: rest =>
      if escaped then
        scanSegments rest (current +:+ String char "") false segments
      else if Ascii.eqb char "\" then
        scanSegments rest current true segments
      else if Ascii.eqb char "," || Ascii.eqb char "/" then
        scanSegments rest ""
          false
          (if JS.truthy (JS.trim current) then segments ++ [JS.trim current]
           else segments)
      else scanSegments rest (current +:+ String char "") false segments
  end.

(** [Record<string, string[]>] *)
Definition NameMap : Type := list (string * list string).

Definition nameLookup (m : NameMap) (key : string) : option (list string) :=
  snd <$> find (fun e => String.eqb (fst e) key) m.

Fixpoint namePush (m : NameMap) (key value : string) : NameMap :=
  match m with
  | [] => [(key, [value])]
  | (k, vs) :: rest =>
      if String.eqb k key then (k, vs ++ [value]) :: rest
      else (k, vs) :: namePush rest key value
  end.

(** The second loop of [parseDistinguishedName]; [None] when
    [result[key].push] is not a function. *)
Fixpoint collectNames (segments : list string) (result : NameMap)
    : option NameMap :=
  match segments with
  | [] => Some result
  | segment :: rest =>
      match JS.indexOf "=" segment with
      | None => collectNames rest result
      | Some index =>
          let key := JS.trim (JS.sliceTo index segment) in
          let value := JS.trim (JS.sliceFrom (S index) segment) in
          if negb (JS.truthy key) || negb (JS.truthy value)
          then collectNames rest result
          else if inheritedMember key then None
          else collectNames rest (namePush result key value)
      end
  end.

Definition parseDistinguishedName (input : string) : option NameMap :=
  collectNames (scanSegments (list_ascii_of_string input) "" false []) [].

Definition altNameValue (entry : string) : string :=
  match JS.indexOf ":" entry with
  | None => ""
  | Some index => JS.trim (JS.sliceFrom (S index) entry)
  end.

Definition parseSubjectAltNames (value : option string) : list string :=
  if JS.falsy value then []
  else
    JS.filterTruthy
      (map altNameValue
         (JS.filterTruthy
            (map JS.trim (JS.splitOn (Ascii.eqb ",") (default "" value))))).

(** The members the adapter reads from an [X509Certificate].
    [Date.parse] of the validity bounds is [None] when it is not finite;
    [keyUsage] and [subjectAltName] are [None] when node leaves the
    member undefined. *)
Record Certificate := mkCert {
  notBefore : option Z;
  notAfter : option Z;
  keyUsage : option (list string);
  subject : string;
  subjectAltName : option string
}.

(** The stage at which the adapter gives up. *)
Inductive Stage : Type :=
| NoCertificate
| Exception
| DatesNotFinite
| OutsideValidity
| NotSignedByCA
| NoDigitalSignature
| BadIdentifier.

Inductive Checked : Type :=
| Rejected : Stage -> Checked
| Accepted : DeviceContext -> Checked.

Section Runtime.

(** [readFileSync(path, "utf-8")]; [None] when it throws. *)
Variable readFile : string -> option string.
(** [new X509Certificate(pem)]; [None] when it throws. *)
Variable parseCertificate : string -> option Certificate.
(** [client.verify(ca.publicKey)]; [None] when it throws. *)
Variable verify : Certificate -> Certificate -> option bool.

(** The candidate identifier: [altNames[0] || commonName || undefined]. *)
Definition candidate (altNames : list string) (commonName : option string)
    : option string :=
  JS.orElse (JS.orElse (head altNames) commonName) None.

(** The body of the [try] block, every exit labelled with its stage.
    [now] and [now'] are the two clock readings. *)
Definition check (caPath clientCert : string) (now now' : Z) : Checked :=
  match readFile caPath with
  | None => Rejected Exception
  | Some caCertPem =>
  match parseCertificate caCertPem with
  | None => Rejected Exception
  | Some caCert =>
  match parseCertificate clientCert with
  | None => Rejected Exception
  | Some clientX509 =>
  match notBefore clientX509, notAfter clientX509 with
  | Some from, Some to =>
      if (now <? from) || (now >? to) then Rejected OutsideValidity
      else
        match verify clientX509 caCert with
        | None => Rejected Exception
        | Some false => Rejected NotSignedByCA
        | Some true =>
            if match keyUsage clientX509 with
               | Some usages =>
                   negb (existsb (String.eqb "Digital Signature") usages)
               | None => false
               end
            then Rejected NoDigitalSignature
            else
              match parseDistinguishedName (subject clientX509) with
              | None => Rejected Exception
              | Some subjectMap =>
                  let altNames :=
                    parseSubjectAltNames (subjectAltName clientX509) in
                  let commonName := nameLookup subjectMap "CN" ≫= head in
                  match Validation.validateDeviceId
                          (candidate altNames commonName) with
                  | None => Rejected BadIdentifier
                  | Some deviceId =>
                      Accepted
                        (mkDevice deviceId None None "mtls" "0.0.0.0" now')
                  end
              end
        end
  | _, _ => Rejected DatesNotFinite
  end end end end.

(** [authenticateMTLS(clientCert, config)]; [caPath] is
    [config?.ca_cert_path]. *)
Definition authenticateMTLS (clientCert : option string)
    (caPath : option string) (now now' : Z) : Outcome (option DeviceContext) :=
  if JS.falsy clientCert then Returned None
  else if JS.falsy caPath
  then Thrown "mTLS CA certificate path not configured"
  else
    match check (default "" caPath) (default "" clientCert) now now' with
    | Accepted device => Returned (Some device)
    | Rejected _ => Returned None
    end.

(** The stage behind a rejection, with the two guards before the [try]
    block included. *)
Definition stage (clientCert : option string) (caPath : option string)
    (now now' : Z) : option Stage :=
  if JS.falsy clientCert then Some NoCertificate
  else if JS.falsy caPath then None
  else
    match check (default "" caPath) (default "" clientCert) now now' with
    | Accepted _ => None
    | Rejected st => Some st
    end.

End Runtime.

(** Every value stored in a name map is non-empty and trimmed. *)
Definition values_trimmed (m : NameMap) : Prop :=
  forall key values v,
    In (key, values) m -> In v values -> JS.truthy v = true /\ JS.trim v = v.

(** The validity window contains the clock reading. *)
Definition in_window (cert : Certificate) (now : Z) : Prop :=
  exists from to,
    notBefore cert = Some from /\ notAfter cert = Some to
    /\ from <= now <= to.

(** ** What node reports for a certificate

    The content of a certificate as issued: the validity bounds, the
    attributes of the subject in order, the alternative names with
    their kind, the Key Usage extension and the Extended Key Usage
    extension (object identifiers), each extension [None] when absent. *)
Record Content := mkContent {
  valid_from : Z;
  valid_to : Z;
  attributes : list (string * string);
  alt_names : list (string * string);
  key_usage : option (list string);
  extended_key_usage : option (list string)
}.

Definition line_feed : string := String "010"%char "".

(** The members of node's [X509Certificate] for that content, as node
    documents them: [subject] gives one attribute per line, [CN=laptop-7]
    then a line feed then [O=Acme]; [subjectAltName] gives the names as
    [DNS:host-1.example.com, IP Address:10.0.0.7] and is undefined
    without names; [keyUsage] gives the extended key usages as object
    identifiers and is undefined without that extension. The Key Usage
    extension is not among the members. Attribute values are taken to be
    plain, so that node escapes nothing. *)
Definition reported (c : Content) : Certificate :=
  mkCert (Some (valid_from c)) (Some (valid_to c))
         (extended_key_usage c)
         (JS.join line_feed
            (map (fun a => fst a +:+ "=" +:+ snd a) (attributes c)))
         (match alt_names c with
          | [] => None
          | names =>
              Some (JS.join ", " (map (fun n => fst n +:+ ":" +:+ snd n) names))
          end).

(** The common name of the subject. *)
Definition common_name (c : Content) : option string :=
  snd <$> find (fun a => String.eqb (fst a) "CN") (attributes c).

(** The identifier the design asks for: the first alternative name
    when there is one, else the common name. *)
Definition designated_id (c : Content) : option string :=
  match alt_names c with
  | first :: _ => Some (snd first)
  | [] => common_name c
  end.

(** The design's key-usage condition: a Key Usage extension, when
    present, includes the digital-signature capability. *)
Definition may_sign (c : Content) : bool :=
  match key_usage c with
  | Some usages => existsb (String.eqb "Digital Signature") usages
  | None => true
  end.

(** An object identifier in dotted notation. *)
Definition dotted (oid : string) : bool :=
  forallb (fun ch => Regex.digit ch || Ascii.eqb ch ".")
          (list_ascii_of_string oid).

(** A sample deployment: one CA file, one client certificate signed by
    it and valid from 1000 to 2000. *)
Definition sampleReadFile (path : string) : option string :=
  if String.eqb path "/etc/gitgate/ca.pem" then Some "CA PEM" else None.

Definition sampleContent : Content :=
  mkContent 1000 2000 [("CN", "laptop-7"); ("O", "Acme")]
            [("DNS", "host-1.example.com"); ("IP Address", "10.0.0.7")]
            (Some ["Digital Signature"; "Key Encipherment"]) None.

Definition sampleClient : Certificate := reported sampleContent.

Definition sampleCA : Certificate :=
  mkCert (Some 0) (Some 9000) None "CN=Acme Root" None.

Definition sampleParse (pem : string) : option Certificate :=
  if String.eqb pem "CA PEM" then Some sampleCA
  else if String.eqb pem "CLIENT PEM" then Some sampleClient
  else None.

Definition sampleVerify (client ca : Certificate) : option bool := Some true.

(** More certificates issued by the same CA for the device laptop-7,
    none with alternative names: two whose subject also names the
    organisation, after or before the common name, one marked for client
    authentication, and one whose key usage is key encipherment only. *)
Definition withOrganisation : Content :=
  mkContent 1000 2000 [("CN", "laptop-7"); ("O", "Acme")] []
            (Some ["Digital Signature"]) None.

Definition organisationFirst : Content :=
  mkContent 1000 2000 [("O", "Acme"); ("CN", "laptop-7")] []
            (Some ["Digital Signature"]) None.

Definition forClientAuth : Content :=
  mkContent 1000 2000 [("CN", "laptop-7")] []
            (Some ["Digital Signature"]) (Some ["1.3.6.1.5.5.7.3.2"]).

Definition enciphermentOnly : Content :=
  mkContent 1000 2000 [("CN", "laptop-7")] []
            (Some ["Key Encipherment"]) None.

Definition issuedParse (pem : string) : option Certificate :=
  if String.eqb pem "CA PEM" then Some sampleCA
  else if String.eqb pem "ORGANISATION PEM" then Some (reported withOrganisation)
  else if String.eqb pem "ORGANISATION FIRST PEM"
  then Some (reported organisationFirst)
  else if String.eqb pem "CLIENT AUTH PEM" then Some (reported forClientAuth)
  else if String.eqb pem "ENCIPHERMENT PEM" then Some (reported enciphermentOnly)
  else None.

End MTLS.

(** ** HTTP helper (utils/http.ts) and the two API-backed adapters *)

Module Http.

(** A parsed JSON document. *)
#[local] Unset Elimination Schemes.
Inductive Json : Type :=
| JNull : Json
| JBool : bool -> Json
| JNum : Z -> Json
| JStr : string -> Json
| JArr : list Json -> Json
| JObj : list (string * Json) -> Json.
#[local] Set Elimination Schemes.

(** [value.name] for the member names read by the adapters: reading a
    member of [null] throws ([None]); objects answer with the member or
    with undefined, every other value with undefined. *)
Definition member (value : Json) (name : string) : option (option Json) :=
  match value with
  | JNull => None
  | JObj members =>
      Some (snd <$> find (fun e => String.eqb (fst e) name) members)
  | _ => Some None
  end.

(** [typeof v === "string" ? v : undefined] *)
Definition asString (v : option Json) : option string :=
  match v with
  | Some (JStr s) => Some s
  | _ => None
  end.

(** [!v] for an optional JSON value. *)
Definition falsy (v : option Json) : bool :=
  match v with
  | None => true
  | Some JNull => true
  | Some (JBool b) => negb b
  | Some (JNum n) => n =? 0
  | Some (JStr s) => negb (JS.truthy s)
  | Some (JArr _) => false
  | Some (JObj _) => false
  end.

Record Request := mkRequest {
  req_url : string;
  req_authorization : string
}.

(** What [fetch] does with a request: the promise is rejected (network
    error, or abort when the timer fires), or a response arrives whose
    body parses as JSON or not. *)
Inductive FetchResult : Type :=
| Rejects : FetchResult
| Responds (ok : bool) (body : option Json) : FetchResult.

Section Runtime.

Variable parseURL : string -> option Validation.URL.
Variable fetch : Request -> FetchResult.

(** [fetchWithTimeout(input, init, timeoutMs)]; [None] when it
    throws. *)
Definition fetchWithTimeout (request : Request) : option (bool * option Json) :=
  match parseURL (req_url request) with
  | None => None
  | Some url =>
      if negb (String.eqb (Validation.protocol url) "https:") then None
      else match fetch request with
           | Rejects => None
           | Responds ok body => Some (ok, body)
           end
  end.

End Runtime.

(** Failures of the upstream call: the request is rejected (network
    error or timeout), the status is not 2xx, or the body is not JSON or
    is [null]. *)
Definition upstream_failure (r : FetchResult) : Prop :=
  r = Rejects
  \/ (exists body, r = Responds false body)
  \/ r = Responds true None
  \/ r = Responds true (Some JNull).

End Http.

Module Jamf.
Import Http.

(** The members of [config] the adapter reads, each [None] unless it is
    a string. *)
Record Config := mkConfig {
  api_url : option string;
  api_key : option string;
  api_secret : option string
}.

(** [s.replace(/\/$/, "")] *)
Definition stripTrailingSlash (s : string) : string :=
  match rev (list_ascii_of_string s) with
  | c :: before =>
      if Ascii.eqb c "/" then string_of_list_ascii (rev before) else s
  | [] => s
  end.

Section Runtime.

Variable isIP : string -> Z.
Variable parseURL : string -> option Validation.URL.
Variable fetch : Request -> FetchResult.

(** The request sent to the identity API. *)
Definition tokenRequest (jamfToken : string) (apiUrl : Validation.URL)
    : Request :=
  mkRequest
    (stripTrailingSlash (Validation.href apiUrl) +:+ "/api/v1/auth/tokens")
    ("Bearer " +:+ jamfToken).

(** The [try] block of [authenticateJamf]; [None] when something in it
    throws. *)
Definition exchange (headers : Validation.Headers) (jamfToken : string)
    (apiUrl : Validation.URL) (now : Z) : option (option DeviceContext) :=
  match fetchWithTimeout parseURL fetch (tokenRequest jamfToken apiUrl) with
  | None => None
  | Some (ok, body) =>
      if negb ok then Some None
      else
        match body with
        | None => None
        | Some data =>
            match member data "device_id", member data "device_name",
                  member data "user_id" with
            | Some deviceIdRaw, Some deviceNameRaw, Some userIdRaw =>
                match Validation.validateDeviceId (asString deviceIdRaw) with
                | None => Some None
                | Some deviceId =>
                    Some (Some
                      (mkDevice deviceId (asString deviceNameRaw)
                         (asString userIdRaw) "jamf"
                         (Validation.parseForwardedFor isIP
                            (Validation.getHeader headers "x-forwarded-for"))
                         now))
                end
            | _, _, _ => None
            end
        end
  end.

Definition authenticateJamf (headers : Validation.Headers)
    (config : option Config) (now : Z) : Outcome (option DeviceContext) :=
  match Validation.validateTokenHeader
          (Validation.getHeader headers "x-jamf-token") with
  | None => Returned None
  | Some jamfToken =>
      let apiUrl := Validation.validateHttpsUrl parseURL (config ≫= api_url) in
      let apiKey := config ≫= api_key in
      let apiSecret := config ≫= api_secret in
      match apiUrl with
      | Some url =>
          if JS.falsy apiKey || JS.falsy apiSecret
          then Thrown "Jamf configuration incomplete"
          else
            match exchange headers jamfToken url now with
            | Some result => Returned result
            | None => Returned None
            end
      | None => Thrown "Jamf configuration incomplete"
      end
  end.

(** The configuration the adapter insists on. *)
Definition configured (config : option Config) : Prop :=
  is_Some (Validation.validateHttpsUrl parseURL (config ≫= api_url))
  /\ JS.falsy (config ≫= api_key) = false
  /\ JS.falsy (config ≫= api_secret) = false.

End Runtime.

End Jamf.

Module Tailscale.
Import Http.

(** [devices.find((d) => d.id === tsDevice)]; [None] when the callback
    throws on a [null] element. *)
Fixpoint findDevice (devices : list Json) (tsDevice : string)
    : option (option Json) :=
  match devices with
  | [] => Some None
  | d :: rest =>
      match member d "id" with
      | None => None
      | Some (Some (JStr id)) =>
          if String.eqb id tsDevice then Some (Some d)
          else findDevice rest tsDevice
      | Some _ => findDevice rest tsDevice
      end
  end.

Section Runtime.

Variable isIP : string -> Z.
Variable parseURL : string -> option Validation.URL.
Variable fetch : Request -> FetchResult.

(** The request sent to the device directory. *)
Definition devicesRequest (apiKey : string) : Request :=
  mkRequest "https://api.tailscale.com/api/v2/devices" ("Bearer " +:+ apiKey).

(** The [try] block of [authenticateTailscale]; [None] when something
    in it throws. A device name that is not a string is left out of the
    identity. *)
Definition lookup (headers : Validation.Headers) (tsUser tsDevice : string)
    (tsIP : option string) (apiKey : string) (now : Z)
    : option (option DeviceContext) :=
  match fetchWithTimeout parseURL fetch (devicesRequest apiKey) with
  | None => None
  | Some (ok, body) =>
      if negb ok then Some None
      else
        match body with
        | None => None
        | Some data =>
            match member data "devices" with
            | None => None
            | Some devices =>
                if falsy devices then Some None
                else
                  match devices with
                  | Some (JArr items) =>
                      match findDevice items tsDevice with
                      | None => None
                      | Some None => Some None
                      | Some (Some device) =>
                          match Validation.validateDeviceId (Some tsDevice) with
                          | None => Some None
                          | Some deviceId =>
                              match member device "name" with
                              | None => None
                              | Some name =>
                                  Some (Some
                                    (mkDevice deviceId (asString name)
                                       (Some tsUser) "tailscale"
                                       (default
                                          (Validation.parseForwardedFor isIP
                                             (Validation.getHeader headers
                                                "x-forwarded-for"))
                                          (JS.orElse tsIP None))
                                       now))
                              end
                          end
                      end
                  | _ => None
                  end
            end
        end
  end.

(** [apiKeyRaw] is [config.api_key] when that is a string. *)
Definition authenticateTailscale (headers : Validation.Headers)
    (apiKeyRaw : option string) (now : Z) : Outcome (option DeviceContext) :=
  let tsUser :=
    Validation.validateUserHeader
      (Validation.getHeader headers "x-tailscale-user") in
  let tsDevice :=
    Validation.validateDeviceHeader
      (Validation.getHeader headers "x-tailscale-device") in
  let tsIP :=
    Validation.validateIpAddress isIP
      (Validation.getHeader headers "x-tailscale-ip") in
  match tsUser, tsDevice with
  | Some user, Some device =>
      match Validation.validateTokenHeader apiKeyRaw with
      | None => Thrown "Tailscale API key not configured"
      | Some apiKey =>
          match lookup headers user device tsIP apiKey now with
          | Some result => Returned result
          | None => Returned None
          end
      end
  | _, _ => Returned None
  end.

End Runtime.

End Tailscale.

(** ** Release source client (github/client.ts) *)

Module GitHub.

(** [interface ReleaseAsset] and [interface Release], with the members
    the routes read. *)
Record ReleaseAsset := mkAsset {
  asset_id : Z;
  asset_name : string
}.

Record Release := mkRelease {
  tag_name : string;
  assets : list ReleaseAsset
}.

(** The body of an asset response as Octokit hands it over. *)
Inductive AssetData : Type :=
| IsBuffer : Cache.Buffer -> AssetData
| IsArrayBuffer : Cache.Buffer -> AssetData
| IsString : string -> AssetData
| IsOther : AssetData.

Section Octokit.

(** The three Octokit calls; [None] when the call throws. *)
Variable octokit_getReleaseByTag : string -> string -> string -> option Release.
Variable octokit_listReleases : string -> string -> Z -> option (list Release).
Variable octokit_getReleaseAsset : string -> string -> Z -> option AssetData.

Definition getRelease (owner repo tag : string) : option Release :=
  octokit_getReleaseByTag owner repo tag.

Definition listReleases (owner repo : string) : list Release :=
  default [] (octokit_listReleases owner repo 30).

Definition downloadAsset (owner repo : string) (assetId : Z)
    : option Cache.Buffer :=
  match octokit_getReleaseAsset owner repo assetId with
  | Some (IsBuffer b) => Some b
  | Some (IsArrayBuffer b) => Some b
  | Some (IsString s) => Some s
  | Some IsOther => None
  | None => None
  end.

End Octokit.

End GitHub.

(** ** Audit logger (audit/logger.ts) *)

Module Audit.

Inductive Status : Type := success | failure.

(** The [details] objects the routes pass. *)
Inductive Details : Type :=
| reason : string -> Details
| cached : Details.

(** [interface AuditLog] *)
Record AuditLog := mkLog {
  timestamp : Z;
  device_id : string;
  action : string;
  resource : string;
  status : Status;
  details : option Details
}.

Record AuditLogger := mkLogger {
  logFile : option string;
  enabled : bool
}.

(** [new AuditLogger(logFile)] *)
Definition create (file : option string) : AuditLogger :=
  mkLogger (JS.orElse file None) (negb (JS.falsy file)).

(** [log(entry)]: the lines of the log file afterwards; [write_ok]
    tells whether [appendFileSync] succeeds. *)
Definition log (logger : AuditLogger) (lines : list AuditLog)
    (entry : AuditLog) (write_ok : bool) : list AuditLog :=
  if negb (enabled logger) || JS.falsy (logFile logger) then lines
  else if write_ok then lines ++ [entry] else lines.

End Audit.

(** ** Errors (utils/errors.ts) *)

Module Errors.

(** What a route can throw: an [AppError] with its status, or any other
    error. *)
Inductive Failure : Type :=
| AppError (message code : string) (status : Z)
| OtherError (message : string).

Definition ValidationError (message : string) : Failure :=
  AppError message "validation_error" 400.
Definition ConfigError (message : string) : Failure :=
  AppError message "config_error" 500.
Definition AuthError (message : string) : Failure :=
  AppError message "auth_error" 401.
Definition ExternalServiceError (message : string) : Failure :=
  AppError message "external_service_error" 502.
Definition RateLimitError (message : string) : Failure :=
  AppError message "rate_limit_error" 429.

End Errors.

(** ** Gateway pipeline (server.ts)

    The two release routes and the error handler. The CORS and
    security-header middleware does not touch the limiter, the cache or
    the audit trail and is left out. The [c.header] calls of the routes
    are recorded as typed fields of the state; they are calls on the
    request context, not members of the answer. *)

Module Server.

Record Request := mkRequest {
  param_owner : string;
  param_repo : string;
  param_version : string;
  param_asset : string;
  raw_headers : list (string * string)
}.

Inductive Body : Type :=
| ErrorBody (message : string)
| ReleaseList (releases : list GitHub.Release)
| CachedJson (bytes : Cache.Buffer)
| RawBytes (bytes : Cache.Buffer).

Record Response := mkResponse {
  status : Z;
  body : Body
}.

(** The limiter's mapping, the cache directory, the records handed to
    the audit logger (oldest first), the number of clock readings taken
    so far, and the last value passed to [c.header] for the rate-limit
    headers, [X-Checksum-SHA256], [X-Signature-RSA-SHA256] and
    [Content-Type]. A [Response] carries its status and body only: the
    asset route answers 200 with a [Response] object of its own, built
    from the bytes alone after the [c.header] calls, and what the
    framework does with the values passed to [c.header] is outside this
    development. *)
Record State := mkState {
  limits : gmap string RateLimiter.RateLimitState;
  files : gmap string string;
  audit : list Audit.AuditLog;
  ticks : nat;
  rate_headers : option (Z * Z * Z);
  checksum_header : option string;
  signature_header : option string;
  content_type : option string
}.

Definition set_limits (l : gmap string RateLimiter.RateLimitState)
    (st : State) : State :=
  mkState l (files st) (audit st) (ticks st) (rate_headers st)
          (checksum_header st) (signature_header st) (content_type st).

Definition set_files (f : gmap string string) (st : State) : State :=
  mkState (limits st) f (audit st) (ticks st) (rate_headers st)
          (checksum_header st) (signature_header st) (content_type st).

Definition add_audit (entry : Audit.AuditLog) (st : State) : State :=
  mkState (limits st) (files st) (audit st ++ [entry]) (ticks st)
          (rate_headers st) (checksum_header st) (signature_header st)
          (content_type st).

Definition tick (st : State) : State :=
  mkState (limits st) (files st) (audit st) (S (ticks st)) (rate_headers st)
          (checksum_header st) (signature_header st) (content_type st).

Definition set_rate_headers (h : Z * Z * Z) (st : State) : State :=
  mkState (limits st) (files st) (audit st) (ticks st) (Some h)
          (checksum_header st) (signature_header st) (content_type st).

Definition set_checksum_header (h : string) (st : State) : State :=
  mkState (limits st) (files st) (audit st) (ticks st) (rate_headers st)
          (Some h) (signature_header st) (content_type st).

Definition set_signature_header (h : string) (st : State) : State :=
  mkState (limits st) (files st) (audit st) (ticks st) (rate_headers st)
          (checksum_header st) (Some h) (content_type st).

Definition set_content_type (h : string) (st : State) : State :=
  mkState (limits st) (files st) (audit st) (ticks st) (rate_headers st)
          (checksum_header st) (signature_header st) (Some h).

(** A fresh request context for the next request. *)
Definition begin_request (st : State) : State :=
  mkState (limits st) (files st) (audit st) (ticks st) None None None None.

(** Route code: it reads and updates the state and returns or throws. *)
Inductive Result (A : Type) : Type :=
| Ok : A -> Result A
| Raise : Errors.Failure -> Result A.
Arguments Ok {A} _.
Arguments Raise {A} _.

Definition M (A : Type) : Type := State -> Result A * State.

Definition ret {A} (a : A) : M A := fun st => (Ok a, st).

Definition bind {A B} (m : M A) (k : A -> M B) : M B :=
  fun st =>
    match m st with
    | (Ok a, st') => k a st'
    | (Raise e, st') => (Raise e, st')
    end.

Definition throw {A} (e : Errors.Failure) : M A := fun st => (Raise e, st).

Definition modify (f : State -> State) : M unit := fun st => (Ok tt, f st).

Definition gets {A} (f : State -> A) : M A := fun st => (Ok (f st), st).

Declare Scope route_scope.
Delimit Scope route_scope with route.
Notation "'let!' x ':=' m 'in' k" := (bind m (fun x => k))
  (at level 10, x name, m at level 100, k at level 200) : route_scope.
Notation "'run!' m 'in' k" := (bind m (fun _ => k))
  (at level 10, m at level 100, k at level 200) : route_scope.
Local Open Scope route_scope.

(** What the routes need from the platform and from [createServer]. *)
Record Runtime := mkRuntime {
  (** The [n]-th clock reading and whether the disk operation made at
      that point succeeds. *)
  rt_clock : nat -> Z;
  rt_diskOk : nat -> bool;
  rt_cwd : string;
  rt_sha256_hex : string -> string;
  rt_base64_encode : Cache.Buffer -> string;
  rt_base64_decode : string -> Cache.Buffer;
  rt_json_stringify : Cache.CacheEntry -> string;
  rt_json_parse : string -> option Cache.CacheEntry;
  rt_isIP : string -> Z;
  (** [Buffer.from(JSON.stringify(releases))] and whether
      [JSON.parse(bytes.toString("utf-8"))] returns. *)
  rt_stringifyReleases : list GitHub.Release -> Cache.Buffer;
  rt_parsesAsJson : Cache.Buffer -> bool;
  (** [createSign("RSA-SHA256")] with a key; [None] when signing
      throws. *)
  rt_rsaSign : string -> Cache.Buffer -> option string;
  rt_getReleaseByTag : string -> string -> string -> option GitHub.Release;
  rt_listReleases : string -> string -> Z -> option (list GitHub.Release);
  rt_getReleaseAsset : string -> string -> Z -> option GitHub.AssetData;
  (** [authenticateDevice(method, headers, undefined, getAuthConfig())]:
      the dispatcher (auth/index.ts) is not among the sources at hand;
      it returns an identity or null, or throws. *)
  rt_authenticateDevice :
    string -> Validation.Headers -> Outcome (option DeviceContext);
  (** What [createServer] sets up from the configuration. *)
  rt_authMethod : string;
  rt_cacheManager : Cache.CacheManager;
  rt_assetSigner : option string
}.

Section Routes.

Variable rt : Runtime.

Local Abbreviation clock := (rt_clock rt).
Local Abbreviation diskOk := (rt_diskOk rt).
Local Abbreviation cwd := (rt_cwd rt).
Local Abbreviation sha256_hex := (rt_sha256_hex rt).
Local Abbreviation base64_encode := (rt_base64_encode rt).
Local Abbreviation base64_decode := (rt_base64_decode rt).
Local Abbreviation json_stringify := (rt_json_stringify rt).
Local Abbreviation json_parse := (rt_json_parse rt).
Local Abbreviation isIP := (rt_isIP rt).
Local Abbreviation stringifyReleases := (rt_stringifyReleases rt).
Local Abbreviation parsesAsJson := (rt_parsesAsJson rt).
Local Abbreviation rsaSign := (rt_rsaSign rt).
Local Abbreviation octokit_getReleaseByTag := (rt_getReleaseByTag rt).
Local Abbreviation octokit_listReleases := (rt_listReleases rt).
Local Abbreviation octokit_getReleaseAsset := (rt_getReleaseAsset rt).
Local Abbreviation authenticateDevice := (rt_authenticateDevice rt).
Local Abbreviation authMethod := (rt_authMethod rt).
Local Abbreviation cacheManager := (rt_cacheManager rt).
Local Abbreviation assetSigner := (rt_assetSigner rt).

Definition rateLimitLimit : Z := 60.

Definition Date_now : M Z := fun st => (Ok (clock (ticks st)), tick st).

Definition isAllowed (key : string) : M bool :=
  let! now := Date_now in
  fun st =>
    let '(limits', ok) :=
      RateLimiter.isAllowed rateLimitLimit (limits st) key now in
    (Ok ok, set_limits limits' st).

Definition getRemainingRequests (key : string) : M Z :=
  let! now := Date_now in
  gets (fun st =>
          RateLimiter.getRemainingRequests rateLimitLimit (limits st) key now).

Definition getResetTime (key : string) : M Z :=
  let! now := Date_now in
  gets (fun st => RateLimiter.getResetTime (limits st) key now).

Definition applyRateLimitHeaders (limit remaining resetAt : Z) : M unit :=
  modify (set_rate_headers (limit, remaining, resetAt / 1000)).

Definition logAction (deviceId action resource : string)
    (status : Audit.Status) (details : option Audit.Details) : M unit :=
  let! now := Date_now in
  modify (add_audit (Audit.mkLog now deviceId action resource status details)).

Definition cacheGet (key : string) : M (option Cache.Buffer) :=
  let! ok := gets (fun st => diskOk (ticks st)) in
  let! now := Date_now in
  gets (fun st =>
          Cache.get cwd sha256_hex base64_decode json_parse cacheManager
                    (files st) key now ok).

Definition cacheGetChecksum (key : string) : M (option string) :=
  let! ok := gets (fun st => diskOk (ticks st)) in
  let! now := Date_now in
  gets (fun st =>
          Cache.getChecksum cwd sha256_hex json_parse cacheManager
                            (files st) key now ok).

Definition cacheSet (key : string) (data : Cache.Buffer) : M unit :=
  let! ok := gets (fun st => diskOk (ticks st)) in
  let! now := Date_now in
  modify (fun st =>
            set_files
              (Cache.set cwd sha256_hex base64_encode json_stringify
                         cacheManager (files st) key data now ok)
              st).

(** What [await authenticateDevice(...)] does inside a route: an
    adapter's [Error] is not an [AppError]. *)
Definition authenticate (headers : Validation.Headers)
    : M (option DeviceContext) :=
  match authenticateDevice authMethod headers with
  | Returned device => ret device
  | Thrown message => throw (Errors.OtherError message)
  end.

(** The rate-limit steps shared by both branches of a route: consume,
    then read the two projections and set the headers. *)
Definition consumeAndReport (key : string) : M bool :=
  let! allowed := isAllowed key in
  let! remaining := getRemainingRequests key in
  let! resetAt := getResetTime key in
  run! applyRateLimitHeaders rateLimitLimit remaining resetAt in
  ret allowed.

(** The branch taken when no identity was established. *)
Definition anonymous (headers : Validation.Headers) (action resource : string)
    : M Response :=
  let anonKey :=
    Validation.parseForwardedFor isIP
      (Validation.member headers "x-forwarded-for") in
  let anonId := "anon:" +:+ anonKey in
  let! anonAllowed := consumeAndReport anonId in
  if negb anonAllowed then ret (mkResponse 429 (ErrorBody "Rate limited"))
  else
    run! logAction "unknown" action resource Audit.failure None in
    ret (mkResponse 401 (ErrorBody "Unauthorized")).

(** The rate-limit gate of an authenticated request. *)
Definition rateLimitGate (device : DeviceContext) (action resource : string) : M unit :=
  let! allowed := consumeAndReport (device_id device) in
  if negb allowed then
    run! logAction (device_id device) action resource Audit.failure
              (Some (Audit.reason "rate_limited")) in
    throw (Errors.RateLimitError "Rate limited")
  else ret tt.

(** [GET /releases/:owner/:repo] *)
Definition listReleasesRoute (request : Request) : M Response :=
  match Validation.validateOwnerRepo (param_owner request),
        Validation.validateOwnerRepo (param_repo request) with
  | Some owner, Some repo =>
      let headers := Validation.collectValidatedHeaders (raw_headers request) in
      let resource := owner +:+ "/" +:+ repo in
      let! device := authenticate headers in
      match device with
      | None => anonymous headers "list_releases" resource
      | Some device =>
          run! rateLimitGate device "list_releases" resource in
          let cacheKey := "releases:" +:+ owner +:+ ":" +:+ repo in
          let! cached := cacheGet cacheKey in
          match cached with
          | Some bytes =>
              run! logAction (device_id device) "list_releases" resource
                        Audit.success (Some Audit.cached) in
              if parsesAsJson bytes
              then ret (mkResponse 200 (CachedJson bytes))
              else throw (Errors.OtherError "SyntaxError")
          | None =>
              let releases :=
                GitHub.listReleases octokit_listReleases owner repo in
              match releases with
              | [] =>
                  run! logAction (device_id device) "list_releases" resource
                            Audit.failure (Some (Audit.reason "not_found")) in
                  ret (mkResponse 404 (ErrorBody "Repository not found"))
              | _ =>
                  run! cacheSet cacheKey (stringifyReleases releases) in
                  run! logAction (device_id device) "list_releases" resource
                            Audit.success None in
                  ret (mkResponse 200 (ReleaseList releases))
              end
          end
      end
  | _, _ => throw (Errors.ValidationError "Invalid request")
  end.

(** Signing of the served bytes when a signer is loaded. *)
Definition signIfEnabled (bytes : Cache.Buffer) : M unit :=
  match assetSigner with
  | None => ret tt
  | Some key =>
      match rsaSign key bytes with
      | Some signature => modify (set_signature_header signature)
      | None => throw (Errors.OtherError "sign")
      end
  end.

(** [GET /release/:owner/:repo/:version/:asset] *)
Definition downloadAssetRoute (request : Request) : M Response :=
  match Validation.validateOwnerRepo (param_owner request),
        Validation.validateOwnerRepo (param_repo request),
        Validation.validateVersion (param_version request),
        Validation.validateAssetName (param_asset request) with
  | Some owner, Some repo, Some version, Some assetName =>
      let headers := Validation.collectValidatedHeaders (raw_headers request) in
      let resource :=
        owner +:+ "/" +:+ repo +:+ "/" +:+ version +:+ "/" +:+ assetName in
      let! device := authenticate headers in
      match device with
      | None => anonymous headers "download_asset" resource
      | Some device =>
          run! rateLimitGate device "download_asset" resource in
          let cacheKey :=
            "asset:" +:+ owner +:+ ":" +:+ repo +:+ ":" +:+ version
            +:+ ":" +:+ assetName in
          let! cached := cacheGet cacheKey in
          match cached with
          | Some bytes =>
              let! checksum := cacheGetChecksum cacheKey in
              run! modify (set_checksum_header (default "" (JS.orElse checksum None))) in
              run! signIfEnabled bytes in
              run! logAction (device_id device) "download_asset" resource
                        Audit.success (Some Audit.cached) in
              run! modify (set_content_type "application/octet-stream") in
              ret (mkResponse 200 (RawBytes bytes))
          | None =>
              match GitHub.getRelease octokit_getReleaseByTag owner repo
                      version with
              | None =>
                  run! logAction (device_id device) "download_asset" resource
                            Audit.failure
                            (Some (Audit.reason "release_not_found")) in
                  ret (mkResponse 404 (ErrorBody "Release not found"))
              | Some release =>
                  match find (fun a => String.eqb (GitHub.asset_name a) assetName)
                             (GitHub.assets release) with
                  | None =>
                      run! logAction (device_id device) "download_asset" resource
                                Audit.failure
                                (Some (Audit.reason "asset_not_found")) in
                      ret (mkResponse 404 (ErrorBody "Asset not found"))
                  | Some asset =>
                      match GitHub.downloadAsset octokit_getReleaseAsset owner
                              repo (GitHub.asset_id asset) with
                      | None =>
                          run! logAction (device_id device) "download_asset"
                                    resource Audit.failure
                                    (Some (Audit.reason "download_failed")) in
                          throw (Errors.ExternalServiceError "Request failed")
                      | Some data =>
                          run! cacheSet cacheKey data in
                          run! modify (set_checksum_header (sha256_hex data)) in
                          run! signIfEnabled data in
                          run! logAction (device_id device) "download_asset"
                                    resource Audit.success None in
                          run! modify (set_content_type "application/octet-stream") in
                          ret (mkResponse 200 (RawBytes data))
                      end
                  end
              end
          end
      end
  | _, _, _, _ => throw (Errors.ValidationError "Invalid request")
  end.

(** [app.onError] *)
Definition onError (err : Errors.Failure) : Response :=
  match err with
  | Errors.AppError message _ status => mkResponse status (ErrorBody message)
  | Errors.OtherError _ => mkResponse 500 (ErrorBody "Internal server error")
  end.

(** One request through a route and the error handler. *)
Definition serve (route : Request -> M Response) (request : Request)
    (st : State) : Response * State :=
  match route request (begin_request st) with
  | (Ok response, st') => (response, st')
  | (Raise err, st') => (onError err, st')
  end.

(** The audit records a request adds. *)
Definition emitted (before after : State) : list Audit.AuditLog :=
  skipn (length (audit before)) (audit after).

End Routes.

(** The record names the device, the action and the resource and has
    the given status. *)
Definition carries (entry : Audit.AuditLog) (who action resource : string)
    (outcome : Audit.Status) : Prop :=
  Audit.device_id entry = who /\ Audit.action entry = action
  /\ Audit.resource entry = resource /\ Audit.status entry = outcome.

(** The identity an audit record names: the device the dispatcher
    established for the request, if any. *)
Definition auditIdentity (rt : Runtime) (request : Request) : string :=
  match rt_authenticateDevice rt (rt_authMethod rt)
          (Validation.collectValidatedHeaders (raw_headers request)) with
  | Returned (Some device) => device_id device
  | _ => "unknown"
  end.

Definition authenticated (rt : Runtime) (request : Request) : Prop :=
  exists device,
    rt_authenticateDevice rt (rt_authMethod rt)
      (Validation.collectValidatedHeaders (raw_headers request))
    = Returned (Some device).

(** What is audited for a response, by status: exactly one record for a
    success (200), an unauthorized (401), a not-found (404) or an
    upstream failure (502) response and for the rate-limited (429)
    response to an authenticated device. *)
Definition auditedOnce (rt : Runtime) (request : Request)
    (action resource : string) (response : Response)
    (records : list Audit.AuditLog) : Prop :=
  if status response =? 200 then
    exists entry, records = [entry]
      /\ carries entry (auditIdentity rt request) action resource Audit.success
  else if (status response =? 401) || (status response =? 404)
          || (status response =? 502) then
    exists entry, records = [entry]
      /\ carries entry (auditIdentity rt request) action resource Audit.failure
  else if status response =? 429 then
    authenticated rt request ->
    exists entry, records = [entry]
      /\ carries entry (auditIdentity rt request) action resource Audit.failure
      /\ Audit.details entry = Some (Audit.reason "rate_limited")
  else True.

End Server.

(** ** Reference codecs

    Executable stand-ins for the platform's Base64 and JSON functions,
    used to run the model on concrete inputs. *)

Module Codec.

Definition alphabet : list ascii :=
  list_ascii_of_string
    "ABCDEFGHIJKLMNOPQRSTUVWXYZabcdefghijklmnopqrstuvwxyz0123456789+/".

Definition pad : ascii := "="%char.

Definition charOfSextet (n : N) : ascii :=
  nth (N.to_nat n) alphabet pad.

Fixpoint position (c : ascii) (chars : list ascii) (from : N) : option N :=
  match chars with
  | [] => None
  | x :: rest =>
      if Ascii.eqb x c then Some from else position c rest (from + 1)%N
  end.

(** Characters outside the alphabet count as zero bits. *)
Definition sextetOfChar (c : ascii) : N := default 0%N (position c alphabet 0%N).

Definition byte (c : ascii) : N := N_of_ascii c.

Definition encode3 (a b c : ascii) : string :=
  let n := (byte a * 65536 + byte b * 256 + byte c)%N in
  String (charOfSextet (n / 262144))
 (String (charOfSextet ((n / 4096) mod 64))
 (String (charOfSextet ((n / 64) mod 64))
 (String (charOfSextet (n mod 64)) ""))).

Definition encode2 (a b : ascii) : string :=
  let n := (byte a * 65536 + byte b * 256)%N in
  String (charOfSextet (n / 262144))
 (String (charOfSextet ((n / 4096) mod 64))
 (String (charOfSextet ((n / 64) mod 64))
 (String pad ""))).

Definition encode1 (a : ascii) : string :=
  let n := (byte a * 65536)%N in
  String (charOfSextet (n / 262144))
 (String (charOfSextet ((n / 4096) mod 64))
 (String pad (String pad ""))).

(** [buf.toString("base64")] *)
Fixpoint base64_encode (bytes : string) : string :=
  match bytes with
  | String a (String b (String c rest)) => encode3 a b c +:+ base64_encode rest
  | String a (String b EmptyString) => encode2 a b
  | String a EmptyString => encode1 a
  | EmptyString => EmptyString
  end.

Definition decode4 (c1 c2 c3 c4 : ascii) : string :=
  let n := (sextetOfChar c1 * 262144 + sextetOfChar c2 * 4096
            + sextetOfChar c3 * 64 + sextetOfChar c4)%N in
  let b1 := ascii_of_N (n / 65536) in
  let b2 := ascii_of_N ((n / 256) mod 256) in
  let b3 := ascii_of_N (n mod 256) in
  if Ascii.eqb c3 pad then String b1 ""
  else if Ascii.eqb c4 pad then String b1 (String b2 "")
  else String b1 (String b2 (String b3 "")).

(** [Buffer.from(text, "base64")] on text made of whole groups of four
    characters. *)
Fixpoint base64_decode (text : string) : string :=
  match text with
  | String c1 (String c2 (String c3 (String c4 rest))) =>
      decode4 c1 c2 c3 c4 +:+ base64_decode rest
  | _ => EmptyString
  end.

Definition dquote : ascii := ascii_of_N 34.
Definition backslash : ascii := ascii_of_N 92.

(** The text of a JSON string without its quotes: quotes and
    backslashes are escaped. *)
Fixpoint escape (s : string) : string :=
  match s with
  | EmptyString => EmptyString
  | String c rest =>
      if Ascii.eqb c dquote || Ascii.eqb c backslash
      then String backslash (String c (escape rest))
      else String c (escape rest)
  end.

Definition quote (s : string) : string :=
  String dquote (escape s +:+ String dquote "").

(** Reads a JSON string after its opening quote; returns the string and
    what follows the closing quote. *)
Fixpoint readString (s : string) : option (string * string) :=
  match s with
  | EmptyString => None
  | String c rest =>
      if Ascii.eqb c dquote then Some (EmptyString, rest)
      else if Ascii.eqb c backslash then
        match rest with
        | String d rest' =>
            match readString rest' with
            | Some (text, after) => Some (String d text, after)
            | None => None
            end
        | EmptyString => None
        end
      else
        match readString rest with
        | Some (text, after) => Some (String c text, after)
        | None => None
        end
  end.

(** Consumes a literal; [None] when the input does not start with it. *)
Fixpoint expect (literal s : string) : option string :=
  match literal, s with
  | EmptyString, _ => Some s
  | String a literal', String b s' =>
      if Ascii.eqb a b then expect literal' s' else None
  | String _ _, EmptyString => None
  end.

Definition isDigit (c : ascii) : bool :=
  ((48 <=? N_of_ascii c) && (N_of_ascii c <=? 57))%N.

Definition digitValue (c : ascii) : Z := Z.of_N (N_of_ascii c) - 48.

Definition digitChar (d : Z) : ascii := ascii_of_N (Z.to_N (d + 48)).

(** The decimal digits of a natural number, most significant first;
    [fuel] bounds the number of digits. *)
Fixpoint digits (fuel : nat) (n : Z) (acc : string) : string :=
  match fuel with
  | O => acc
  | S fuel' =>
      let acc' := String (digitChar (n mod 10)) acc in
      if n / 10 =? 0 then acc' else digits fuel' (n / 10) acc'
  end.

Definition printNat (n : Z) : string :=
  digits (S (Z.to_nat (Z.log2 n))) n "".

Definition printZ (z : Z) : string :=
  if z <? 0 then String "-" (printNat (- z)) else printNat z.

(** Reads decimal digits; returns the number read so far and the rest. *)
Fixpoint readDigits (s : string) (acc : Z) : Z * string :=
  match s with
  | String c rest =>
      if isDigit c then readDigits rest (acc * 10 + digitValue c)
      else (acc, s)
  | EmptyString => (acc, s)
  end.

Definition readZ (s : string) : option (Z * string) :=
  match s with
  | String c rest =>
      if Ascii.eqb c "-" then
        match rest with
        | String d _ =>
            if isDigit d then
              let '(n, after) := readDigits rest 0 in Some (- n, after)
            else None
        | EmptyString => None
        end
      else if isDigit c then Some (readDigits s 0)
      else None
  | EmptyString => None
  end.

(** What may follow a number: nothing, or a character that is not a
    digit. *)
Definition ends_number (rest : string) : Prop :=
  match rest with
  | EmptyString => True
  | String c _ => isDigit c = false
  end.

Definition key (name : string) : string := quote name +:+ ":".

(** [JSON.stringify(entry)] *)
Definition json_stringify (e : Cache.CacheEntry) : string :=
  "{" +:+ key "data" +:+ quote (Cache.data e)
  +:+ "," +:+ key "checksum" +:+ quote (Cache.checksum e)
  +:+ "," +:+ key "timestamp" +:+ printZ (Cache.timestamp e)
  +:+ "," +:+ key "ttl" +:+ printZ (Cache.ttl e) +:+ "}".

(** [JSON.parse(content) as CacheEntry] for the layout written by
    [json_stringify]; anything else counts as a failure. *)
Definition json_parse (content : string) : option Cache.CacheEntry :=
  s ← expect ("{" +:+ key "data" +:+ String dquote "") content;
  '(data, s) ← readString s;
  s ← expect ("," +:+ key "checksum" +:+ String dquote "") s;
  '(checksum, s) ← readString s;
  s ← expect ("," +:+ key "timestamp") s;
  '(timestamp, s) ← readZ s;
  s ← expect ("," +:+ key "ttl") s;
  '(ttl, s) ← readZ s;
  if String.eqb s "}" then Some (Cache.mkEntry data checksum timestamp ttl)
  else None.

(** A stand-in digest: not SHA-256, only a fixed function of the
    bytes. *)
Definition digest (bytes : string) : string :=
  printNat (fold_left (fun h c => (h * 31 + Z.of_N (N_of_ascii c)) mod 4294967296)
                      (list_ascii_of_string bytes) 7).

End Codec.

(** ** A sample deployment

    Concrete collaborators on which the routes can be run: release
    source, dispatcher, clock and disk. *)

Module Sample.

Definition cacheManager : Cache.CacheManager :=
  Cache.mkCache "/var/cache/gitgate" 3600.

(** Dotted quads of small numbers count as IPv4 addresses. *)
Definition isIP (s : string) : Z :=
  let octet := Regex.Plus (Regex.Class Regex.digit) in
  let dot := Regex.Class (Regex.chr ".") in
  if Regex.test
       (Regex.Cat octet (Regex.Cat dot (Regex.Cat octet (Regex.Cat dot
          (Regex.Cat octet (Regex.Cat dot octet)))))) s
  then 4 else 0.

(** Only https URLs without credentials parse. *)
Definition parseURL (s : string) : option Validation.URL :=
  if JS.startsWith "https://" s
  then Some (Validation.mkURL "https:" "" "" (JS.sliceFrom 8 s) s s)
  else None.

Definition release : GitHub.Release :=
  GitHub.mkRelease "v1.0.0" [GitHub.mkAsset 7 "tool.tar.gz"].

(** The dispatcher of the sample: the header x-device-id names the
    device; without it nobody is authenticated. *)
Definition authenticateDevice (method : string) (headers : Validation.Headers)
    : Outcome (option DeviceContext) :=
  match Validation.validateDeviceId (Validation.getHeader headers "x-device-id") with
  | Some id => Returned (Some (mkDevice id None None method "0.0.0.0" 0))
  | None => Returned None
  end.

Definition runtime : Server.Runtime :=
  Server.mkRuntime
    (fun n => 1000 + Z.of_nat n)
    (fun _ => true)
    "/srv/gitgate"
    Codec.digest Codec.base64_encode Codec.base64_decode
    Codec.json_stringify Codec.json_parse
    isIP
    (fun releases => "[releases]")
    (fun _ => true)
    (fun key bytes => Some (Codec.digest (key +:+ bytes)))
    (fun owner repo tag =>
       if String.eqb tag "v1.0.0" then Some release else None)
    (fun owner repo limit =>
       if String.eqb owner "acme" then Some [release] else None)
    (fun owner repo id => Some (GitHub.IsBuffer "tool bytes"))
    authenticateDevice
    "jamf"
    cacheManager
    None.

Definition start : Server.State :=
  Server.mkState ∅ ∅ [] 0 None None None None.

(** A well-formed request without credentials, one from a known device
    and one whose owner is not a valid identifier. *)
Definition anonymousRequest : Server.Request :=
  Server.mkRequest "acme" "tool" "v1.0.0" "tool.tar.gz"
    [("X-Forwarded-For", "10.1.2.3")].

Definition deviceRequest : Server.Request :=
  Server.mkRequest "acme" "tool" "v1.0.0" "tool.tar.gz"
    [("X-Device-Id", "laptop-7"); ("X-Forwarded-For", "10.1.2.3")].

Definition malformedRequest : Server.Request :=
  Server.mkRequest "ac/me" "tool" "v1.0.0" "tool.tar.gz"
    [("X-Device-Id", "laptop-7")].

(** The same request repeated. *)
Fixpoint repeatServe (route : Server.Request -> Server.M Server.Response)
    (request : Server.Request) (n : nat) (st : Server.State)
    : list Server.Response * Server.State :=
  match n with
  | O => ([], st)
  | S n' =>
      let '(response, st') := Server.serve route request st in
      let '(responses, st'') := repeatServe route request n' st' in
      (response :: responses, st'')
  end.

(** Collaborators of the adapters: an identity API that cannot be
    reached, and the headers and configuration of well-formed calls. *)
Definition unreachable (request : Http.Request) : Http.FetchResult :=
  Http.Rejects.

Definition jamfHeaders : Validation.Headers :=
  [("x-jamf-token", "token-123"); ("x-forwarded-for", "10.1.2.3")].

Definition jamfConfig : option Jamf.Config :=
  Some (Jamf.mkConfig (Some "https://jamf.example.com/") (Some "key")
                      (Some "secret")).

Definition tailscaleHeaders : Validation.Headers :=
  [("x-tailscale-user", "ann@example.com"); ("x-tailscale-device", "laptop-7")].

End Sample.

(** ** Vocabulary for the properties of the sanitizer *)

Module Sanitized.

(** Letters, digits and the listed punctuation: a character class
    [[A-Za-z0-9...]] of the patterns. *)
Definition wordChar (punctuation : string) (c : ascii) : bool :=
  Regex.alnum c || Regex.oneOf punctuation c.

(** Every character of the string passes the test. *)
Definition all (p : ascii -> bool) (s : string) : bool :=
  forallb p (list_ascii_of_string s).

(** The character occurs in the string. *)
Definition occurs (c : ascii) (s : string) : Prop :=
  In c (list_ascii_of_string s).

(** An expression that matches nothing, by its shape. *)
Fixpoint dead (r : Regex.regex) : bool :=
  match r with
  | Regex.Void => true
  | Regex.Eps => false
  | Regex.Class _ => false
  | Regex.Cat a b => dead a || dead b
  | Regex.Alt a b => dead a && dead b
  | Regex.Star _ => false
  end.

(** Some character class of the expression accepts the character. *)
Fixpoint mentions (c : ascii) (r : Regex.regex) : bool :=
  match r with
  | Regex.Void => false
  | Regex.Eps => false
  | Regex.Class p => p c
  | Regex.Cat a b => mentions c a || mentions c b
  | Regex.Alt a b => mentions c a || mentions c b
  | Regex.Star a => mentions c a
  end.

(** A header name in lower case. *)
Definition lowerCase (name : string) : Prop := JS.toLowerCase name = name.

(** A header value as [validateHeaderValue] lets it through: not empty,
    trimmed, at most 2048 characters, without CR, LF or NUL. *)
Definition cleanValue (value : string) : Prop :=
  value <> ""
  /\ JS.trim value = value
  /\ JS.len value <= Validation.MAX_HEADER_LENGTH
  /\ Validation.hasControl value = false.

(** The headers a route works with: lower-case names other than
    [__proto__], each at most once, and clean values. *)
Definition cleanHeaders (headers : Validation.Headers) : Prop :=
  List.NoDup (map fst headers)
  /\ Forall (fun entry =>
               lowerCase (fst entry) /\ fst entry <> "__proto__"
               /\ cleanValue (snd entry))
            headers.

End Sanitized.

(** ** Vocabulary for the properties of the cache *)

Module Digest.

(** [0-9a-f] *)
Definition hexChar (c : ascii) : bool :=
  Regex.digit c || Regex.range 97 102 c.

(** What [digest("hex")] returns: hexadecimal digits, at least one. *)
Definition hex (s : string) : Prop :=
  s <> "" /\ Sanitized.all hexChar s = true.

End Digest.

(** ** Vocabulary for the properties of the rate limiter *)

Module Admission.

(** How many calls of a key are admitted along a sequence of
    [consumeInternal] calls. *)
Fixpoint admissions (limit : Z) (limits : gmap string RateLimiter.RateLimitState)
    (calls : list (string * Z)) (key : string) : Z :=
  match calls with
  | [] => 0
  | (k, now) :: rest =>
      let '(limits', verdict) :=
        RateLimiter.consumeInternal limit limits k now in
      (if String.eqb k key && RateLimiter.allowed verdict then 1 else 0)
      + admissions limit limits' rest key
  end.

(** The clock readings of the calls of a key all lie within one span
    of 60 seconds starting at [from]. *)
Definition withinOneMinute (from : Z) (calls : list (string * Z))
    (key : string) : Prop :=
  forall now, In (key, now) calls ->
    from <= now <= from + RateLimiter.window_ms.

End Admission.

(** ** Configuration (config.ts, with [interface Config] of types.ts)

    Members have the types that [interface Config] declares; a member
    that the code tests before use is optional here, [None] standing
    for a missing one (for [host], also for one that is not a string).
    The configuration object is updated in place by [validateConfig];
    the functions below return it next to their result. *)

Module Config.

(** [parseInt(s, 10)]: leading white space is skipped, an optional sign
    and the longest run of decimal digits are read; [None] is NaN. *)
Definition parseInt (s : string) : option Z :=
  let t := JS.trimStart s in
  let '(negative, body) :=
    match t with
    | String c rest =>
        if Ascii.eqb c "-" then (true, rest)
        else if Ascii.eqb c "+" then (false, rest)
        else (false, t)
    | EmptyString => (false, t)
    end in
  match body with
  | String c _ =>
      if Codec.isDigit c then
        let n := fst (Codec.readDigits body 0) in
        Some (if negative then - n else n)
      else None
  | EmptyString => None
  end.

Record GitHubSection := mkGitHub {
  token : option string;
  cache_dir : option string;
  cache_ttl_seconds : option Z
}.

Record TailscaleSection := mkTailscale {
  ts_api_key : option string
}.

Record MtlsSection := mkMtls {
  ca_cert_path : option string;
  require_client_cert : bool
}.

Record AuthSection := mkAuth {
  method : option string;
  jamf : option Jamf.Config;
  tailscale : option TailscaleSection;
  mtls : option MtlsSection
}.

Record SigningSection := mkSigning {
  signing_enabled : bool;
  private_key_path : option string
}.

Record AuditSection := mkAudit {
  audit_enabled : bool;
  log_file : option string
}.

Record CorsSection := mkCors {
  allowed_origins : option (list string);
  allow_credentials : option bool
}.

Record SecuritySection := mkSecurity {
  cors : option CorsSection
}.

(** [interface Config]; [port] is [None] when it is missing or NaN. *)
Record Config := mkConfig {
  port : option Z;
  host : option string;
  github : option GitHubSection;
  auth : option AuthSection;
  signing : option SigningSection;
  audit : option AuditSection;
  security : option SecuritySection
}.

(** [config.github?.token], [config.github?.cache_dir],
    [config.auth?.method] and the members of the method sections, of
    the audit section and of the CORS section as the code reaches
    them. *)
Definition tokenOf (c : Config) : option string := github c ≫= token.
Definition cacheDirOf (c : Config) : option string := github c ≫= cache_dir.
Definition methodOf (c : Config) : option string := auth c ≫= method.
Definition jamfOf (c : Config) : option Jamf.Config := auth c ≫= jamf.
Definition tailscaleKeyOf (c : Config) : option string :=
  (auth c ≫= tailscale) ≫= ts_api_key.
Definition caCertPathOf (c : Config) : option string :=
  (auth c ≫= mtls) ≫= ca_cert_path.
Definition logFileOf (c : Config) : option string := audit c ≫= log_file.
Definition originsOf (c : Config) : option (list string) :=
  (security c ≫= cors) ≫= allowed_origins.

(** [function parseBoolean] *)
Definition parseBoolean (value : option string) : bool :=
  if JS.falsy value then false
  else String.eqb (JS.toLowerCase (default "" value)) "true"
       || String.eqb (default "" value) "1".

(** [a || b] where [b] is a string. *)
Definition orDefault (a : option string) (b : string) : string :=
  default b (JS.orElse a None).

Section Env.

(** [process.env] *)
Variable env : string -> option string.

(** [function loadFromEnv]; [None] is null. *)
Definition loadFromEnv : option Config :=
  if forallb (fun key => negb (JS.falsy (env key)))
             ["GITHUB_TOKEN"; "AUTH_METHOD"]
  then
    let method := default "" (env "AUTH_METHOD") in
    Some (mkConfig
      (parseInt (orDefault (env "GITGATE_PORT") "3000"))
      (Some (orDefault (env "GITGATE_HOST") "0.0.0.0"))
      (Some (mkGitHub
               (env "GITHUB_TOKEN")
               (Some (orDefault (env "GITHUB_CACHE_DIR") "./cache"))
               (parseInt (orDefault (env "GITHUB_CACHE_TTL_SECONDS") "3600"))))
      (Some (mkAuth
               (env "AUTH_METHOD")
               (if String.eqb method "jamf"
                then Some (Jamf.mkConfig
                             (Some (orDefault (env "JAMF_API_URL") ""))
                             (Some (orDefault (env "JAMF_API_KEY") ""))
                             (Some (orDefault (env "JAMF_API_SECRET") "")))
                else None)
               (if String.eqb method "tailscale"
                then Some (mkTailscale
                             (Some (orDefault (env "TAILSCALE_API_KEY") "")))
                else None)
               (if String.eqb method "mtls"
                then Some (mkMtls
                             (Some (orDefault (env "MTLS_CA_CERT_PATH") ""))
                             (parseBoolean
                                (Some (orDefault
                                         (env "MTLS_REQUIRE_CLIENT_CERT")
                                         "true"))))
                else None)))
      (if JS.falsy (env "SIGNING_ENABLED") then None
       else Some (mkSigning (parseBoolean (env "SIGNING_ENABLED"))
                            (env "SIGNING_PRIVATE_KEY_PATH")))
      (if JS.falsy (env "AUDIT_ENABLED") then None
       else Some (mkAudit (parseBoolean (env "AUDIT_ENABLED"))
                          (env "AUDIT_LOG_FILE")))
      None)
  else None.

End Env.

(** In-place updates made by [validateConfig]. *)
Definition set_cache_dir (dir : string) (c : Config) : Config :=
  mkConfig (port c) (host c)
    ((fun g => mkGitHub (token g) (Some dir) (cache_ttl_seconds g))
       <$> github c)
    (auth c) (signing c) (audit c) (security c).

Definition set_jamf_url (url : string) (c : Config) : Config :=
  mkConfig (port c) (host c) (github c)
    ((fun a =>
        mkAuth (method a)
          ((fun j => Jamf.mkConfig (Some url) (Jamf.api_key j)
                                   (Jamf.api_secret j)) <$> jamf a)
          (tailscale a) (mtls a)) <$> auth c)
    (signing c) (audit c) (security c).

Definition set_ca_cert_path (path : string) (c : Config) : Config :=
  mkConfig (port c) (host c) (github c)
    ((fun a =>
        mkAuth (method a) (jamf a) (tailscale a)
          ((fun m => mkMtls (Some path) (require_client_cert m)) <$> mtls a))
       <$> auth c)
    (signing c) (audit c) (security c).

Definition set_private_key_path (path : string) (c : Config) : Config :=
  mkConfig (port c) (host c) (github c) (auth c)
    ((fun s => mkSigning (signing_enabled s) (Some path)) <$> signing c)
    (audit c) (security c).

Definition set_log_file (path : string) (c : Config) : Config :=
  mkConfig (port c) (host c) (github c) (auth c) (signing c)
    ((fun a => mkAudit (audit_enabled a) (Some path)) <$> audit c)
    (security c).

Definition set_allowed_origins (origins : list string) (c : Config) : Config :=
  mkConfig (port c) (host c) (github c) (auth c) (signing c) (audit c)
    ((fun s =>
        mkSecurity
          ((fun o => mkCors (Some origins) (allow_credentials o)) <$> cors s))
       <$> security c).

(** One check of [validateConfig]: it throws a [ConfigError] with a
    message, or goes on with the configuration it may have updated. *)
Definition Step : Type := Config -> option string * Config.

Definition andThen (first next : Step) : Step :=
  fun c =>
    match first c with
    | (Some message, c') => (Some message, c')
    | (None, c') => next c'
    end.

Definition require (ok : Config -> bool) (message : string) : Step :=
  fun c => if ok c then (None, c) else (Some message, c).

Definition done : Step := fun c => (None, c).

(** The method named by the configuration is [name]. *)
Definition methodIs (name : string) (c : Config) : bool :=
  match methodOf c with
  | Some m => String.eqb m name
  | None => false
  end.

Section Validate.

(** [process.cwd()] and [new URL(s)]. *)
Variable cwd : string.
Variable parseURL : string -> option Validation.URL.

(** A path member is replaced by what [resolveSafePath] makes of it;
    null gives the error. *)
Definition resolvePath (path : string) (message : string)
    (update : string -> Config -> Config) : Step :=
  fun c =>
    match Validation.resolveSafePath cwd cwd path with
    | None => (Some message, c)
    | Some resolved => (None, update resolved c)
    end.

Definition checkPort : Step :=
  require
    (fun c =>
       match port c with
       | Some p => negb (p =? 0) && negb (p <? 1) && negb (p >? 65535)
       | None => false
       end)
    "Invalid port number".

Definition checkHost : Step :=
  require (fun c => negb (JS.falsy (host c))) "Invalid host value".

Definition checkToken : Step :=
  require (fun c => negb (JS.falsy (tokenOf c)))
          "GitHub token is required".

Definition checkCacheDir : Step :=
  andThen
    (require (fun c => negb (JS.falsy (cacheDirOf c)))
             "Cache directory is required")
    (fun c =>
       resolvePath (default "" (cacheDirOf c))
                   "Invalid cache directory" set_cache_dir c).

Definition checkMethod : Step :=
  require (fun c => negb (JS.falsy (methodOf c)))
          "Auth method is required".

Definition checkJamf : Step :=
  fun c =>
    if methodIs "jamf" c then
      if JS.falsy (jamfOf c ≫= Jamf.api_url)
         || JS.falsy (jamfOf c ≫= Jamf.api_key)
      then (Some "Jamf configuration incomplete", c)
      else
        match Validation.validateHttpsUrl parseURL
                (jamfOf c ≫= Jamf.api_url) with
        | None => (Some "Jamf API URL must be HTTPS", c)
        | Some jamfUrl =>
            (None,
             set_jamf_url (Jamf.stripTrailingSlash (Validation.href jamfUrl)) c)
        end
    else (None, c).

Definition checkTailscale : Step :=
  fun c =>
    if methodIs "tailscale" c then
      if JS.falsy (tailscaleKeyOf c)
      then (Some "Tailscale API key not configured", c)
      else (None, c)
    else (None, c).

Definition checkMtls : Step :=
  fun c =>
    if methodIs "mtls" c then
      if JS.falsy (caCertPathOf c)
      then (Some "mTLS CA certificate path not configured", c)
      else resolvePath (default "" (caCertPathOf c))
                       "Invalid mTLS CA certificate path" set_ca_cert_path c
    else (None, c).

Definition checkSigning : Step :=
  fun c =>
    match signing c with
    | Some s =>
        if signing_enabled s && negb (JS.falsy (private_key_path s))
        then resolvePath (default "" (private_key_path s))
                         "Invalid signing key path" set_private_key_path c
        else (None, c)
    | None => (None, c)
    end.

Definition checkAudit : Step :=
  fun c =>
    if JS.falsy (logFileOf c) then (None, c)
    else resolvePath (default "" (logFileOf c)) "Invalid audit log path"
                     set_log_file c.

Definition checkOrigins : Step :=
  fun c =>
    match originsOf c with
    | Some origins =>
        (None,
         set_allowed_origins
           (List.filter
              (fun origin =>
                 match Validation.validateHttpsUrl parseURL (Some origin) with
                 | Some _ => true
                 | None => false
                 end)
              origins)
           c)
    | None => (None, c)
    end.

(** [function validateConfig]: [None] in the first component means
    that it returned true, [Some message] that it threw
    [ConfigError(message)]. *)
Definition validateConfig : Step :=
  andThen checkPort
  (andThen checkHost
  (andThen checkToken
  (andThen checkCacheDir
  (andThen checkMethod
  (andThen checkJamf
  (andThen checkTailscale
  (andThen checkMtls
  (andThen checkSigning
  (andThen checkAudit
  (andThen checkOrigins done)))))))))).

End Validate.

Section Load.

Variable cwd : string.
Variable env : string -> option string.
(** [existsSync], [readFileSync] ([None] when it throws) and
    [JSON.parse(content) as Config]: [None] when parsing throws,
    [Some None] for a document that is falsy (null, false, 0 or an empty
    string). *)
Variable existsSync : string -> bool.
Variable readFile : string -> option string.
Variable parseConfig : string -> option (option Config).

Definition notFound : string :=
  "Configuration not found. Provide GITHUB_TOKEN and AUTH_METHOD environment variables or a config.json file".

(** [function loadConfig]: the module variable [cachedConfig] is passed
    in and returned. *)
Definition loadConfig (cachedConfig : option Config)
    (configPath : option string)
    : Outcome (option Config) * option Config :=
  match cachedConfig with
  | Some cached => (Returned (Some cached), cachedConfig)
  | None =>
      match loadFromEnv env with
      | Some envConfig => (Returned (Some envConfig), Some envConfig)
      | None =>
          let inputPath :=
            default (Path.resolve cwd cwd "config.json")
              (JS.orElse (JS.orElse configPath (env "GITGATE_CONFIG")) None) in
          match Validation.resolveSafePath cwd cwd inputPath with
          | None => (Thrown notFound, None)
          | Some path =>
              if negb (existsSync path) then (Thrown notFound, None)
              else
                match readFile path ≫= parseConfig with
                | Some parsed => (Returned parsed, parsed)
                | None => (Thrown "Failed to load configuration", None)
                end
          end
      end
  end.

(** [function getConfig] *)
Definition getConfig (cachedConfig : option Config)
    : Outcome (option Config) * option Config :=
  match cachedConfig with
  | Some cached => (Returned (Some cached), cachedConfig)
  | None =>
      match loadConfig None None with
      | (Returned loaded, _) => (Returned loaded, loaded)
      | (Thrown message, cached') => (Thrown message, cached')
      end
  end.

End Load.

(** The same configuration with another Jamf secret. *)
Definition with_jamf_secret (secret : option string) (c : Config) : Config :=
  mkConfig (port c) (host c) (github c)
    ((fun a =>
        mkAuth (method a)
          ((fun j => Jamf.mkConfig (Jamf.api_url j) (Jamf.api_key j) secret)
             <$> jamf a)
          (tailscale a) (mtls a)) <$> auth c)
    (signing c) (audit c) (security c).

(** An optional path member that, when it is set and not empty, holds
    an absolute path. *)
Definition absoluteIfSet (path : option string) : Prop :=
  forall p, path = Some p -> p <> "" -> Path.isAbsolute p = true.

(** What [validateConfig] has established when it returns. *)
Definition accepted (parseURL : string -> option Validation.URL)
    (c : Config) : Prop :=
  (exists p, port c = Some p /\ 1 <= p <= 65535)
  /\ JS.falsy (host c) = false
  /\ JS.falsy (tokenOf c) = false
  /\ (exists dir, cacheDirOf c = Some dir /\ Path.isAbsolute dir = true)
  /\ JS.falsy (methodOf c) = false
  /\ (methodIs "jamf" c = true ->
      JS.falsy (jamfOf c ≫= Jamf.api_key) = false
      /\ exists url,
           jamfOf c ≫= Jamf.api_url
           = Some (Jamf.stripTrailingSlash (Validation.href url))
           /\ Validation.protocol url = "https:")
  /\ (methodIs "tailscale" c = true -> JS.falsy (tailscaleKeyOf c) = false)
  /\ (methodIs "mtls" c = true ->
      exists path, caCertPathOf c = Some path
                   /\ Path.isAbsolute path = true)
  /\ (forall s, signing c = Some s -> signing_enabled s = true ->
      absoluteIfSet (private_key_path s))
  /\ absoluteIfSet (logFileOf c)
  /\ (forall origins,
        originsOf c = Some origins ->
        Forall (fun origin =>
                  is_Some (Validation.validateHttpsUrl parseURL (Some origin)))
               origins).

(** A sample environment: the Jamf method with its URL and key but
    without a secret. *)
Definition sampleEnv (key : string) : option string :=
  if String.eqb key "GITHUB_TOKEN" then Some "ghp_token"
  else if String.eqb key "AUTH_METHOD" then Some "jamf"
  else if String.eqb key "JAMF_API_URL" then Some "https://jamf.example.com/"
  else if String.eqb key "JAMF_API_KEY" then Some "key"
  else if String.eqb key "MTLS_CA_CERT_PATH" then Some "certs/ca.pem"
  else if String.eqb key "AUDIT_ENABLED" then Some "true"
  else if String.eqb key "AUDIT_LOG_FILE" then Some "logs/audit.log"
  else None.

(** The same deployment switched to client certificates. *)
Definition sampleMtlsEnv (key : string) : option string :=
  if String.eqb key "AUTH_METHOD" then Some "mtls" else sampleEnv key.

End Config.

(** ** Sample upstream services

    An identity API and a device directory that answer, for running the
    adapters on concrete requests. *)

Module SampleUpstream.

Definition jamfFetch (request : Http.Request) : Http.FetchResult :=
  Http.Responds true
    (Some (Http.JObj
             [("device_id", Http.JStr " laptop-7 ");
              ("device_name", Http.JStr "ann-laptop");
              ("user_id", Http.JStr "ann")])).

Definition tailscaleFetch (request : Http.Request) : Http.FetchResult :=
  Http.Responds true
    (Some (Http.JObj
             [("devices",
               Http.JArr
                 [Http.JObj [("id", Http.JStr "desktop-1")];
                  Http.JObj [("id", Http.JStr "laptop-7");
                             ("name", Http.JStr "ann-laptop")]])])).

Definition jamfDevice : DeviceContext :=
  mkDevice "laptop-7" (Some "ann-laptop") (Some "ann") "jamf" "10.1.2.3" 1000.

Definition tailscaleDevice : DeviceContext :=
  mkDevice "laptop-7" (Some "ann-laptop") (Some "ann@example.com")
           "tailscale" "0.0.0.0" 1000.

End SampleUpstream.

(** ** Requests served one after the other *)

Module Run.

(** The two release routes of the application. *)
Inductive Route : Type := ListReleases | DownloadAsset.

Definition handler (rt : Server.Runtime) (route : Route)
    : Server.Request -> Server.M Server.Response :=
  match route with
  | ListReleases => Server.listReleasesRoute rt
  | DownloadAsset => Server.downloadAssetRoute rt
  end.

(** The state after a sequence of requests, each handled by its route
    and the error handler. *)
Fixpoint serveAll (rt : Server.Runtime)
    (requests : list (Route * Server.Request)) (st : Server.State)
    : Server.State :=
  match requests with
  | [] => st
  | (route, request) :: rest =>
      serveAll rt rest (Server.serve (handler rt route) request st).2
  end.

End Run.

(** * Properties *)

(** ** Reference codecs *)

Lemma sextet_roundtrip n :
  (n < 64)%N ->
  Codec.sextetOfChar (Codec.charOfSextet n) = n
  /\ Ascii.eqb (Codec.charOfSextet n) Codec.pad = false.
Proof.
  intros Hn.
  assert (Hall :
    forallb (fun k =>
               N.eqb (Codec.sextetOfChar (Codec.charOfSextet (N.of_nat k)))
                     (N.of_nat k)
               && negb (Ascii.eqb (Codec.charOfSextet (N.of_nat k)) Codec.pad))
            (seq 0 64) = true) by (vm_compute; reflexivity).
  rewrite forallb_forall in Hall.
  assert (Hin : In (N.to_nat n) (seq 0 64)) by (apply in_seq; lia).
  specialize (Hall _ Hin). rewrite N2Nat.id in Hall.
  apply andb_prop in Hall as [H1 H2].
  split; [apply N.eqb_eq; exact H1 | apply negb_true_iff; exact H2].
Qed.

Lemma byte_bound c : (Codec.byte c < 256)%N.
Proof. apply N_ascii_bounded. Qed.

Ltac divmod := zify; Z.to_euclidean_division_equations; lia.

Lemma decode_encode3 a b c :
  Codec.base64_decode (Codec.encode3 a b c) = String a (String b (String c "")).
Proof.
  unfold Codec.encode3. cbn [Codec.base64_decode append].
  pose proof (byte_bound a) as Ha. pose proof (byte_bound b) as Hb.
  pose proof (byte_bound c) as Hc.
  set (n := (Codec.byte a * 65536 + Codec.byte b * 256 + Codec.byte c)%N).
  assert (Hn : (n < 16777216)%N) by (subst n; lia).
  unfold Codec.decode4.
  destruct (sextet_roundtrip (n / 262144)) as [-> _]; [divmod|].
  destruct (sextet_roundtrip ((n / 4096) mod 64)) as [-> _]; [divmod|].
  destruct (sextet_roundtrip ((n / 64) mod 64)) as [-> ->]; [divmod|].
  destruct (sextet_roundtrip (n mod 64)) as [-> ->]; [divmod|].
  replace (n / 262144 * 262144 + (n / 4096) mod 64 * 4096
           + (n / 64) mod 64 * 64 + n mod 64)%N with n by divmod.
  replace (n / 65536)%N with (Codec.byte a) by (subst n; divmod).
  replace ((n / 256) mod 256)%N with (Codec.byte b) by (subst n; divmod).
  replace (n mod 256)%N with (Codec.byte c) by (subst n; divmod).
  unfold Codec.byte. rewrite !ascii_N_embedding. reflexivity.
Qed.

Lemma decode_encode2 a b :
  Codec.base64_decode (Codec.encode2 a b) = String a (String b "").
Proof.
  unfold Codec.encode2. cbn [Codec.base64_decode append].
  pose proof (byte_bound a) as Ha. pose proof (byte_bound b) as Hb.
  set (n := (Codec.byte a * 65536 + Codec.byte b * 256)%N).
  assert (Hn : (n < 16777216)%N) by (subst n; lia).
  unfold Codec.decode4.
  destruct (sextet_roundtrip (n / 262144)) as [-> _]; [divmod|].
  destruct (sextet_roundtrip ((n / 4096) mod 64)) as [-> _]; [divmod|].
  destruct (sextet_roundtrip ((n / 64) mod 64)) as [-> ->]; [divmod|].
  change (Ascii.eqb Codec.pad Codec.pad) with true. cbn iota.
  change (Codec.sextetOfChar Codec.pad) with 0%N.
  replace (n / 262144 * 262144 + (n / 4096) mod 64 * 4096
           + (n / 64) mod 64 * 64 + 0)%N with n by (subst n; divmod).
  replace (n / 65536)%N with (Codec.byte a) by (subst n; divmod).
  replace ((n / 256) mod 256)%N with (Codec.byte b) by (subst n; divmod).
  unfold Codec.byte. rewrite !ascii_N_embedding. reflexivity.
Qed.

Lemma decode_encode1 a :
  Codec.base64_decode (Codec.encode1 a) = String a "".
Proof.
  unfold Codec.encode1. cbn [Codec.base64_decode append].
  pose proof (byte_bound a) as Ha.
  set (n := (Codec.byte a * 65536)%N).
  unfold Codec.decode4.
  change (Ascii.eqb Codec.pad Codec.pad) with true. cbn iota.
  destruct (sextet_roundtrip (n / 262144)) as [-> _]; [subst n; divmod|].
  destruct (sextet_roundtrip ((n / 4096) mod 64)) as [-> _]; [divmod|].
  change (Codec.sextetOfChar Codec.pad) with 0%N.
  replace ((n / 262144 * 262144 + (n / 4096) mod 64 * 4096 + 0 * 64 + 0)
           / 65536)%N with (Codec.byte a) by (subst n; divmod).
  unfold Codec.byte. rewrite ascii_N_embedding. reflexivity.
Qed.

Lemma append_cons c s t : String c s +:+ t = String c (s +:+ t).
Proof. reflexivity. Qed.

Lemma append_nil t : "" +:+ t = t.
Proof. reflexivity. Qed.

Lemma append_empty_r s : s +:+ "" = s.
Proof.
  induction s as [|c s IH]; [reflexivity|].
  rewrite append_cons, IH. reflexivity.
Qed.

Lemma append_assoc s t u : (s +:+ t) +:+ u = s +:+ (t +:+ u).
Proof.
  induction s as [|c s IH]; [reflexivity|].
  rewrite !append_cons, IH. reflexivity.
Qed.

Lemma decode_group c1 c2 c3 c4 rest :
  Codec.base64_decode
    (String c1 (String c2 (String c3 (String c4 ""))) +:+ rest)
  = Codec.base64_decode (String c1 (String c2 (String c3 (String c4 ""))))
    +:+ Codec.base64_decode rest.
Proof.
  rewrite !append_cons, append_nil. cbn [Codec.base64_decode].
  rewrite append_empty_r. reflexivity.
Qed.

Lemma encode3_group a b c :
  exists c1 c2 c3 c4,
    Codec.encode3 a b c = String c1 (String c2 (String c3 (String c4 ""))).
Proof. unfold Codec.encode3. eauto. Qed.

(** The Base64 stand-ins are inverse to each other. *)
Lemma codec_base64_roundtrip bytes :
  Codec.base64_decode (Codec.base64_encode bytes) = bytes.
Proof.
  assert (Hgen : forall (n : nat) s,
            (String.length s <= n)%nat ->
            Codec.base64_decode (Codec.base64_encode s) = s).
  { induction n as [|n IH]; intros s Hlen.
    - destruct s; [reflexivity | simpl in Hlen; lia].
    - destruct s as [|a [|b [|c rest]]].
      + reflexivity.
      + apply decode_encode1.
      + apply decode_encode2.
      + cbn [Codec.base64_encode].
        pose proof (decode_encode3 a b c) as H3.
        destruct (encode3_group a b c) as (c1 & c2 & c3 & c4 & Heq).
        rewrite Heq in *. rewrite decode_group, H3.
        rewrite IH by (simpl in Hlen; lia). reflexivity. }
  apply (Hgen (String.length bytes)). lia.
Qed.

Lemma expect_append literal rest :
  Codec.expect literal (literal +:+ rest) = Some rest.
Proof.
  induction literal as [|c literal IH]; [destruct rest; reflexivity|].
  rewrite append_cons. cbn [Codec.expect]. rewrite Ascii.eqb_refl. exact IH.
Qed.

Lemma readString_escape s rest :
  Codec.readString (Codec.escape s +:+ String Codec.dquote rest)
  = Some (s, rest).
Proof.
  induction s as [|c s IH].
  - rewrite append_nil. cbn [Codec.readString]. rewrite Ascii.eqb_refl.
    reflexivity.
  - cbn [Codec.escape].
    destruct (Ascii.eqb c Codec.dquote) eqn:Hq; cbn [orb].
    + rewrite !append_cons. cbn [Codec.readString].
      change (Ascii.eqb Codec.backslash Codec.dquote) with false.
      rewrite Ascii.eqb_refl. cbn iota. rewrite IH. reflexivity.
    + destruct (Ascii.eqb c Codec.backslash) eqn:Hb.
      * rewrite !append_cons. cbn [Codec.readString].
        change (Ascii.eqb Codec.backslash Codec.dquote) with false.
        rewrite Ascii.eqb_refl. cbn iota. rewrite IH. reflexivity.
      * rewrite append_cons. cbn [Codec.readString].
        rewrite Hq, Hb, IH. reflexivity.
Qed.

Lemma digitChar_digit d :
  0 <= d < 10 ->
  Codec.isDigit (Codec.digitChar d) = true
  /\ Codec.digitValue (Codec.digitChar d) = d.
Proof.
  intros Hd.
  assert (Hcases : d = 0 \/ d = 1 \/ d = 2 \/ d = 3 \/ d = 4 \/ d = 5
                   \/ d = 6 \/ d = 7 \/ d = 8 \/ d = 9) by lia.
  repeat (destruct Hcases as [-> | Hcases]; [split; reflexivity|]).
  subst d. split; reflexivity.
Qed.

Lemma digits_append fuel : forall n acc rest,
  Codec.digits fuel n acc +:+ rest = Codec.digits fuel n (acc +:+ rest).
Proof.
  induction fuel as [|fuel IH]; intros n acc rest; cbn [Codec.digits].
  - reflexivity.
  - destruct (n / 10 =? 0); [apply append_cons|].
    rewrite IH, append_cons. reflexivity.
Qed.

Lemma readDigits_cons d acc a :
  0 <= d < 10 ->
  Codec.readDigits (String (Codec.digitChar d) acc) a
  = Codec.readDigits acc (a * 10 + d).
Proof.
  intros Hd. destruct (digitChar_digit d Hd) as [Hdigit Hvalue].
  cbn [Codec.readDigits]. rewrite Hdigit, Hvalue. reflexivity.
Qed.

Lemma readDigits_digits fuel : forall n acc,
  0 <= n < 10 ^ Z.of_nat (S fuel) ->
  Codec.readDigits (Codec.digits (S fuel) n acc) 0 = Codec.readDigits acc n.
Proof.
  induction fuel as [|fuel IH]; intros n acc Hn.
  - change (10 ^ Z.of_nat 1) with 10 in Hn. cbn [Codec.digits].
    replace (n / 10 =? 0) with true by (symmetry; apply Z.eqb_eq; divmod).
    rewrite readDigits_cons by (apply Z.mod_pos_bound; lia).
    f_equal. divmod.
  - change (Codec.digits (S (S fuel)) n acc) with
      (if n / 10 =? 0 then String (Codec.digitChar (n mod 10)) acc
       else Codec.digits (S fuel) (n / 10)
              (String (Codec.digitChar (n mod 10)) acc)).
    destruct (n / 10 =? 0) eqn:Hsmall.
    + apply Z.eqb_eq in Hsmall.
      rewrite readDigits_cons by (apply Z.mod_pos_bound; lia).
      f_equal. divmod.
    + rewrite IH.
      * rewrite readDigits_cons by (apply Z.mod_pos_bound; lia).
        f_equal. divmod.
      * rewrite (Nat2Z.inj_succ (S fuel)), Z.pow_succ_r in Hn by lia.
        divmod.
Qed.

Lemma digits_head fuel : forall n acc,
  0 <= n ->
  exists c s,
    Codec.digits (S fuel) n acc = String c s /\ Codec.isDigit c = true.
Proof.
  induction fuel as [|fuel IH]; intros n acc Hn.
  - cbn [Codec.digits]. exists (Codec.digitChar (n mod 10)), acc.
    split; [destruct (n / 10 =? 0); reflexivity|].
    apply digitChar_digit, Z.mod_pos_bound. lia.
  - change (Codec.digits (S (S fuel)) n acc) with
      (if n / 10 =? 0 then String (Codec.digitChar (n mod 10)) acc
       else Codec.digits (S fuel) (n / 10)
              (String (Codec.digitChar (n mod 10)) acc)).
    destruct (n / 10 =? 0).
    + exists (Codec.digitChar (n mod 10)), acc. split; [reflexivity|].
      apply digitChar_digit, Z.mod_pos_bound. lia.
    + apply IH. apply Z.div_pos; lia.
Qed.

Lemma readDigits_stop rest a :
  Codec.ends_number rest -> Codec.readDigits rest a = (a, rest).
Proof.
  destruct rest as [|c rest]; [reflexivity|].
  intros Hc. cbn in Hc. cbn [Codec.readDigits]. rewrite Hc. reflexivity.
Qed.

Lemma readDigits_printNat n rest :
  0 <= n -> Codec.ends_number rest ->
  Codec.readDigits (Codec.printNat n +:+ rest) 0 = (n, rest).
Proof.
  intros Hn Hrest. unfold Codec.printNat.
  rewrite digits_append, append_nil, readDigits_digits.
  - apply readDigits_stop. exact Hrest.
  - rewrite Nat2Z.inj_succ, Z2Nat.id by apply Z.log2_nonneg.
    split; [lia|].
    destruct (Z.eq_dec n 0) as [->|Hpos]; [reflexivity|].
    pose proof (Z.log2_spec n ltac:(lia)) as [_ Hup].
    eapply Z.lt_le_trans; [exact Hup|].
    apply Z.pow_le_mono_l. lia.
Qed.

Lemma readZ_printZ z rest :
  Codec.ends_number rest -> Codec.readZ (Codec.printZ z +:+ rest) = Some (z, rest).
Proof.
  intros Hrest. unfold Codec.printZ.
  destruct (z <? 0) eqn:Hneg;
    [apply Z.ltb_lt in Hneg | apply Z.ltb_ge in Hneg].
  - rewrite append_cons. cbn [Codec.readZ].
    change (Ascii.eqb "-" "-") with true. cbn iota.
    pose proof (readDigits_printNat (- z) rest ltac:(lia) Hrest) as Hread.
    unfold Codec.printNat in *.
    destruct (digits_head (Z.to_nat (Z.log2 (- z))) (- z) "" ltac:(lia))
      as (c & s & Heq & Hdigit).
    rewrite Heq in *. rewrite append_cons in *. rewrite Hdigit, Hread.
    f_equal. f_equal. lia.
  - pose proof (readDigits_printNat z rest ltac:(lia) Hrest) as Hread.
    unfold Codec.printNat in *.
    destruct (digits_head (Z.to_nat (Z.log2 z)) z "" ltac:(lia))
      as (c & s & Heq & Hdigit).
    rewrite Heq in *. rewrite append_cons in *. cbn [Codec.readZ].
    assert (Hminus : Ascii.eqb c "-" = false).
    { destruct (Ascii.eqb c "-") eqn:E; [|reflexivity].
      apply Ascii.eqb_eq in E. subst c. discriminate Hdigit. }
    rewrite Hminus, Hdigit, Hread. reflexivity.
Qed.

Lemma quote_append s rest :
  Codec.quote s +:+ rest
  = String Codec.dquote (Codec.escape s +:+ String Codec.dquote rest).
Proof.
  unfold Codec.quote. rewrite append_cons, append_assoc, append_cons, append_nil.
  reflexivity.
Qed.

(** The JSON stand-ins: parsing what was written gives the entry
    back, and the empty file does not parse. *)
Lemma codec_json_roundtrip e :
  Codec.json_parse (Codec.json_stringify e) = Some e.
Proof.
  destruct e as [data checksum timestamp ttl].
  unfold Codec.json_stringify, Codec.json_parse. cbn [Cache.data Cache.checksum Cache.timestamp Cache.ttl].
  set (lit1 := "{" +:+ Codec.key "data" +:+ String Codec.dquote "").
  set (lit2 := "," +:+ Codec.key "checksum" +:+ String Codec.dquote "").
  set (lit3 := "," +:+ Codec.key "timestamp").
  set (lit4 := "," +:+ Codec.key "ttl").
  assert (Hshape :
    "{" +:+ Codec.key "data" +:+ Codec.quote data +:+ "," +:+
    Codec.key "checksum" +:+ Codec.quote checksum +:+ "," +:+
    Codec.key "timestamp" +:+ Codec.printZ timestamp +:+ "," +:+
    Codec.key "ttl" +:+ Codec.printZ ttl +:+ "}"
    = lit1 +:+ (Codec.escape data +:+ String Codec.dquote
        (lit2 +:+ (Codec.escape checksum +:+ String Codec.dquote
           (lit3 +:+ (Codec.printZ timestamp +:+
              (lit4 +:+ (Codec.printZ ttl +:+ "}")))))))).
  { subst lit1 lit2 lit3 lit4.
    rewrite !quote_append, !append_assoc, !append_cons, !append_nil.
    reflexivity. }
  rewrite Hshape. clear Hshape.
  rewrite expect_append. cbn [mbind option_bind].
  rewrite readString_escape. cbn [mbind option_bind].
  rewrite expect_append. cbn [mbind option_bind].
  rewrite readString_escape. cbn [mbind option_bind].
  rewrite expect_append. cbn [mbind option_bind].
  rewrite readZ_printZ by reflexivity. cbn [mbind option_bind].
  rewrite expect_append. cbn [mbind option_bind].
  rewrite readZ_printZ by reflexivity. cbn [mbind option_bind].
  reflexivity.
Qed.

Lemma codec_json_parse_empty : Codec.json_parse "" = None.
Proof. reflexivity. Qed.

(** ** Rate limiter *)

Import RateLimiter.

Lemma is_blocked_locked s now :
  0 <= now -> is_blocked s now = true <-> locked s now.
Proof.
  intros Hnow. unfold is_blocked, locked. split.
  - destruct (blocked_until s) as [b|]; [|discriminate].
    intros [_ H]%andb_prop. exists b. split; [reflexivity | lia].
  - intros (b & -> & Hb). apply andb_true_intro. split; [|lia].
    apply negb_true_iff. lia.
Qed.

Lemma is_blocked_not_locked s now :
  0 <= now -> is_blocked s now = false <-> ~ locked s now.
Proof.
  intros Hnow. rewrite <- (is_blocked_locked s now Hnow).
  destruct (is_blocked s now); split; congruence.
Qed.

Lemma consumeInternal_other limit limits k k' now :
  k <> k' -> (consumeInternal limit limits k now).1 !! k' = limits !! k'.
Proof.
  intros Hne. unfold consumeInternal.
  destruct (limits !! k) as [s|]; simpl.
  - repeat case_match; simpl; rewrite ?lookup_insert_ne; auto.
  - rewrite lookup_insert_ne; auto.
Qed.

(** C2. Every [consume] call follows the per-key state machine of the
    design, stated on the stored fields themselves: creation on first
    use; denial without any update while locked; on an expired window a
    reset to one request with the stored violation count lowered by one,
    never below zero; an increment under the limit; at the limit the
    stored violation count raised by one and a lockout of
    [min(15 min, 60 s * violation_count)] from the clock reading. A
    stored state without a violation count counts as zero violations.
    The clock is an epoch reading, hence not negative. *)
Theorem consume_state_machine limit limits key now :
  0 <= now ->
  (limits !! key = None ->
     consumeInternal limit limits key now =
       (<[key := mkState 1 (now + 60000) None (Some 0)]> limits,
        mkVerdict true (Z.max 0 (limit - 1)) (now + 60000)))
  /\ (forall window_count window_reset_at locked_until stored,
      limits !! key
      = Some (mkState window_count window_reset_at locked_until stored) ->
      let violation_count :=
        match stored with Some count => count | None => 0 end in
      (forall b, locked_until = Some b -> now < b ->
         consumeInternal limit limits key now = (limits, mkVerdict false 0 b))
      /\ ((forall b, locked_until = Some b -> b <= now) ->
          window_reset_at < now ->
          consumeInternal limit limits key now =
            (<[key := mkState 1 (now + 60000) locked_until
                         (Some (Z.max 0 (violation_count - 1)))]> limits,
             mkVerdict true (Z.max 0 (limit - 1)) (now + 60000)))
      /\ ((forall b, locked_until = Some b -> b <= now) ->
          now <= window_reset_at -> window_count < limit ->
          consumeInternal limit limits key now =
            (<[key := mkState (window_count + 1) window_reset_at locked_until
                         stored]> limits,
             mkVerdict true (Z.max 0 (limit - (window_count + 1)))
                       window_reset_at))
      /\ ((forall b, locked_until = Some b -> b <= now) ->
          now <= window_reset_at -> limit <= window_count ->
          let until :=
            now + Z.min (15 * 60 * 1000) (60000 * (violation_count + 1)) in
          consumeInternal limit limits key now =
            (<[key := mkState window_count window_reset_at (Some until)
                         (Some (violation_count + 1))]> limits,
             mkVerdict false 0 until))).
Proof.
  intros Hnow. split.
  - intros Hk. unfold consumeInternal. rewrite Hk. reflexivity.
  - intros window_count window_reset_at locked_until stored Hk violation_count.
    assert (Hcount : violations_or_zero
                       (mkState window_count window_reset_at locked_until
                                stored) = violation_count).
    { destruct stored; reflexivity. }
    assert (Hfree : (forall b, locked_until = Some b -> b <= now) ->
                    is_blocked (mkState window_count window_reset_at
                                        locked_until stored) now = false).
    { intros Hpast. unfold is_blocked. cbn [blocked_until].
      destruct locked_until as [b|]; [|reflexivity].
      specialize (Hpast b eq_refl).
      apply andb_false_iff. right. lia. }
    unfold consumeInternal. rewrite Hk, Hcount. cbn [requests reset_at
      blocked_until violations].
    split; [|split; [|split]].
    + intros b -> Hlt. unfold is_blocked. cbn [blocked_until].
      replace (negb (b =? 0) && (now <? b)) with true; [reflexivity|].
      symmetry. apply andb_true_intro. split; [apply negb_true_iff|]; lia.
    + intros Hpast Hexp. rewrite (Hfree Hpast).
      replace (now >? window_reset_at) with true by lia. reflexivity.
    + intros Hpast Hwin Hlt. rewrite (Hfree Hpast).
      replace (now >? window_reset_at) with false by lia.
      replace (window_count <? limit) with true by lia. reflexivity.
    + intros Hpast Hwin Hge. rewrite (Hfree Hpast).
      replace (now >? window_reset_at) with false by lia.
      replace (window_count <? limit) with false by lia. reflexivity.
Qed.

Lemma consume_state_machine_witness :
  let twice : gmap string RateLimitState :=
    {["dev-1" := mkState 60 61000 (Some 181000) (Some 2)]} in
  let counting : gmap string RateLimitState :=
    {["dev-1" := mkState 7 61000 None (Some 0)]} in
  let once : gmap string RateLimitState :=
    {["dev-1" := mkState 60 61000 (Some 61000) (Some 1)]} in
  let often : gmap string RateLimitState :=
    {["dev-1" := mkState 60 61000 None (Some 20)]} in
  consumeInternal 60 ∅ "dev-1" 1000 =
    (<["dev-1" := mkState 1 61000 None (Some 0)]> ∅, mkVerdict true 59 61000)
  /\ consumeInternal 60 twice "dev-1" 100000 =
       (twice, mkVerdict false 0 181000)
  /\ consumeInternal 60 twice "dev-1" 181000 =
       (<["dev-1" := mkState 1 241000 (Some 181000) (Some 1)]> twice,
        mkVerdict true 59 241000)
  /\ consumeInternal 60 counting "dev-1" 2000 =
       (<["dev-1" := mkState 8 61000 None (Some 0)]> counting,
        mkVerdict true 52 61000)
  /\ consumeInternal 60 once "dev-1" 61000 =
       (<["dev-1" := mkState 60 61000 (Some 181000) (Some 2)]> once,
        mkVerdict false 0 181000)
  /\ consumeInternal 60 often "dev-1" 1000 =
       (<["dev-1" := mkState 60 61000 (Some 901000) (Some 21)]> often,
        mkVerdict false 0 901000).
Proof.
  intros twice counting once often.
  split; [|split; [|split; [|split; [|split]]]].
  - exact (proj1 (consume_state_machine 60 ∅ "dev-1" 1000 ltac:(lia)) eq_refl).
  - destruct (proj2 (consume_state_machine 60 twice "dev-1" 100000 ltac:(lia))
                60 61000 (Some 181000) (Some 2) eq_refl) as (Hlocked & _).
    apply (Hlocked 181000 eq_refl). lia.
  - destruct (proj2 (consume_state_machine 60 twice "dev-1" 181000 ltac:(lia))
                60 61000 (Some 181000) (Some 2) eq_refl)
      as (_ & Hexpired & _).
    apply Hexpired; [intros b [= <-]; lia | lia].
  - destruct (proj2 (consume_state_machine 60 counting "dev-1" 2000
                       ltac:(lia))
                7 61000 None (Some 0) eq_refl) as (_ & _ & Hunder & _).
    apply Hunder; [intros b [=] | lia | lia].
  - destruct (proj2 (consume_state_machine 60 once "dev-1" 61000 ltac:(lia))
                60 61000 (Some 61000) (Some 1) eq_refl)
      as (_ & _ & _ & Hlimit).
    apply Hlimit; [intros b [= <-]; lia | lia | lia].
  - destruct (proj2 (consume_state_machine 60 often "dev-1" 1000 ltac:(lia))
                60 61000 None (Some 20) eq_refl) as (_ & _ & _ & Hlimit).
    apply Hlimit; [intros b [=] | lia | lia].
Defined.

(** What every stored state satisfies once the limit is positive. *)
Lemma reachable_state_ok limit limits :
  1 <= limit -> reachable limit limits ->
  forall key s, limits !! key = Some s ->
    1 <= requests s <= limit /\ 0 <= violations_or_zero s.
Proof.
  intros Hlimit Hreach. induction Hreach as [|limits k now Hreach IH].
  - intros key s Hs. rewrite lookup_empty in Hs. discriminate.
  - intros key s. destruct (decide (k = key)) as [->|Hne].
    + unfold consumeInternal.
      destruct (limits !! key) as [s0|] eqn:Hk; simpl.
      * destruct (IH _ _ Hk) as [Hreq Hviol].
        destruct (is_blocked s0 now); simpl.
        { rewrite Hk. intros [= <-]. auto. }
        destruct (now >? reset_at s0); simpl.
        { rewrite lookup_insert_eq. intros [= <-]. simpl.
          unfold violations_or_zero. simpl. lia. }
        destruct (requests s0 <? limit) eqn:Hlt; simpl;
          rewrite lookup_insert_eq; intros [= <-]; simpl;
          unfold violations_or_zero in *; simpl; lia.
      * rewrite lookup_insert_eq. intros [= <-]. simpl.
        unfold violations_or_zero. simpl. lia.
    + rewrite consumeInternal_other by assumption. apply IH.
Qed.

(** C9. In every reachable mapping, for a positive configured limit
    (the server constructs the limiter with 60), the stored request count
    of a key never exceeds the limit, in particular while the key is not
    locked; and whenever a call writes [blocked_until], the value written
    lies strictly after the clock reading of that call. *)
Theorem limiter_invariant limit limits :
  1 <= limit -> reachable limit limits ->
  (forall key s now,
     limits !! key = Some s -> is_blocked s now = false ->
     requests s <= limit)
  /\ (forall key now s',
        (consumeInternal limit limits key now).1 !! key = Some s' ->
        blocked_until s' <> (limits !! key ≫= blocked_until) ->
        exists b, blocked_until s' = Some b /\ now < b).
Proof.
  intros Hlimit Hreach. split.
  - intros key s now Hs _.
    destruct (reachable_state_ok limit limits Hlimit Hreach key s Hs). lia.
  - intros key now s'.
    pose proof (reachable_state_ok limit limits Hlimit Hreach key) as Hok.
    unfold consumeInternal.
    destruct (limits !! key) as [s0|] eqn:Hk; simpl.
    + destruct (Hok s0 eq_refl) as [_ Hviol].
      destruct (is_blocked s0 now); simpl.
      { rewrite Hk. intros [= <-] Hneq. congruence. }
      destruct (now >? reset_at s0); simpl.
      { rewrite lookup_insert_eq. intros [= <-] Hneq. simpl in Hneq. congruence. }
      destruct (requests s0 <? limit); simpl;
        rewrite lookup_insert_eq; intros [= <-] Hneq; simpl in *.
      { congruence. }
      eexists. split; [reflexivity|].
      unfold blockMs, max_block_ms, window_ms. lia.
    + rewrite lookup_insert_eq. intros [= <-] Hneq. simpl in Hneq. congruence.
Qed.

Lemma run_reachable limit calls : forall limits,
  reachable limit limits -> reachable limit (run limit limits calls).1.
Proof.
  induction calls as [|[k now] rest IH]; intros limits Hr; simpl.
  - assumption.
  - pose proof (reach_step limit limits k now Hr) as Hstep.
    destruct (consumeInternal limit limits k now) as [limits' r] eqn:Hc.
    specialize (IH limits' Hstep).
    destruct (run limit limits' rest) as [limits'' rs]. exact IH.
Qed.

Lemma limiter_invariant_witness :
  requests (mkState 60 61000 None (Some 0)) <= 60
  /\ exists b,
       blocked_until (mkState 60 61000 (Some 62000) (Some 1)) = Some b
       /\ 2000 < b.
Proof.
  destruct (limiter_invariant 60 (run 60 ∅ (removelast burst_calls)).1
              ltac:(lia)) as [Hcount Hset].
  - apply run_reachable. constructor.
  - split.
    + apply (Hcount "dev-1" (mkState 60 61000 None (Some 0)) 2000).
      * vm_compute. reflexivity.
      * reflexivity.
    + apply (Hset "dev-1" 2000 (mkState 60 61000 (Some 62000) (Some 1))).
      * vm_compute. reflexivity.
      * vm_compute. discriminate.
Defined.

(** C10. While a key's lockout is still running but its window has
    already ended, [getRemainingRequests] reports the full limit,
    because it tests window expiry before the lockout; [consumeInternal]
    at the same instant denies with nothing remaining and changes no
    state. *)
Theorem remaining_ignores_lockout limit limits key s b now :
  0 <= now ->
  limits !! key = Some s ->
  blocked_until s = Some b -> now < b ->
  reset_at s < now ->
  getRemainingRequests limit limits key now = limit
  /\ consumeInternal limit limits key now = (limits, mkVerdict false 0 b).
Proof.
  intros Hnow Hk Hb Hlt Hexp. split.
  - unfold getRemainingRequests. rewrite Hk.
    replace (now >? reset_at s) with true by lia. reflexivity.
  - unfold consumeInternal. rewrite Hk.
    assert (Hl : is_blocked s now = true).
    { apply is_blocked_locked; [assumption | exists b; auto]. }
    rewrite Hl, Hb. reflexivity.
Qed.

Lemma remaining_ignores_lockout_witness :
  let limits := (run 60 ∅ burst_calls).1 in
  getRemainingRequests 60 limits "dev-1" 61500 = 60
  /\ consumeInternal 60 limits "dev-1" 61500 = (limits, mkVerdict false 0 62000).
Proof.
  apply (remaining_ignores_lockout 60 (run 60 ∅ burst_calls).1 "dev-1"
           (mkState 60 61000 (Some 62000) (Some 1)) 62000 61500);
    [lia | vm_compute; reflexivity | reflexivity | lia | simpl; lia].
Defined.

(** Calls of one key that stay inside its window and under the limit
    are all admitted and only count up. *)
Lemma run_under_limit limit key ts : forall limits s,
  limits !! key = Some s ->
  blocked_until s = None ->
  (forall t, In t ts -> t <= reset_at s) ->
  requests s + Z.of_nat (length ts) <= limit ->
  (run limit limits (map (pair key) ts)).1 !! key =
    Some (mkState (requests s + Z.of_nat (length ts)) (reset_at s) None
                  (violations s))
  /\ Forall (fun v => allowed v = true) (run limit limits (map (pair key) ts)).2
  /\ length (run limit limits (map (pair key) ts)).2 = length ts.
Proof.
  induction ts as [|t ts IH]; intros limits s Hk Hb Hwin Hcount.
  - simpl. rewrite Hk. destruct s; simpl in *; subst.
    repeat split; [f_equal; f_equal; lia | constructor].
  - cbn [map run length] in *.
    assert (Ht : t <= reset_at s) by (apply Hwin; left; reflexivity).
    unfold consumeInternal at 1 2 3. rewrite Hk.
    unfold is_blocked. rewrite Hb.
    replace (t >? reset_at s) with false by lia.
    replace (requests s <? limit) with true by lia.
    set (s1 := mkState (requests s + 1) (reset_at s) None (violations s)).
    set (limits1 := <[key := s1]> limits).
    destruct (IH limits1 s1) as (Hst & Hall & Hlen).
    + apply lookup_insert_eq.
    + reflexivity.
    + intros t' Hin. apply Hwin. right. exact Hin.
    + simpl. lia.
    + destruct (run limit limits1 (map (pair key) ts)) as [limits2 vs].
      simpl in *. rewrite Hst. repeat split.
      * f_equal. f_equal. lia.
      * constructor; [reflexivity | assumption].
      * lia.
Qed.

Lemma violations_or_zero_mk r t b v :
  violations_or_zero (mkState r t b (Some v)) = v.
Proof. reflexivity. Qed.

Lemma run_app limit calls1 calls2 : forall limits,
  run limit limits (calls1 ++ calls2) =
    let '(limits1, vs1) := run limit limits calls1 in
    let '(limits2, vs2) := run limit limits1 calls2 in
    (limits2, vs1 ++ vs2).
Proof.
  induction calls1 as [|[k now] rest IH]; intros limits; simpl.
  - destruct (run limit limits calls2). reflexivity.
  - destruct (consumeInternal limit limits k now) as [limits' r].
    rewrite IH. destruct (run limit limits' rest) as [limits1 vs1].
    destruct (run limit limits1 calls2). reflexivity.
Qed.

(** What the limiter does around a violation, call by call: with
    limit 60 the 61st call of a new key inside one window is denied with
    nothing remaining; a violation locks the key for
    [min(15 min, 60 s * violation_count)], so a second violation counted
    before any window reset would be locked for longer; a window reset
    lowers the stored violation count by one, never below zero. *)
Lemma lockout_escalation :
  (forall limits key t0 ts t61,
     limits !! key = None ->
     length ts = 59%nat ->
     (forall t, In t ts -> t <= t0 + 60000) -> t61 <= t0 + 60000 ->
     exists vs v,
       (run 60 limits ((key, t0) :: map (pair key) ts ++ [(key, t61)])).2
         = vs ++ [v]
       /\ length vs = 60%nat
       /\ Forall (fun r => allowed r = true) vs
       /\ allowed v = false /\ remaining v = 0)
  /\ (forall limits key s now,
        0 <= now -> limits !! key = Some s ->
        ~ locked s now -> now <= reset_at s -> 60 <= requests s ->
        0 <= violations_or_zero s ->
        let d1 := v_reset_at (consumeInternal 60 limits key now).2 - now in
        allowed (consumeInternal 60 limits key now).2 = false
        /\ d1 = Z.min (15 * 60 * 1000) (60000 * (violations_or_zero s + 1))
        /\ forall s1 now2,
             0 <= now2 ->
             (consumeInternal 60 limits key now).1 !! key = Some s1 ->
             ~ locked s1 now2 -> now2 <= reset_at s1 ->
             let next :=
               (consumeInternal 60 (consumeInternal 60 limits key now).1
                                key now2).2 in
             let d2 := v_reset_at next - now2 in
             allowed next = false
             /\ d2 <= 15 * 60 * 1000
             /\ (d1 < d2 \/ d2 = 15 * 60 * 1000))
  /\ (forall limits key s now,
        0 <= now -> limits !! key = Some s ->
        ~ locked s now -> reset_at s < now ->
        exists s',
          (consumeInternal 60 limits key now).1 !! key = Some s'
          /\ violations s' = Some (Z.max 0 (violations_or_zero s - 1))
          /\ requests s' = 1).
Proof.
  split; [|split].
  - intros limits key t0 ts t61 Hk Hlen Hwin H61.
    cbn [run app]. unfold consumeInternal at 1. rewrite Hk.
    set (s1 := mkState 1 (t0 + window_ms) None (Some 0)).
    set (limits1 := <[key := s1]> limits).
    rewrite run_app.
    destruct (run_under_limit 60 key ts limits1 s1) as (Hst & Hall & Hl).
    { apply lookup_insert_eq. }
    { reflexivity. }
    { exact Hwin. }
    { simpl. lia. }
    destruct (run 60 limits1 (map (pair key) ts)) as [limits2 vs].
    simpl in Hst, Hall, Hl. cbn [run]. unfold consumeInternal. rewrite Hst.
    unfold is_blocked. simpl.
    replace (t61 >? t0 + window_ms) with false by (unfold window_ms; lia).
    replace (1 + Z.of_nat (length ts) <? 60) with false by lia.
    simpl.
    exists (mkVerdict true (Z.max 0 (60 - 1)) (t0 + window_ms) :: vs).
    eexists. split; [reflexivity|]. simpl. repeat split.
    + lia.
    + constructor; [reflexivity | assumption].
  - intros limits key s now Hnow Hk Hl%is_blocked_not_locked Hwin Hreq Hv;
      [|assumption].
    assert (Hstep : consumeInternal 60 limits key now =
              (<[key := mkState (requests s) (reset_at s)
                          (Some (now + blockMs (violations_or_zero s + 1)))
                          (Some (violations_or_zero s + 1))]> limits,
               mkVerdict false 0 (now + blockMs (violations_or_zero s + 1)))).
    { unfold consumeInternal. rewrite Hk, Hl.
      replace (now >? reset_at s) with false by lia.
      replace (requests s <? 60) with false by lia. reflexivity. }
    rewrite Hstep. cbn [fst snd allowed v_reset_at].
    split; [reflexivity|].
    split; [unfold blockMs, max_block_ms, window_ms; lia|].
    intros s1 now2 Hnow2. rewrite lookup_insert_eq. intros [= <-].
    intros Hl2%is_blocked_not_locked Hwin2; [|assumption].
    unfold consumeInternal. rewrite lookup_insert_eq, Hl2.
    cbn [reset_at requests] in *.
    replace (now2 >? reset_at s) with false by lia.
    replace (requests s <? 60) with false by lia.
    cbn [fst snd allowed v_reset_at].
    rewrite !violations_or_zero_mk.
    split; [reflexivity|].
    unfold blockMs, max_block_ms, window_ms. lia.
  - intros limits key s now Hnow Hk Hl%is_blocked_not_locked Hexp;
      [|assumption].
    unfold consumeInternal. rewrite Hk, Hl.
    replace (now >? reset_at s) with true by lia.
    eexists. cbn. rewrite lookup_insert_eq. split; [reflexivity|].
    split; reflexivity.
Qed.

Lemma lockout_escalation_witness :
  (exists vs v,
     (run 60 ∅ (("dev-1", 1000) :: map (pair "dev-1") (replicate 59 2000)
                  ++ [("dev-1", 3000)])).2 = vs ++ [v]
     /\ length vs = 60%nat
     /\ Forall (fun r => allowed r = true) vs
     /\ allowed v = false /\ remaining v = 0)
  /\ (let limits : gmap string RateLimitState :=
        {["dev-1" := mkState 60 61000 None (Some 0)]} in
      let first := consumeInternal 60 limits "dev-1" 1000 in
      let second := consumeInternal 60 first.1 "dev-1" 61000 in
      v_reset_at first.2 - 1000 = 60000
      /\ allowed second.2 = false
      /\ (v_reset_at first.2 - 1000 < v_reset_at second.2 - 61000
          \/ v_reset_at second.2 - 61000 = 15 * 60 * 1000))
  /\ (exists s',
        (consumeInternal 60 {["dev-1" := mkState 60 61000 (Some 62000) (Some 1)]}
           "dev-1" 62001).1 !! "dev-1" = Some s'
        /\ violations s' = Some (Z.max 0 (1 - 1)) /\ requests s' = 1).
Proof.
  destruct lockout_escalation as (H61 & Hesc & Hreset).
  split; [|split].
  - apply (H61 ∅ "dev-1" 1000 (replicate 59 2000) 3000).
    + reflexivity.
    + reflexivity.
    + intros t Hin. apply list_elem_of_In, elem_of_replicate in Hin.
      destruct Hin as [-> _]. lia.
    + lia.
  - destruct (Hesc {["dev-1" := mkState 60 61000 None (Some 0)]} "dev-1"
                (mkState 60 61000 None (Some 0)) 1000)
      as (_ & Hd1 & Hnext).
    + lia.
    + reflexivity.
    + intros (b & Hb & _). discriminate Hb.
    + simpl. lia.
    + simpl. lia.
    + vm_compute. discriminate.
    + destruct (Hnext (mkState 60 61000 (Some 61000) (Some 1)) 61000)
        as (Hden & _ & Hlt).
      * lia.
      * vm_compute. reflexivity.
      * intros (b & [= <-] & Hlt). lia.
      * simpl. lia.
      * split; [exact Hd1|]. split; [exact Hden | exact Hlt].
  - apply (Hreset {["dev-1" := mkState 60 61000 (Some 62000) (Some 1)]} "dev-1"
             (mkState 60 61000 (Some 62000) (Some 1)) 62001).
    + lia.
    + reflexivity.
    + intros (b & [= <-] & Hlt). lia.
    + simpl. lia.
Defined.

(** C3. The escalation the limiter computes never takes effect: a
    device that hits the limit, sits out its lockout and hits the limit
    again starts a fresh window in between, which forgives the first
    violation, so both lockouts last one minute and the second is not
    longer than the first. *)
Theorem lockout_repeats_after_window_reset :
  lockout_durations 60 ∅ repeat_offender_calls = [60000; 60000]
  /\ ~ (forall calls, escalating (lockout_durations 60 ∅ calls)).
Proof.
  assert (Hd : lockout_durations 60 ∅ repeat_offender_calls = [60000; 60000])
    by (vm_compute; reflexivity).
  split; [exact Hd|].
  intros Hall. specialize (Hall repeat_offender_calls). rewrite Hd in Hall.
  destruct (Hall 0%nat 60000 60000 eq_refl eq_refl) as [Hlt | Hcap].
  - lia.
  - unfold max_block_ms in Hcap. lia.
Qed.

(** One call keeps every stored state settled when its clock reading
    is not before the previous one, and a lockout it hands out lasts at
    most two minutes. *)
Lemma consumeInternal_settled limit limits key now last :
  0 <= last <= now ->
  (forall k s, limits !! k = Some s -> settled s last) ->
  (forall k s, (consumeInternal limit limits key now).1 !! k = Some s ->
               settled s now)
  /\ (forall s, limits !! key = Some s -> is_blocked s now = false ->
                allowed (consumeInternal limit limits key now).2 = false ->
                v_reset_at (consumeInternal limit limits key now).2 - now
                <= 2 * window_ms).
Proof.
  intros Hclock Hall.
  assert (Hkeep : forall s, settled s last -> settled s now).
  { intros s (v & Hv & Hrange & Hwin & Htwo). exists v.
    repeat split; try assumption; try lia. }
  split.
  - intros k s. destruct (decide (key = k)) as [<-|Hne].
    + unfold consumeInternal.
      destruct (limits !! key) as [s0|] eqn:Hk.
      * destruct (Hall key s0 Hk) as (v & Hv & Hrange & Hwin & Htwo).
        destruct (is_blocked s0 now) eqn:Hblocked.
        { cbn [fst]. rewrite Hk. intros [= <-]. apply Hkeep.
          exists v. auto. }
        destruct (now >? reset_at s0) eqn:Hexp.
        { cbn [fst]. rewrite lookup_insert_eq. intros [= <-].
          exists (Z.max 0 (violations_or_zero s0 - 1)).
          unfold violations_or_zero. rewrite Hv. cbn.
          repeat split; try lia. }
        assert (Hv2 : v <> 2).
        { intros ->. destruct (Htwo eq_refl) as (b & Hb & Hpos & Hlate).
          unfold is_blocked in Hblocked. rewrite Hb in Hblocked.
          apply andb_false_iff in Hblocked as [Hzero | Hnot]; lia. }
        destruct (requests s0 <? limit).
        { cbn [fst]. rewrite lookup_insert_eq. intros [= <-].
          exists v. cbn. repeat split; try assumption; try lia. }
        cbn [fst]. rewrite lookup_insert_eq. intros [= <-].
        exists (violations_or_zero s0 + 1).
        unfold violations_or_zero. rewrite Hv. cbn.
        repeat split; try lia.
        intros Hnew. eexists. split; [reflexivity|].
        unfold blockMs, max_block_ms, window_ms in *. lia.
      * cbn [fst]. rewrite lookup_insert_eq. intros [= <-].
        exists 0. cbn. repeat split; try lia.
    + rewrite consumeInternal_other by assumption.
      intros Hs. apply Hkeep. apply (Hall k s Hs).
  - intros s Hk Hblocked. unfold consumeInternal. rewrite Hk, Hblocked.
    destruct (Hall key s Hk) as (v & Hv & Hrange & Hwin & Htwo).
    destruct (now >? reset_at s) eqn:Hexp; [discriminate|].
    destruct (requests s <? limit); [discriminate|].
    intros _. cbn [snd v_reset_at].
    assert (Hv2 : v <> 2).
    { intros ->. destruct (Htwo eq_refl) as (b & Hb & Hpos & Hlate).
      unfold is_blocked in Hblocked. rewrite Hb in Hblocked.
      apply andb_false_iff in Hblocked as [Hzero | Hnot]; lia. }
    unfold violations_or_zero. rewrite Hv. cbn.
    unfold blockMs, max_block_ms, window_ms. lia.
Qed.

(** With a clock that never goes back, the window of a locked-out key
    has always ended when the lockout is over, so a violation is forgiven
    before the next one is counted: no lockout ever lasts longer than two
    minutes, and the 15-minute cap is out of reach. *)
Lemma lockout_bounded_by_clock limit calls : forall limits last,
  0 <= last -> nondecreasing last calls ->
  (forall k s, limits !! k = Some s -> settled s last) ->
  Forall (fun d => d <= 2 * window_ms) (lockout_durations limit limits calls).
Proof.
  induction calls as [|[key now] rest IH]; intros limits last Hlast Hmono Hall.
  - constructor.
  - destruct Hmono as [Hle Hmono]. cbn [lockout_durations].
    destruct (consumeInternal_settled limit limits key now last
                ltac:(lia) Hall) as [Hnext Hbound].
    destruct (consumeInternal limit limits key now) as [limits' r] eqn:Hstep.
    cbn [fst snd] in *.
    specialize (IH limits' now ltac:(lia) Hmono Hnext).
    destruct (allowed r) eqn:Hallowed; cbn [negb andb]; [exact IH|].
    destruct (limits !! key) as [s|] eqn:Hk.
    + destruct (is_blocked s now) eqn:Hblocked; cbn [negb]; [exact IH|].
      constructor; [|exact IH]. apply (Hbound s eq_refl Hblocked eq_refl).
    + unfold consumeInternal in Hstep. rewrite Hk in Hstep.
      injection Hstep as _ <-. discriminate Hallowed.
Qed.

(** X13. Starting from an empty limiter and with clock readings that
    never go back, every lockout handed out along any sequence of calls,
    for any keys and any limit, lasts at most two minutes. *)
Lemma lockout_bounded_from_start limit calls :
  nondecreasing 0 calls ->
  Forall (fun d => d <= 2 * window_ms) (lockout_durations limit ∅ calls).
Proof.
  intros Hmono. apply (lockout_bounded_by_clock limit calls ∅ 0);
    [lia | exact Hmono |].
  intros k s Hs. rewrite lookup_empty in Hs. discriminate.
Qed.

(** ** Path segments *)

Lemma splitOn_cons sep s : exists piece pieces, JS.splitOn sep s = piece :: pieces.
Proof.
  destruct s as [|c s]; cbn [JS.splitOn]; [eauto|].
  destruct (sep c); [eauto|]. destruct (JS.splitOn sep s); eauto.
Qed.

Lemma splitOn_app sep x c y :
  sep c = true ->
  JS.splitOn sep (x +:+ String c y) = JS.splitOn sep x ++ JS.splitOn sep y.
Proof.
  intros Hc. induction x as [|a x IH].
  - rewrite append_nil. cbn [JS.splitOn]. rewrite Hc. reflexivity.
  - rewrite append_cons. cbn [JS.splitOn]. rewrite IH.
    destruct (sep a); [reflexivity|].
    destruct (splitOn_cons sep x) as (piece & pieces & ->). reflexivity.
Qed.

Lemma splitOn_free sep s : forall x, In x (JS.splitOn sep s) -> JS.free_of sep x.
Proof.
  induction s as [|c s IH]; intros x; cbn [JS.splitOn].
  - intros [<- | []] c' [].
  - destruct (sep c) eqn:Hc.
    + intros [<- | Hin]; [intros c' [] | apply IH; exact Hin].
    + destruct (splitOn_cons sep s) as (piece & pieces & Heq).
      rewrite Heq in *. intros [<- | Hin].
      * intros c' [<- | Hin']; [exact Hc|].
        apply (IH piece (or_introl eq_refl)). exact Hin'.
      * apply IH. right. exact Hin.
Qed.

(** A piece of a split that contains none of the separators of a finer
    split is a piece of the finer split as well. *)
Lemma splitOn_finer (coarse fine : ascii -> bool) :
  (forall c, coarse c = true -> fine c = true) ->
  forall s x, JS.free_of fine x ->
    (hd "" (JS.splitOn coarse s) = x -> hd "" (JS.splitOn fine s) = x)
    /\ (In x (tl (JS.splitOn coarse s)) -> In x (tl (JS.splitOn fine s))).
Proof.
  intros Hsub. induction s as [|c s IH]; intros x Hfree.
  - split; [auto | intros []].
  - cbn [JS.splitOn].
    destruct (splitOn_cons coarse s) as (h & t & Hcoarse).
    destruct (splitOn_cons fine s) as (h' & t' & Hfine).
    rewrite Hcoarse, Hfine in *.
    destruct (coarse c) eqn:Hc.
    + rewrite (Hsub c Hc). split; [auto|].
      cbn [tl]. intros [Hhead | Htail].
      * left. apply (proj1 (IH x Hfree)). exact Hhead.
      * right. apply (proj2 (IH x Hfree)). exact Htail.
    + destruct (fine c) eqn:Hf.
      * split.
        -- cbn [hd]. intros <-. specialize (Hfree c (or_introl eq_refl)).
           congruence.
        -- cbn [tl]. intros Htail. right.
           apply (proj2 (IH x Hfree)). exact Htail.
      * split.
        -- cbn [hd]. intros <-. f_equal.
           apply (proj1 (IH h (fun c' Hin => Hfree c' (or_intror Hin)))).
           reflexivity.
        -- cbn [tl]. intros Htail. apply (proj2 (IH x Hfree)). exact Htail.
Qed.

Lemma no_dotdot_segment trimmed seg :
  Validation.hasDotDot (Validation.rawSegments trimmed) = false ->
  In seg (JS.splitOn Path.slash trimmed) -> String.eqb seg ".." = false.
Proof.
  intros Hraw Hin. destruct (String.eqb seg "..") eqn:Heq; [|reflexivity].
  apply String.eqb_eq in Heq. subst seg. exfalso.
  assert (Hfine : In ".." (JS.splitOn
                    (fun c => Ascii.eqb c "/" || Ascii.eqb c "\") trimmed)).
  { assert (Hsub : forall c, Path.slash c = true ->
                       Ascii.eqb c "/" || Ascii.eqb c "\" = true).
    { intros c Hc. unfold Path.slash in Hc. rewrite Hc. reflexivity. }
    destruct (splitOn_finer Path.slash
                (fun c => Ascii.eqb c "/" || Ascii.eqb c "\") Hsub
                trimmed "..") as [Hhead Htail].
    { intros c [<- | [<- | []]]; reflexivity. }
    destruct (splitOn_cons Path.slash trimmed) as (h & t & Hcoarse).
    destruct (splitOn_cons (fun c => Ascii.eqb c "/" || Ascii.eqb c "\")
                trimmed) as (h' & t' & Hfine).
    rewrite Hcoarse, Hfine in *. destruct Hin as [-> | Hin].
    - left. exact (Hhead eq_refl).
    - right. exact (Htail Hin). }
  unfold Validation.hasDotDot, Validation.rawSegments, JS.filterTruthy in Hraw.
  assert (Hex : existsb (String.eqb "..")
                  (List.filter JS.truthy
                     (JS.splitOn (fun c => Ascii.eqb c "/" || Ascii.eqb c "\")
                        trimmed)) = true).
  { apply existsb_exists. exists "..". split; [|reflexivity].
    apply filter_In. split; [exact Hfine | reflexivity]. }
  congruence.
Qed.

Lemma pushSegment_plain allow acc seg :
  String.eqb seg ".." = false ->
  Path.pushSegment allow acc seg = if Path.keeps seg then seg :: acc else acc.
Proof.
  intros Hdots. unfold Path.pushSegment, Path.keeps.
  destruct (String.eqb seg "" || String.eqb seg "."); [reflexivity|].
  rewrite Hdots. reflexivity.
Qed.

Lemma fold_pushSegment_plain allow segs : forall acc,
  (forall seg, In seg segs -> String.eqb seg ".." = false) ->
  fold_left (Path.pushSegment allow) segs acc
  = rev (List.filter Path.keeps segs) ++ acc.
Proof.
  induction segs as [|seg segs IH]; intros acc Hplain; [reflexivity|].
  cbn [fold_left List.filter].
  rewrite pushSegment_plain by (apply Hplain; left; reflexivity).
  rewrite IH by (intros s Hs; apply Hplain; right; exact Hs).
  destruct (Path.keeps seg); [|reflexivity].
  cbn [rev]. rewrite <- app_assoc. reflexivity.
Qed.

(** Segments without [..] appended to a path are appended to its
    normal form. *)
Lemma normalizeSegments_app allow front back :
  (forall seg, In seg back -> String.eqb seg ".." = false) ->
  Path.normalizeSegments allow (front ++ back)
  = Path.normalizeSegments allow front ++ List.filter Path.keeps back.
Proof.
  intros Hplain. unfold Path.normalizeSegments.
  rewrite fold_left_app, fold_pushSegment_plain by exact Hplain.
  rewrite rev_app_distr, rev_involutive. reflexivity.
Qed.

Lemma splitOn_join x y :
  JS.splitOn Path.slash (x +:+ "/" +:+ y)
  = JS.splitOn Path.slash x ++ JS.splitOn Path.slash y.
Proof. apply (splitOn_app Path.slash x "/" y). reflexivity. Qed.

Lemma splitOn_trailing x :
  JS.splitOn Path.slash (x +:+ "/") = JS.splitOn Path.slash x ++ [""].
Proof. apply (splitOn_app Path.slash x "/" ""). reflexivity. Qed.

Lemma normalizeSegments_trailing allow front :
  Path.normalizeSegments allow (front ++ [""]) = Path.normalizeSegments allow front.
Proof.
  rewrite normalizeSegments_app.
  - apply app_nil_r.
  - intros seg [<- | []]. reflexivity.
Qed.

Lemma normalizeSegments_below allow front below :
  (forall seg, In seg below -> String.eqb seg ".." = false) ->
  Path.normalizeSegments allow (front ++ (below ++ [""]))
  = Path.normalizeSegments allow front ++ List.filter Path.keeps below.
Proof.
  intros Hplain. rewrite app_assoc, normalizeSegments_trailing.
  apply normalizeSegments_app. exact Hplain.
Qed.

(** Resolving a relative path without [..] segments against a base
    appends segments to the resolved base. *)
Lemma resolveParts_below cwd base t :
  Path.isAbsolute t = false -> String.eqb t "" = false ->
  (forall seg, In seg (JS.splitOn Path.slash t) -> String.eqb seg ".." = false) ->
  Path.resolveParts cwd base t
  = ((Path.resolveParts cwd "" base).1,
     (Path.resolveParts cwd "" base).2
     ++ List.filter Path.keeps (JS.splitOn Path.slash t)).
Proof.
  intros Hrel Hne Hplain. unfold Path.resolveParts.
  rewrite Hrel, Hne.
  change (Path.isAbsolute "") with false. cbn [String.eqb].
  destruct (Path.isAbsolute base) eqn:Hbase; cbn [fst snd negb].
  - f_equal. rewrite splitOn_join, splitOn_trailing.
    apply normalizeSegments_below. exact Hplain.
  - destruct (String.eqb base "") eqn:Hb, (String.eqb cwd "") eqn:Hc;
      cbn [fst snd]; f_equal.
    + rewrite splitOn_trailing.
      apply (normalizeSegments_below _ [] _ Hplain).
    + rewrite !splitOn_join, splitOn_trailing.
      change (JS.splitOn Path.slash "") with [""].
      rewrite normalizeSegments_trailing.
      apply normalizeSegments_below. exact Hplain.
    + rewrite splitOn_join, !splitOn_trailing.
      rewrite normalizeSegments_trailing.
      apply normalizeSegments_below. exact Hplain.
    + rewrite !splitOn_join, !splitOn_trailing.
      rewrite (app_assoc (JS.splitOn Path.slash cwd)
                 (JS.splitOn Path.slash base) [""]).
      rewrite normalizeSegments_trailing.
      rewrite (app_assoc (JS.splitOn Path.slash cwd)
                 (JS.splitOn Path.slash base)).
      apply normalizeSegments_below. exact Hplain.
Qed.

(** ** Path safety *)

Import Validation.

Lemma includes_char_In c s :
  JS.includes (String c "") s = true <-> In c (list_ascii_of_string s).
Proof.
  induction s as [|a s IH]; simpl.
  - split; [discriminate | tauto].
  - rewrite orb_true_iff, IH, andb_true_r. split.
    + intros [Heq%Ascii.eqb_eq | Hin]; [left; congruence | right; assumption].
    + intros [Heq | Hin]; [left; apply Ascii.eqb_eq; congruence | right; assumption].
Qed.

Lemma In_trimStart c s :
  JS.is_space c = false ->
  In c (list_ascii_of_string s) -> In c (list_ascii_of_string (JS.trimStart s)).
Proof.
  intros Hc. induction s as [|a s IH]; simpl; [tauto|].
  intros [Heq | Hin].
  - subst a. rewrite Hc. left. reflexivity.
  - destruct (JS.is_space a); [apply IH; assumption | right; assumption].
Qed.

Lemma In_trimEnd c s :
  JS.is_space c = false ->
  In c (list_ascii_of_string s) -> In c (list_ascii_of_string (JS.trimEnd s)).
Proof.
  intros Hc. induction s as [|a s IH]; simpl; [tauto|].
  intros [Heq | Hin].
  - subst a. destruct (JS.trimEnd s); [rewrite Hc|]; left; reflexivity.
  - specialize (IH Hin). destruct (JS.trimEnd s) as [|b t]; [contradiction|].
    right. exact IH.
Qed.

Lemma includes_NUL_trim s :
  JS.includes (String NUL "") s = true ->
  JS.includes (String NUL "") (JS.trim s) = true.
Proof.
  rewrite !includes_char_In. intros Hin. unfold JS.trim.
  apply In_trimEnd; [reflexivity|]. apply In_trimStart; [reflexivity|].
  exact Hin.
Qed.

(** C8 (as amended). [resolveSafePath] rejects every input that
    contains a NUL byte and every input with a [..] segment, such as
    [../../etc/passwd]; every accepted relative input, such as
    [sub/dir/file], resolves to an absolute path whose relative form from
    the base is not [..] and does not start with [../], and which
    consists of the segments of the resolved base followed by the
    segments of the input. Absolute inputs are not checked against the
    base. *)
Theorem resolveSafePath_safe cwd baseDir inputPath :
  (JS.includes (String NUL "") inputPath = true ->
     resolveSafePath cwd baseDir inputPath = None)
  /\ (hasDotDot (rawSegments (JS.trim inputPath)) = true ->
        resolveSafePath cwd baseDir inputPath = None)
  /\ resolveSafePath cwd baseDir "../../etc/passwd" = None
  /\ (forall resolved,
        resolveSafePath cwd baseDir inputPath = Some resolved ->
        Path.isAbsolute (JS.trim inputPath) = false ->
        resolved = Path.resolve cwd baseDir (JS.trim inputPath)
        /\ Path.isAbsolute resolved = true
        /\ Path.relative cwd baseDir resolved <> ".."
        /\ JS.startsWith "../" (Path.relative cwd baseDir resolved) = false
        /\ Path.under cwd baseDir resolved).
Proof.
  split; [|split; [|split]].
  - intros Hnul%includes_NUL_trim. unfold resolveSafePath.
    rewrite Hnul. destruct (_ || _); reflexivity.
  - intros Hdots. unfold resolveSafePath. rewrite Hdots.
    destruct (_ || _); [reflexivity|]. destruct (JS.includes _ _); reflexivity.
  - vm_compute. reflexivity.
  - intros resolved Hres Hrel. unfold resolveSafePath in Hres.
    rewrite Hrel in Hres. cbn [negb andb] in Hres.
    destruct (_ || _) eqn:Hlen; [discriminate|].
    destruct (JS.includes _ _); [discriminate|].
    destruct (hasDotDot _) eqn:Hdots; [discriminate|].
    destruct (negb (Path.isAbsolute _)) eqn:Habs; [discriminate|].
    destruct (String.eqb _ ".." || _) eqn:Hcheck; [discriminate|].
    injection Hres as <-.
    apply negb_false_iff in Habs.
    apply orb_false_elim in Hcheck as [Hne Hpre].
    apply orb_false_elim in Hlen as [Hlen _].
    split; [reflexivity|]. split; [exact Habs|].
    split; [intros Heq; rewrite Heq in Hne; discriminate|].
    split; [exact Hpre|].
    exists (List.filter Path.keeps (JS.splitOn Path.slash (JS.trim inputPath))).
    split.
    + apply List.Forall_forall. intros seg [Hin Hkeep]%filter_In.
      split; [exact Hkeep|]. split.
      * apply (no_dotdot_segment (JS.trim inputPath)); assumption.
      * apply (splitOn_free Path.slash (JS.trim inputPath)). exact Hin.
    + unfold Path.resolve. f_equal. apply resolveParts_below.
      * exact Hrel.
      * destruct (JS.trim inputPath); [discriminate Hlen | reflexivity].
      * intros seg. apply no_dotdot_segment. exact Hdots.
Qed.

Lemma resolveSafePath_safe_witness :
  resolveSafePath "/srv/gitgate" "/srv/gitgate" "sub/dir/file"
    = Some "/srv/gitgate/sub/dir/file"
  /\ "/srv/gitgate/sub/dir/file"
       = Path.resolve "/srv/gitgate" "/srv/gitgate" (JS.trim "sub/dir/file")
  /\ Path.isAbsolute "/srv/gitgate/sub/dir/file" = true
  /\ Path.relative "/srv/gitgate" "/srv/gitgate" "/srv/gitgate/sub/dir/file"
       <> ".."
  /\ JS.startsWith "../"
       (Path.relative "/srv/gitgate" "/srv/gitgate" "/srv/gitgate/sub/dir/file")
     = false
  /\ Path.under "/srv/gitgate" "/srv/gitgate" "/srv/gitgate/sub/dir/file".
Proof.
  split; [reflexivity|].
  apply (proj2 (proj2 (proj2
           (resolveSafePath_safe "/srv/gitgate" "/srv/gitgate" "sub/dir/file")))
           "/srv/gitgate/sub/dir/file"); reflexivity.
Defined.

(** The claim as first stated fails for absolute inputs: a path outside
    the base directory is returned, although its relative form from the
    base starts with a parent-directory traversal. *)
Lemma resolveSafePath_accepts_absolute_escape :
  resolveSafePath "/srv/gitgate" "/srv/gitgate" "/etc/passwd"
    = Some "/etc/passwd"
  /\ JS.startsWith "../"
       (Path.relative "/srv/gitgate" "/srv/gitgate" "/etc/passwd") = true.
Proof. split; reflexivity. Qed.

(** ** Cache manager *)

Section CacheFacts.
Import Cache.

Variable cwd : string.
Variable sha256_hex : string -> string.
Variable base64_encode : Buffer -> string.
Variable base64_decode : string -> Buffer.
Variable json_stringify : CacheEntry -> string.
Variable json_parse : string -> option CacheEntry.

(** What the runtime's codecs guarantee. *)
Hypothesis base64_roundtrip : forall b, base64_decode (base64_encode b) = b.
Hypothesis json_roundtrip : forall e, json_parse (json_stringify e) = Some e.
Hypothesis json_parse_empty : json_parse "" = None.

Local Abbreviation get := (get cwd sha256_hex base64_decode json_parse).
Local Abbreviation set := (set cwd sha256_hex base64_encode json_stringify).
Local Abbreviation getChecksum := (getChecksum cwd sha256_hex json_parse).
Local Abbreviation getCachePath := (getCachePath cwd sha256_hex).
Local Abbreviation written :=
  (written cwd sha256_hex base64_encode json_stringify).

(** Every file of the directory is empty or holds an entry built by
    [set]. *)
Lemma written_content files :
  written files ->
  forall path content, files !! path = Some content ->
    content = ""
    \/ exists cm payload now,
         content = json_stringify
                     (newEntry sha256_hex base64_encode cm payload now).
Proof.
  induction 1 as [|cm files key payload now write_ok _ IH
                  |cm files key write_ok _ IH]; intros path content.
  - rewrite lookup_empty. discriminate.
  - unfold Cache.set. destruct write_ok; [|apply IH].
    destruct (decide (getCachePath cm key = path)) as [<-|Hne].
    + rewrite lookup_insert_eq. intros [= <-]. right. eauto.
    + rewrite lookup_insert_ne by assumption. apply IH.
  - unfold clear. destruct (files !! _); [|apply IH].
    destruct write_ok; [|apply IH].
    destruct (decide (Cache.getCachePath cwd sha256_hex cm key = path))
      as [<-|Hne].
    + rewrite lookup_insert_eq. intros [= <-]. left. reflexivity.
    + rewrite lookup_insert_ne by assumption. apply IH.
Qed.

(** C5. A payload stored with [set] is returned by [get] for as long
    as the entry has not expired; once [now - stored_at > ttl * 1000]
    [get] answers absent although the file is still there; and for every
    directory the cache manager can have written, the checksum reported
    for a live entry is the SHA-256 digest of the bytes [get] returns,
    [set] having computed it from the payload. File operations are
    taken to succeed; a failed one makes [get] answer absent and leaves
    the directory as it was. *)
Theorem cache_roundtrip cm :
  (forall files key payload now now',
     now' - now <= ttlSeconds cm * 1000 ->
     get cm (set cm files key payload now true) key now' true = Some payload)
  /\ (forall files key payload now now',
        now' - now > ttlSeconds cm * 1000 ->
        get cm (set cm files key payload now true) key now' true = None
        /\ is_Some (set cm files key payload now true !! getCachePath cm key))
  /\ (forall files key now now' bytes digest,
        written files ->
        get cm files key now true = Some bytes ->
        getChecksum cm files key now' true = Some digest ->
        digest = sha256_hex bytes)
  /\ (forall files key payload now now',
        now' - now <= ttlSeconds cm * 1000 ->
        getChecksum cm (set cm files key payload now true) key now' true
          = Some (sha256_hex payload)).
Proof.
  repeat split.
  - intros files key payload now now' Hlive.
    unfold Cache.get, Cache.set. rewrite lookup_insert_eq. simpl.
    rewrite json_roundtrip. simpl.
    replace (now' - now >? ttlSeconds cm * 1000) with false by lia.
    rewrite base64_roundtrip. reflexivity.
  - unfold Cache.get, Cache.set. rewrite lookup_insert_eq. simpl.
    rewrite json_roundtrip. simpl.
    replace (now' - now >? ttlSeconds cm * 1000) with true by lia.
    reflexivity.
  - unfold Cache.set. rewrite lookup_insert_eq. eauto.
  - intros files key now now' bytes digest Hw.
    unfold Cache.get, Cache.getChecksum.
    destruct (files !! getCachePath cm key) as [content|] eqn:Hfile;
      [|discriminate].
    simpl.
    destruct (written_content files Hw _ _ Hfile)
      as [-> | (cm' & payload & t & ->)].
    + rewrite json_parse_empty. discriminate.
    + rewrite json_roundtrip. simpl.
      destruct (now - t >? _); [discriminate|].
      destruct (now' - t >? _); [discriminate|].
      rewrite base64_roundtrip. intros [= <-] [= <-]. reflexivity.
  - intros files key payload now now' Hlive.
    unfold Cache.getChecksum, Cache.set. rewrite lookup_insert_eq. simpl.
    rewrite json_roundtrip. simpl.
    replace (now' - now >? ttlSeconds cm * 1000) with false by lia.
    reflexivity.
Qed.

End CacheFacts.

Lemma cache_roundtrip_witness :
  let get :=
    Cache.get "/srv/gitgate" Codec.digest Codec.base64_decode Codec.json_parse
              Sample.cacheManager in
  let getChecksum :=
    Cache.getChecksum "/srv/gitgate" Codec.digest Codec.json_parse
                      Sample.cacheManager in
  let files :=
    Cache.set "/srv/gitgate" Codec.digest Codec.base64_encode
              Codec.json_stringify Sample.cacheManager ∅
              "asset:acme:tool:v1.0.0:tool.tar.gz" "tool bytes" 1000 true in
  get files "asset:acme:tool:v1.0.0:tool.tar.gz" 1000 true = Some "tool bytes"
  /\ get files "asset:acme:tool:v1.0.0:tool.tar.gz" 3601001 true = None
  /\ getChecksum files "asset:acme:tool:v1.0.0:tool.tar.gz" 2000 true
     = Some (Codec.digest "tool bytes")
  /\ (forall digest,
        getChecksum files "asset:acme:tool:v1.0.0:tool.tar.gz" 2000 true
          = Some digest ->
        digest = Codec.digest "tool bytes").
Proof.
  intros get getChecksum files.
  destruct (cache_roundtrip "/srv/gitgate" Codec.digest Codec.base64_encode
              Codec.base64_decode Codec.json_stringify Codec.json_parse
              codec_base64_roundtrip codec_json_roundtrip
              codec_json_parse_empty Sample.cacheManager)
    as (Hfresh & Hstale & Hdigest & Hset).
  assert (Hlive : get files "asset:acme:tool:v1.0.0:tool.tar.gz" 1000 true
                  = Some "tool bytes").
  { apply (Hfresh ∅ "asset:acme:tool:v1.0.0:tool.tar.gz" "tool bytes"
             1000 1000). simpl. lia. }
  split; [exact Hlive|]. split; [|split].
  - apply (Hstale ∅ "asset:acme:tool:v1.0.0:tool.tar.gz" "tool bytes"
             1000 3601001). simpl. lia.
  - apply (Hset ∅ "asset:acme:tool:v1.0.0:tool.tar.gz" "tool bytes"
             1000 2000). simpl. lia.
  - intros digest Hsum.
    apply (Hdigest files "asset:acme:tool:v1.0.0:tool.tar.gz" 1000 2000
             "tool bytes" digest).
    + apply Cache.written_set. apply Cache.written_empty.
    + exact Hlive.
    + exact Hsum.
Defined.

(** ** Trimming *)

Lemma trimEnd_idem s : JS.trimEnd (JS.trimEnd s) = JS.trimEnd s.
Proof.
  induction s as [|c s IH]; simpl; [reflexivity|].
  destruct (JS.trimEnd s) as [|k kept] eqn:Hend.
  - destruct (JS.is_space c) eqn:Hc; simpl; [reflexivity|].
    rewrite Hc. reflexivity.
  - change (JS.trimEnd (String c (String k kept))) with
      (match JS.trimEnd (String k kept) with
       | EmptyString =>
           if JS.is_space c then EmptyString else String c EmptyString
       | kept' => String c kept'
       end).
    rewrite IH. reflexivity.
Qed.

Lemma trimStart_head s :
  JS.trimStart s = ""
  \/ exists c rest, JS.trimStart s = String c rest /\ JS.is_space c = false.
Proof.
  induction s as [|c s IH]; simpl; [left; reflexivity|].
  destruct (JS.is_space c) eqn:Hc; [exact IH | right; eauto].
Qed.

Lemma trimEnd_keeps_head c rest :
  JS.is_space c = false ->
  exists kept, JS.trimEnd (String c rest) = String c kept.
Proof.
  intros Hc. simpl. destruct (JS.trimEnd rest); [rewrite Hc|]; eauto.
Qed.

Lemma trim_idem s : JS.trim (JS.trim s) = JS.trim s.
Proof.
  unfold JS.trim.
  destruct (trimStart_head s) as [-> | (c & rest & -> & Hc)];
    [reflexivity|].
  destruct (trimEnd_keeps_head c rest Hc) as [kept Hk].
  assert (Hstart : JS.trimStart (JS.trimEnd (String c rest))
                   = JS.trimEnd (String c rest)).
  { rewrite Hk. simpl. rewrite Hc. reflexivity. }
  rewrite Hstart. apply trimEnd_idem.
Qed.

(** ** Certificate adapter *)

Import MTLS.

Lemma validateDeviceId_trim c d :
  Validation.validateDeviceId (Some c) = Some d -> d = JS.trim c.
Proof.
  unfold Validation.validateDeviceId. simpl.
  repeat (destruct (_ : bool); try discriminate).
  congruence.
Qed.

Lemma altNames_trimmed value x :
  In x (parseSubjectAltNames value) -> JS.truthy x = true /\ JS.trim x = x.
Proof.
  unfold parseSubjectAltNames. destruct (JS.falsy value); [intros []|].
  unfold JS.filterTruthy. intros [Hin Ht]%filter_In. split; [exact Ht|].
  apply in_map_iff in Hin as (entry & <- & _). unfold altNameValue.
  destruct (JS.indexOf ":" entry); [apply trim_idem | reflexivity].
Qed.

Lemma namePush_trimmed m key value :
  values_trimmed m -> JS.truthy value = true -> JS.trim value = value ->
  values_trimmed (namePush m key value).
Proof.
  intros Hm Ht Hv. induction m as [|[k vs] rest IH]; simpl.
  - intros key' values v [[= <- <-]|[]] [<-|[]]. auto.
  - assert (Hrest : values_trimmed rest).
    { intros k' vs' v' Hin. apply (Hm k' vs' v'). right. exact Hin. }
    destruct (String.eqb k key).
    + intros key' values v [[= <- <-]|Hin] Hv'.
      * apply in_app_or in Hv' as [Hold|[<-|[]]]; [|auto].
        apply (Hm k vs v); [left; reflexivity | exact Hold].
      * apply (Hrest key' values v Hin Hv').
    + intros key' values v [[= <- <-]|Hin] Hv'.
      * apply (Hm k vs v); [left; reflexivity | exact Hv'].
      * apply (IH Hrest key' values v Hin Hv').
Qed.

Lemma collectNames_trimmed segments : forall m m',
  values_trimmed m -> collectNames segments m = Some m' -> values_trimmed m'.
Proof.
  induction segments as [|segment rest IH]; intros m m' Hm;
    cbn [collectNames].
  - intros [= <-]. exact Hm.
  - destruct (JS.indexOf "=" segment) as [index|]; [|apply IH; exact Hm].
    set (key := JS.trim (JS.sliceTo index segment)).
    set (value := JS.trim (JS.sliceFrom (S index) segment)).
    destruct (JS.truthy key); cbn [negb orb]; [|apply IH; exact Hm].
    destruct (JS.truthy value) eqn:Hv; cbn [negb]; [|apply IH; exact Hm].
    destruct (inheritedMember key); [discriminate|].
    apply IH. apply namePush_trimmed; [exact Hm | exact Hv | apply trim_idem].
Qed.

Lemma commonName_trimmed input m cn :
  parseDistinguishedName input = Some m ->
  nameLookup m "CN" ≫= head = Some cn ->
  JS.truthy cn = true /\ JS.trim cn = cn.
Proof.
  intros Hparse Hcn.
  assert (Hm : values_trimmed m).
  { apply (collectNames_trimmed
             (scanSegments (list_ascii_of_string input) "" false []) [] m);
      [intros ? ? ? []|exact Hparse]. }
  unfold nameLookup in Hcn.
  destruct (find _ m) as [[k vs]|] eqn:Hfind; [|discriminate].
  simpl in Hcn. apply find_some in Hfind as [Hin _].
  destruct vs as [|v vs]; [discriminate|]. injection Hcn as <-.
  apply (Hm k (v :: vs) v Hin). left. reflexivity.
Qed.

Lemma in_window_check cert now :
  in_window cert now ->
  exists from to,
    notBefore cert = Some from /\ notAfter cert = Some to
    /\ (now <? from) || (now >? to) = false.
Proof.
  intros (from & to & Hf & Ht & Hrange). exists from, to.
  repeat split; [assumption | assumption | lia].
Qed.

(** The first checks of the adapter, in their order: what cannot be
    read or parsed, a certificate outside its validity window, and a
    certificate not signed by the CA all yield null, each at its own
    stage. *)
Lemma mtls_check_order readFile parseCertificate verify pem caPath now now' :
  JS.truthy pem = true -> JS.truthy caPath = true ->
  let result :=
    authenticateMTLS readFile parseCertificate verify
                     (Some pem) (Some caPath) now now' in
  let st :=
    stage readFile parseCertificate verify (Some pem) (Some caPath) now now' in
  ((readFile caPath = None
    \/ (exists caPem,
          readFile caPath = Some caPem /\ parseCertificate caPem = None)
    \/ parseCertificate pem = None) ->
   result = Returned None /\ st = Some Exception)
  /\ (forall caPem caCert cert,
        readFile caPath = Some caPem ->
        parseCertificate caPem = Some caCert ->
        parseCertificate pem = Some cert ->
        (~ in_window cert now ->
           result = Returned None
           /\ (st = Some DatesNotFinite \/ st = Some OutsideValidity))
        /\ (in_window cert now -> verify cert caCert = Some false ->
              result = Returned None /\ st = Some NotSignedByCA)
        /\ (in_window cert now -> verify cert caCert = None ->
              result = Returned None /\ st = Some Exception)).
Proof.
  intros Hpem Hca result st. subst result st.
  unfold authenticateMTLS, stage, JS.falsy. rewrite Hpem, Hca.
  cbn [negb from_option id]. split.
  - unfold check. intros [Hread | [(caPem & Hread & Hparse) | Hparse]].
    + rewrite Hread. split; reflexivity.
    + rewrite Hread, Hparse. split; reflexivity.
    + destruct (readFile caPath) as [caPem|]; [|split; reflexivity].
      destruct (parseCertificate caPem); [|split; reflexivity].
      rewrite Hparse. split; reflexivity.
  - intros caPem caCert cert Hread Hcacert Hcert.
    unfold check. rewrite Hread, Hcacert, Hcert.
    split; [|split].
    + intros Hout.
      destruct (notBefore cert) as [from|] eqn:Hfrom;
        [|split; [reflexivity | left; reflexivity]].
      destruct (notAfter cert) as [to|] eqn:Hto;
        [|split; [reflexivity | left; reflexivity]].
      destruct ((now <? from) || (now >? to)) eqn:Hrange;
        [split; [reflexivity | right; reflexivity]|].
      exfalso. apply Hout. exists from, to.
      apply orb_false_elim in Hrange as [H1 H2]. repeat split; try assumption; lia.
    + intros (from & to & -> & -> & Hrange)%in_window_check Hverify.
      rewrite Hrange, Hverify. split; reflexivity.
    + intros (from & to & -> & -> & Hrange)%in_window_check Hverify.
      rewrite Hrange, Hverify. split; reflexivity.
Qed.

(** No object identifier is the text the adapter looks for. *)
Lemma dotted_not_signature oids :
  Forall (fun oid => dotted oid = true) oids ->
  existsb (String.eqb "Digital Signature") oids = false.
Proof.
  induction 1 as [|oid rest Hoid _ IH]; [reflexivity|].
  cbn [existsb]. rewrite IH, orb_false_r.
  destruct (String.eqb "Digital Signature" oid) eqn:Heq; [|reflexivity].
  apply String.eqb_eq in Heq. subst oid. discriminate Hoid.
Qed.

(** C6. The adapter reads the subject, the alternative names and the
    key usage from the members node reports, and two of them are not
    what it takes them for. The subject comes one attribute per line, so
    a certificate in its validity window, signed by the CA and without
    alternative names, whose subject names the organisation after or
    before the common name laptop-7, yields null where the design
    identifies the device as laptop-7. The member [keyUsage] holds the extended key
    usages as object identifiers, so every certificate that carries that
    extension is refused, also one whose Key Usage extension includes
    the digital signature, and a certificate whose Key Usage extension
    lacks the digital signature is accepted. *)
Theorem mtls_reads_reported_members :
  let answer pem :=
    authenticateMTLS sampleReadFile issuedParse sampleVerify
      (Some pem) (Some "/etc/gitgate/ca.pem") 1500 1501 in
  let gave_up pem :=
    stage sampleReadFile issuedParse sampleVerify
      (Some pem) (Some "/etc/gitgate/ca.pem") 1500 1501 in
  (designated_id withOrganisation = Some "laptop-7"
   /\ Validation.validateDeviceId (Some "laptop-7") = Some "laptop-7"
   /\ may_sign withOrganisation = true
   /\ subject (reported withOrganisation)
      = "CN=laptop-7" +:+ line_feed +:+ "O=Acme"
   /\ answer "ORGANISATION PEM" = Returned None
   /\ gave_up "ORGANISATION PEM" = Some BadIdentifier
   /\ designated_id organisationFirst = Some "laptop-7"
   /\ answer "ORGANISATION FIRST PEM" = Returned None
   /\ gave_up "ORGANISATION FIRST PEM" = Some BadIdentifier)
  /\ (designated_id forClientAuth = Some "laptop-7"
      /\ may_sign forClientAuth = true
      /\ answer "CLIENT AUTH PEM" = Returned None
      /\ gave_up "CLIENT AUTH PEM" = Some NoDigitalSignature)
  /\ (may_sign enciphermentOnly = false
      /\ answer "ENCIPHERMENT PEM"
         = Returned
             (Some (mkDevice "laptop-7" None None "mtls" "0.0.0.0" 1501)))
  /\ (forall readFile parseCertificate verify pem caPath caPem caCert content
             oids now now',
        JS.truthy pem = true -> JS.truthy caPath = true ->
        readFile caPath = Some caPem ->
        parseCertificate caPem = Some caCert ->
        parseCertificate pem = Some (reported content) ->
        valid_from content <= now <= valid_to content ->
        verify (reported content) caCert = Some true ->
        extended_key_usage content = Some oids ->
        Forall (fun oid => dotted oid = true) oids ->
        authenticateMTLS readFile parseCertificate verify
          (Some pem) (Some caPath) now now' = Returned None
        /\ stage readFile parseCertificate verify
             (Some pem) (Some caPath) now now' = Some NoDigitalSignature).
Proof.
  intros answer gave_up. subst answer gave_up.
  split; [|split; [|split]].
  - repeat (split; [vm_compute; reflexivity|]). vm_compute. reflexivity.
  - repeat (split; [vm_compute; reflexivity|]). vm_compute. reflexivity.
  - split; vm_compute; reflexivity.
  - intros readFile parseCertificate verify pem caPath caPem caCert content
           oids now now' Hpem Hca Hread Hcacert Hcert Hwindow Hverify Hoids
           Hdotted.
    unfold authenticateMTLS, stage, JS.falsy. rewrite Hpem, Hca.
    cbn [negb from_option id]. unfold check.
    rewrite Hread, Hcacert, Hcert. cbn [reported notBefore notAfter keyUsage].
    replace ((now <? valid_from content) || (now >? valid_to content))
      with false by lia.
    rewrite Hverify, Hoids, (dotted_not_signature oids Hdotted).
    split; reflexivity.
Qed.

(** The sample certificate, which carries alternative names and no
    extended key usage, is accepted under its first alternative name. *)
Lemma sample_certificate_accepted :
  authenticateMTLS sampleReadFile sampleParse sampleVerify
                   (Some "CLIENT PEM") (Some "/etc/gitgate/ca.pem") 1500 1501
  = Returned
      (Some (mkDevice "host-1.example.com" None None "mtls" "0.0.0.0" 1501)).
Proof. vm_compute. reflexivity. Qed.

(** ** Trust adapters fail closed *)

Import Http.

Lemma fetchWithTimeout_failure parseURL fetch request :
  upstream_failure (fetch request) ->
  fetchWithTimeout parseURL fetch request = None
  \/ (exists body, fetchWithTimeout parseURL fetch request = Some (false, body))
  \/ fetchWithTimeout parseURL fetch request = Some (true, None)
  \/ fetchWithTimeout parseURL fetch request = Some (true, Some JNull).
Proof.
  unfold fetchWithTimeout. intros Hfail.
  destruct (parseURL (req_url request)) as [url|]; [|left; reflexivity].
  destruct (negb _); [left; reflexivity|].
  destruct Hfail as [-> | [[body ->] | [-> | ->]]]; eauto.
Qed.

Lemma jamf_exchange_failure isIP parseURL fetch headers token url now :
  upstream_failure (fetch (Jamf.tokenRequest token url)) ->
  Jamf.exchange isIP parseURL fetch headers token url now = None
  \/ Jamf.exchange isIP parseURL fetch headers token url now = Some None.
Proof.
  intros Hfail. unfold Jamf.exchange.
  destruct (fetchWithTimeout_failure parseURL fetch _ Hfail)
    as [-> | [[body ->] | [-> | ->]]]; simpl; auto.
Qed.

Lemma tailscale_lookup_failure isIP parseURL fetch headers user device ip
    apiKey now :
  upstream_failure (fetch (Tailscale.devicesRequest apiKey)) ->
  Tailscale.lookup isIP parseURL fetch headers user device ip apiKey now = None
  \/ Tailscale.lookup isIP parseURL fetch headers user device ip apiKey now
     = Some None.
Proof.
  intros Hfail. unfold Tailscale.lookup.
  destruct (fetchWithTimeout_failure parseURL fetch _ Hfail)
    as [-> | [[body ->] | [-> | ->]]]; simpl; auto.
Qed.

(** C7. Each of the three adapters, once its required configuration is
    in place, returns for every behaviour of its collaborators, and
    returns null when the upstream call is rejected, answers with a
    status outside 2xx or with a body that is not usable JSON, or when a
    certificate or the CA file cannot be read; an adapter throws only
    when its required configuration value is missing or malformed. *)
Theorem adapters_fail_closed isIP parseURL fetch readFile parseCertificate
    verify :
  (forall headers config now,
     let result := Jamf.authenticateJamf isIP parseURL fetch headers config now in
     (Jamf.configured parseURL config -> exists r, result = Returned r)
     /\ (forall msg, result = Thrown msg -> ~ Jamf.configured parseURL config)
     /\ (forall token url,
           Validation.validateTokenHeader
             (Validation.getHeader headers "x-jamf-token") = Some token ->
           Validation.validateHttpsUrl parseURL (config ≫= Jamf.api_url)
             = Some url ->
           Jamf.configured parseURL config ->
           upstream_failure (fetch (Jamf.tokenRequest token url)) ->
           result = Returned None))
  /\ (forall headers apiKeyRaw now,
        let result :=
          Tailscale.authenticateTailscale isIP parseURL fetch headers
            apiKeyRaw now in
        (is_Some (Validation.validateTokenHeader apiKeyRaw) ->
           exists r, result = Returned r)
        /\ (forall msg, result = Thrown msg ->
              Validation.validateTokenHeader apiKeyRaw = None)
        /\ (forall apiKey,
              Validation.validateTokenHeader apiKeyRaw = Some apiKey ->
              upstream_failure (fetch (Tailscale.devicesRequest apiKey)) ->
              result = Returned None))
  /\ (forall clientCert caPath now now',
        let result :=
          authenticateMTLS readFile parseCertificate verify clientCert caPath
            now now' in
        (JS.falsy caPath = false -> exists r, result = Returned r)
        /\ (forall msg, result = Thrown msg -> JS.falsy caPath = true)
        /\ (JS.falsy caPath = false ->
            (readFile (default "" caPath) = None
             \/ (exists caPem,
                   readFile (default "" caPath) = Some caPem
                   /\ parseCertificate caPem = None)
             \/ parseCertificate (default "" clientCert) = None
             \/ (forall client ca, verify client ca = None)) ->
            result = Returned None)).
Proof.
  split; [|split].
  - intros headers config now result. subst result.
    unfold Jamf.authenticateJamf, Jamf.configured.
    destruct (Validation.validateTokenHeader _) as [token|].
    + split; [|split].
      * intros ([url ->] & -> & ->). cbn [orb].
        destruct (Jamf.exchange _ _ _ _ _ _ _); eauto.
      * intros msg Hthrow ([url Hurl] & Hkey & Hsecret).
        rewrite Hurl, Hkey, Hsecret in Hthrow. cbn [orb] in Hthrow.
        destruct (Jamf.exchange _ _ _ _ _ _ _); discriminate.
      * intros token' url [= <-] Hurl (_ & -> & ->) Hfail.
        rewrite Hurl. cbn [orb].
        destruct (jamf_exchange_failure isIP parseURL fetch headers token url
                    now Hfail) as [-> | ->]; reflexivity.
    + split; [eauto|]. split; [discriminate|]. discriminate.
  - intros headers apiKeyRaw now result. subst result.
    unfold Tailscale.authenticateTailscale.
    destruct (Validation.validateUserHeader _) as [user|];
      [|split; [eauto|split; [discriminate|reflexivity]]].
    destruct (Validation.validateDeviceHeader _) as [device|];
      [|split; [eauto|split; [discriminate|reflexivity]]].
    split; [|split].
    + intros [apiKey ->]. destruct (Tailscale.lookup _ _ _ _ _ _ _ _ _); eauto.
    + intros msg.
      destruct (Validation.validateTokenHeader apiKeyRaw); [|reflexivity].
      destruct (Tailscale.lookup _ _ _ _ _ _ _ _ _); discriminate.
    + intros apiKey -> Hfail.
      destruct (tailscale_lookup_failure isIP parseURL fetch headers user
                  device
                  (Validation.validateIpAddress isIP
                     (Validation.getHeader headers "x-tailscale-ip"))
                  apiKey now Hfail) as [-> | ->]; reflexivity.
  - intros clientCert caPath now now' result. subst result.
    unfold authenticateMTLS.
    destruct (JS.falsy clientCert);
      [split; [eauto|split; [discriminate|reflexivity]]|].
    split; [|split].
    + intros ->. destruct (check _ _ _ _ _ _ _); eauto.
    + intros msg. destruct (JS.falsy caPath); [reflexivity|].
      destruct (check _ _ _ _ _ _ _); discriminate.
    + intros -> Hfail. unfold check.
      destruct Hfail as [-> | [(caPem & -> & ->) | [Hclient | Hverify]]];
        try reflexivity.
      * destruct (readFile _) as [caPem|]; [|reflexivity].
        destruct (parseCertificate caPem); [|reflexivity].
        rewrite Hclient. reflexivity.
      * destruct (readFile _) as [caPem|]; [|reflexivity].
        destruct (parseCertificate caPem) as [ca|]; [|reflexivity].
        destruct (parseCertificate _) as [client|]; [|reflexivity].
        destruct (notBefore client); [|reflexivity].
        destruct (notAfter client); [|reflexivity].
        destruct (_ || _); [reflexivity|].
        rewrite Hverify. reflexivity.
Qed.

Lemma adapters_fail_closed_witness :
  Jamf.authenticateJamf Sample.isIP Sample.parseURL Sample.unreachable
    Sample.jamfHeaders Sample.jamfConfig 1000 = Returned None
  /\ Tailscale.authenticateTailscale Sample.isIP Sample.parseURL
       Sample.unreachable Sample.tailscaleHeaders (Some "tskey-abc") 1000
     = Returned None
  /\ authenticateMTLS sampleReadFile sampleParse sampleVerify
       (Some "NOT A CERTIFICATE") (Some "/etc/gitgate/ca.pem") 1500 1501
     = Returned None.
Proof.
  destruct (adapters_fail_closed Sample.isIP Sample.parseURL Sample.unreachable
              sampleReadFile sampleParse sampleVerify)
    as (Hjamf & Htailscale & Hmtls).
  split; [|split].
  - destruct (Hjamf Sample.jamfHeaders Sample.jamfConfig 1000)
      as (_ & _ & Hfail).
    apply (Hfail "token-123"
             (Validation.mkURL "https:" "" "" "jamf.example.com/"
                "https://jamf.example.com/" "https://jamf.example.com/")).
    + reflexivity.
    + reflexivity.
    + split; [eexists; reflexivity | split; reflexivity].
    + left. reflexivity.
  - destruct (Htailscale Sample.tailscaleHeaders (Some "tskey-abc") 1000)
      as (_ & _ & Hfail).
    apply (Hfail "tskey-abc"); [reflexivity | left; reflexivity].
  - destruct (Hmtls (Some "NOT A CERTIFICATE") (Some "/etc/gitgate/ca.pem")
                1500 1501) as (_ & _ & Hfail).
    apply Hfail; [reflexivity|].
    right. right. left. reflexivity.
Defined.

(** ** Gateway pipeline *)

Import Server.

Lemma emitted_one st st' entry :
  audit st' = audit st ++ [entry] -> emitted st st' = [entry].
Proof.
  intros H. unfold emitted. rewrite H.
  rewrite skipn_app, skipn_all, Nat.sub_diag. reflexivity.
Qed.

Lemma emitted_none st st' : audit st' = audit st -> emitted st st' = [].
Proof. intros H. unfold emitted. rewrite H. apply skipn_all. Qed.

Ltac unfold_route :=
  unfold serve, listReleasesRoute, downloadAssetRoute, auditedOnce,
    auditIdentity, authenticated, authenticate, anonymous, rateLimitGate,
    consumeAndReport, signIfEnabled, cacheGet, cacheGetChecksum, cacheSet,
    logAction, isAllowed, getRemainingRequests, getResetTime,
    applyRateLimitHeaders, Date_now, bind, ret, throw, modify, gets.

Ltac one_record :=
  eexists; split; [apply emitted_one; reflexivity | repeat split].

Ltac audit_finish :=
  first
    [ exact I
    | discriminate
    | intros [? ?]; discriminate
    | intros _; one_record
    | one_record ].

(** C1 (as amended). On both release routes, a request whose path
    parameters pass validation and that ends in a success, an
    unauthorized, a not-found or an upstream-failure response, or in the
    rate-limited response to an authenticated device, hands exactly one
    record to the audit logger, naming the device (or unknown), the
    action, the resource and success or failure; a request that fails
    validation is answered with 400 and hands over none. *)
Theorem audit_exactly_once rt request st :
  match Validation.validateOwnerRepo (param_owner request),
        Validation.validateOwnerRepo (param_repo request) with
  | Some owner, Some repo =>
      auditedOnce rt request "list_releases" (owner +:+ "/" +:+ repo)
        (serve (listReleasesRoute rt) request st).1
        (emitted st (serve (listReleasesRoute rt) request st).2)
  | _, _ =>
      status (serve (listReleasesRoute rt) request st).1 = 400
      /\ emitted st (serve (listReleasesRoute rt) request st).2 = []
  end
  /\ match Validation.validateOwnerRepo (param_owner request),
          Validation.validateOwnerRepo (param_repo request),
          Validation.validateVersion (param_version request),
          Validation.validateAssetName (param_asset request) with
     | Some owner, Some repo, Some version, Some assetName =>
         auditedOnce rt request "download_asset"
           (owner +:+ "/" +:+ repo +:+ "/" +:+ version +:+ "/" +:+ assetName)
           (serve (downloadAssetRoute rt) request st).1
           (emitted st (serve (downloadAssetRoute rt) request st).2)
     | _, _, _, _ =>
         status (serve (downloadAssetRoute rt) request st).1 = 400
         /\ emitted st (serve (downloadAssetRoute rt) request st).2 = []
     end.
Proof.
  split.
  - unfold_route.
    destruct (Validation.validateOwnerRepo (param_owner request)) as [owner|];
      [|split; [reflexivity | apply emitted_none; reflexivity]].
    destruct (Validation.validateOwnerRepo (param_repo request)) as [repo|];
      [|split; [reflexivity | apply emitted_none; reflexivity]].
    cbn. repeat case_match; simplify_eq; cbn; audit_finish.
  - unfold_route.
    destruct (Validation.validateOwnerRepo (param_owner request)) as [owner|];
      [|split; [reflexivity | apply emitted_none; reflexivity]].
    destruct (Validation.validateOwnerRepo (param_repo request)) as [repo|];
      [|split; [reflexivity | apply emitted_none; reflexivity]].
    destruct (Validation.validateVersion (param_version request))
      as [version|];
      [|split; [reflexivity | apply emitted_none; reflexivity]].
    destruct (Validation.validateAssetName (param_asset request))
      as [assetName|];
      [|split; [reflexivity | apply emitted_none; reflexivity]].
    cbn. repeat case_match; simplify_eq; cbn; audit_finish.
Qed.

(** C4. When the dispatcher establishes no identity (whatever the
    configured method), both routes consume the anonymous key built from
    the forwarded-for address and answer 401 Unauthorized if that key is
    admitted and 429 if it is denied: the rate-limit answer takes
    precedence over the unauthorized one. *)
Theorem unauthorized_or_rate_limited rt request st :
  let headers := Validation.collectValidatedHeaders (raw_headers request) in
  let anonId :=
    "anon:" +:+ Validation.parseForwardedFor (rt_isIP rt)
                  (Validation.member headers "x-forwarded-for") in
  let verdict :=
    RateLimiter.consumeInternal 60 (limits st) anonId (rt_clock rt (ticks st)) in
  let answer :=
    if RateLimiter.allowed verdict.2
    then mkResponse 401 (ErrorBody "Unauthorized")
    else mkResponse 429 (ErrorBody "Rate limited") in
  rt_authenticateDevice rt (rt_authMethod rt) headers = Returned None ->
  (forall owner repo,
     Validation.validateOwnerRepo (param_owner request) = Some owner ->
     Validation.validateOwnerRepo (param_repo request) = Some repo ->
     (serve (listReleasesRoute rt) request st).1 = answer
     /\ limits (serve (listReleasesRoute rt) request st).2 = verdict.1)
  /\ (forall owner repo version assetName,
        Validation.validateOwnerRepo (param_owner request) = Some owner ->
        Validation.validateOwnerRepo (param_repo request) = Some repo ->
        Validation.validateVersion (param_version request) = Some version ->
        Validation.validateAssetName (param_asset request) = Some assetName ->
        (serve (downloadAssetRoute rt) request st).1 = answer
        /\ limits (serve (downloadAssetRoute rt) request st).2 = verdict.1).
Proof.
  intros headers anonId verdict answer Hauth.
  subst headers anonId verdict answer. split.
  - intros owner repo Howner Hrepo.
    unfold serve, listReleasesRoute, authenticate, anonymous,
      consumeAndReport, logAction, isAllowed, RateLimiter.isAllowed,
      getRemainingRequests, getResetTime, applyRateLimitHeaders, Date_now,
      bind, ret, throw, modify, gets, rateLimitLimit.
    rewrite Howner, Hrepo, Hauth. cbn.
    destruct (RateLimiter.consumeInternal _ _ _ _) as [limits' v]. cbn.
    destruct (RateLimiter.allowed v); cbn; split; reflexivity.
  - intros owner repo version assetName Howner Hrepo Hversion Hasset.
    unfold serve, downloadAssetRoute, authenticate, anonymous,
      consumeAndReport, logAction, isAllowed, RateLimiter.isAllowed,
      getRemainingRequests, getResetTime, applyRateLimitHeaders, Date_now,
      bind, ret, throw, modify, gets, rateLimitLimit.
    rewrite Howner, Hrepo, Hversion, Hasset, Hauth. cbn.
    destruct (RateLimiter.consumeInternal _ _ _ _) as [limits' v]. cbn.
    destruct (RateLimiter.allowed v); cbn; split; reflexivity.
Qed.

Lemma unauthorized_or_rate_limited_witness :
  (serve (listReleasesRoute Sample.runtime) Sample.anonymousRequest
         Sample.start).1
    = mkResponse 401 (ErrorBody "Unauthorized")
  /\ (serve (downloadAssetRoute Sample.runtime) Sample.anonymousRequest
            (Sample.repeatServe (listReleasesRoute Sample.runtime)
               Sample.anonymousRequest 60 Sample.start).2).1
     = mkResponse 429 (ErrorBody "Rate limited").
Proof.
  split.
  - exact (proj1 (proj1 (unauthorized_or_rate_limited Sample.runtime
                           Sample.anonymousRequest Sample.start eq_refl)
                        "acme" "tool" eq_refl eq_refl)).
  - pose proof (proj1 (proj2 (unauthorized_or_rate_limited Sample.runtime
                           Sample.anonymousRequest
                           (Sample.repeatServe
                              (listReleasesRoute Sample.runtime)
                              Sample.anonymousRequest 60 Sample.start).2
                           eq_refl)
                        "acme" "tool" "v1.0.0" "tool.tar.gz"
                        eq_refl eq_refl eq_refl eq_refl)) as H.
    rewrite H. vm_compute. reflexivity.
Defined.

(** The claim as first stated fails for a request with a malformed
    path parameter: it is answered with 400 and no record reaches the
    audit logger. *)
Lemma validation_failure_not_audited :
  status (serve (listReleasesRoute Sample.runtime) Sample.malformedRequest
                Sample.start).1 = 400
  /\ emitted Sample.start
       (serve (listReleasesRoute Sample.runtime) Sample.malformedRequest
              Sample.start).2 = []
  /\ ~ exists entry,
         emitted Sample.start
           (serve (listReleasesRoute Sample.runtime) Sample.malformedRequest
                  Sample.start).2 = [entry].
Proof.
  split; [reflexivity|]. split; [reflexivity|].
  intros [entry Hentry]. vm_compute in Hentry. discriminate.
Qed.

(** The rate-limited answer to an unauthenticated caller is not
    audited either, unlike the rate-limited answer to a device. *)
Lemma anonymous_rate_limit_not_audited :
  let before :=
    (Sample.repeatServe (listReleasesRoute Sample.runtime)
       Sample.anonymousRequest 60 Sample.start).2 in
  let after := serve (listReleasesRoute Sample.runtime)
                     Sample.anonymousRequest before in
  status after.1 = 429 /\ emitted before after.2 = [].
Proof. vm_compute. split; reflexivity. Qed.

(** ** Patterns of the sanitizer *)

Lemma dead_nullable r : Sanitized.dead r = true -> Regex.nullable r = false.
Proof.
  induction r; simpl; try discriminate; try reflexivity.
  - intros [H | H]%orb_prop; [rewrite IHr1 | rewrite IHr2]; auto.
    apply andb_false_r.
  - intros [H1 H2]%andb_prop. rewrite IHr1, IHr2; auto.
Qed.

Lemma dead_deriv c r :
  Sanitized.dead r = true -> Sanitized.dead (Regex.deriv c r) = true.
Proof.
  induction r; simpl; try discriminate; try reflexivity.
  - intros [H | H]%orb_prop.
    + rewrite (dead_nullable _ H). simpl. rewrite IHr1; auto.
    + destruct (Regex.nullable r1); simpl; rewrite ?IHr2, H; auto;
        rewrite orb_true_r; reflexivity.
  - intros [H1 H2]%andb_prop. rewrite IHr1, IHr2; auto.
Qed.

Lemma dead_test s : forall r, Sanitized.dead r = true -> Regex.test r s = false.
Proof.
  induction s as [|c s IH]; intros r Hr; simpl.
  - apply dead_nullable. exact Hr.
  - apply IH. apply dead_deriv. exact Hr.
Qed.

Lemma test_Alt s : forall a b,
  Regex.test (Regex.Alt a b) s = Regex.test a s || Regex.test b s.
Proof.
  induction s as [|c s IH]; intros a b; simpl; [reflexivity | apply IH].
Qed.

Lemma test_Cat_Eps r s : Regex.test (Regex.Cat Regex.Eps r) s = Regex.test r s.
Proof.
  destruct s as [|c s]; simpl; [reflexivity|].
  rewrite test_Alt. rewrite (dead_test s (Regex.Cat Regex.Void r)); reflexivity.
Qed.

Lemma test_Star_Class p s :
  Regex.test (Regex.Star (Regex.Class p)) s = Sanitized.all p s.
Proof.
  induction s as [|c s IH]; [reflexivity|].
  unfold Sanitized.all. simpl. destruct (p c); simpl.
  - rewrite test_Cat_Eps. exact IH.
  - apply dead_test. reflexivity.
Qed.

(** [/^[...]+$/] accepts the non-empty strings made of characters of
    the class. *)
Lemma test_Plus_Class p s :
  Regex.test (Regex.Plus (Regex.Class p)) s
  = negb (String.eqb s "") && Sanitized.all p s.
Proof.
  destruct s as [|c s]; [reflexivity|].
  unfold Sanitized.all. simpl. destruct (p c); simpl.
  - rewrite test_Cat_Eps. apply test_Star_Class.
  - apply dead_test. reflexivity.
Qed.

Lemma mentions_deriv c d r :
  Sanitized.mentions c (Regex.deriv d r) = true -> Sanitized.mentions c r = true.
Proof.
  induction r; simpl; try discriminate.
  - destruct (b d); discriminate.
  - destruct (Regex.nullable r1); simpl; intros H;
      repeat (apply orb_prop in H as [H | H]);
      rewrite ?(IHr1 H), ?(IHr2 H), ?H, ?orb_true_r; reflexivity.
  - intros [H | H]%orb_prop; rewrite ?(IHr1 H), ?(IHr2 H), ?orb_true_r;
      reflexivity.
  - intros [H | H]%orb_prop; rewrite ?(IHr H), ?H; reflexivity.
Qed.

Lemma unmentioned_dead c r :
  Sanitized.mentions c r = false -> Sanitized.dead (Regex.deriv c r) = true.
Proof.
  induction r; simpl; try reflexivity.
  - intros ->. reflexivity.
  - intros [H1 H2]%orb_false_elim.
    destruct (Regex.nullable r1); simpl; rewrite IHr1, ?IHr2; auto.
  - intros [H1 H2]%orb_false_elim. rewrite IHr1, IHr2; auto.
  - intros H. rewrite IHr; auto.
Qed.

(** A matched string is made of characters that some class of the
    expression accepts. *)
Lemma test_mentions p s : forall r,
  (forall c, Sanitized.mentions c r = true -> p c = true) ->
  Regex.test r s = true -> Sanitized.all p s = true.
Proof.
  induction s as [|c s IH]; intros r Hp Hs; [reflexivity|].
  unfold Sanitized.all. simpl in *. apply andb_true_intro. split.
  - destruct (Sanitized.mentions c r) eqn:Hm; [apply Hp; exact Hm|].
    rewrite (dead_test s _ (unmentioned_dead c r Hm)) in Hs. discriminate.
  - apply (IH (Regex.deriv c r)); [|exact Hs].
    intros d Hd. apply Hp. apply (mentions_deriv d c r Hd).
Qed.

(** ** Sanitizer: what the validators accept *)

Lemma len_zero s : (JS.len s =? 0) = String.eqb s "".
Proof. destruct s; reflexivity. Qed.

Lemma len_positive s : String.eqb s "" = false -> 1 <= JS.len s.
Proof. destruct s; [discriminate|]. unfold JS.len. simpl. lia. Qed.

Lemma all_not_occurs p s c :
  Sanitized.all p s = true -> p c = false -> ~ Sanitized.occurs c s.
Proof.
  unfold Sanitized.all, Sanitized.occurs. intros Hall Hc Hin.
  rewrite forallb_forall in Hall. rewrite (Hall c Hin) in Hc. discriminate.
Qed.

Lemma owner_repo_pattern s :
  Regex.test Validation.OWNER_REPO_PATTERN s
  = negb (String.eqb s "") && Sanitized.all (Sanitized.wordChar "_-") s.
Proof. apply test_Plus_Class. Qed.

Lemma tag_pattern s :
  Regex.test Validation.TAG_PATTERN s
  = negb (String.eqb s "") && Sanitized.all (Sanitized.wordChar "._-") s.
Proof. apply test_Plus_Class. Qed.

Lemma asset_pattern s :
  Regex.test Validation.ASSET_PATTERN s
  = negb (String.eqb s "") && Sanitized.all (Sanitized.wordChar "._+() -") s.
Proof. apply test_Plus_Class. Qed.

Lemma token_pattern s :
  Regex.test Validation.TOKEN_PATTERN s
  = negb (String.eqb s "") && Sanitized.all (Sanitized.wordChar "._~=-") s.
Proof. apply test_Plus_Class. Qed.

Lemma user_pattern s :
  Regex.test Validation.USER_PATTERN s
  = negb (String.eqb s "") && Sanitized.all (Sanitized.wordChar "._@+-") s.
Proof. apply test_Plus_Class. Qed.

Lemma device_pattern s :
  Regex.test Validation.DEVICE_PATTERN s
  = negb (String.eqb s "") && Sanitized.all (Sanitized.wordChar "._-") s.
Proof. apply test_Plus_Class. Qed.

Lemma all_weaken (p q : ascii -> bool) s :
  (forall c, p c = true -> q c = true) ->
  Sanitized.all p s = true -> Sanitized.all q s = true.
Proof.
  unfold Sanitized.all. rewrite !forallb_forall. intros Hpq Hall c Hin.
  apply Hpq, Hall, Hin.
Qed.

Lemma chr_eq ch c : Regex.chr ch c = true -> c = ch.
Proof. unfold Regex.chr. intros H%Ascii.eqb_eq. congruence. Qed.

Lemma range_digit lo hi c :
  (48 <= lo)%N -> (hi <= 57)%N ->
  Regex.range lo hi c = true -> Regex.digit c = true.
Proof.
  unfold Regex.digit, Regex.range. intros Hlo Hhi [H1 H2]%andb_prop.
  apply andb_true_intro. split; apply N.leb_le;
    apply N.leb_le in H1, H2; lia.
Qed.

Lemma wordChar_alnum punctuation c :
  Regex.alnum c = true -> Sanitized.wordChar punctuation c = true.
Proof. unfold Sanitized.wordChar. intros ->. reflexivity. Qed.

Lemma wordChar_digit punctuation c :
  Regex.digit c = true -> Sanitized.wordChar punctuation c = true.
Proof.
  intros H. apply wordChar_alnum. unfold Regex.alnum. rewrite H.
  apply orb_true_r.
Qed.

(** Every character class of the version patterns lies within the
    letters, digits, dot, underscore, hyphen and plus sign. *)
Lemma semver_classes c :
  Sanitized.mentions c Validation.SEMVER_PATTERN = true ->
  Sanitized.wordChar "._-+" c = true.
Proof.
  unfold Validation.SEMVER_PATTERN, Validation.numeric_identifier,
    Validation.dotted_identifiers, Regex.Opt, Regex.Plus.
  cbn [Sanitized.mentions orb]. intros H.
  repeat (apply orb_prop in H as [H | H]);
    first
      [ apply chr_eq in H; subst c; reflexivity
      | apply wordChar_digit; apply (range_digit 49 57); [lia | lia | exact H]
      | apply wordChar_alnum; unfold Regex.alnum; rewrite H;
        rewrite ?orb_true_r; reflexivity ].
Qed.

Lemma validateVersion_chars value version :
  Validation.validateVersion value = Some version ->
  version = JS.trim value
  /\ 1 <= JS.len version <= 200
  /\ Sanitized.all (Sanitized.wordChar "._-+") version = true.
Proof.
  unfold Validation.validateVersion, Validation.MAX_VERSION_LENGTH.
  rewrite len_zero.
  destruct (String.eqb (JS.trim value) "") eqn:Hempty; [discriminate|].
  destruct (JS.len (JS.trim value) >? 200) eqn:Hlen; [discriminate|].
  cbn [orb].
  destruct (Regex.test Validation.SEMVER_PATTERN (JS.trim value)) eqn:Hsem.
  - intros [= <-]. split; [reflexivity|].
    split; [pose proof (len_positive _ Hempty); lia|].
    apply (test_mentions _ _ Validation.SEMVER_PATTERN semver_classes Hsem).
  - cbn [orb]. rewrite tag_pattern, Hempty. cbn [negb andb].
    destruct (Sanitized.all _ _) eqn:Hall; [|discriminate].
    intros [= <-]. split; [reflexivity|].
    split; [pose proof (len_positive _ Hempty); lia|].
    apply (all_weaken (Sanitized.wordChar "._-")); [|exact Hall].
    unfold Sanitized.wordChar. intros c [H | H]%orb_prop;
      [rewrite H; reflexivity|].
    apply orb_true_intro. right. unfold Regex.oneOf in *.
    simpl in *. repeat (apply orb_prop in H as [H | H]); rewrite ?H;
      rewrite ?orb_true_r; try reflexivity; discriminate.
Qed.

(** X1. [validateOwnerRepo] accepts exactly the values whose trimmed
    form has between 1 and 100 characters, all of them letters, digits,
    underscores or hyphens, and it returns that trimmed form. *)
Theorem validateOwnerRepo_accepts value trimmed :
  Validation.validateOwnerRepo value = Some trimmed
  <-> trimmed = JS.trim value
      /\ 1 <= JS.len trimmed <= 100
      /\ Sanitized.all (Sanitized.wordChar "_-") trimmed = true.
Proof.
  unfold Validation.validateOwnerRepo, Validation.MAX_OWNER_REPO_LENGTH.
  rewrite owner_repo_pattern, len_zero.
  destruct (String.eqb (JS.trim value) "") eqn:Hempty.
  - cbn [orb]. split; [discriminate|]. intros (-> & Hlen & _).
    apply String.eqb_eq in Hempty. rewrite Hempty in Hlen.
    unfold JS.len in Hlen. simpl in Hlen. lia.
  - pose proof (len_positive _ Hempty) as Hpos. cbn [orb negb andb].
    destruct (JS.len (JS.trim value) >? 100) eqn:Hlen.
    + split; [discriminate|]. intros (-> & Hle & _). lia.
    + destruct (Sanitized.all _ (JS.trim value)) eqn:Hall; cbn [negb].
      * split; [intros [= <-] | intros (-> & _)]; [|reflexivity].
        repeat split; [lia | lia | exact Hall].
      * split; [discriminate|]. intros (-> & _ & Hno). congruence.
Qed.

(** X2. [validateAssetName] accepts exactly the values whose trimmed
    form has between 1 and 200 characters, all of them letters, digits,
    dots, underscores, plus signs, parentheses, spaces or hyphens, and
    does not contain two dots in a row; it returns that trimmed form. An
    accepted name therefore holds no slash and no backslash. *)
Theorem validateAssetName_accepts value trimmed :
  (Validation.validateAssetName value = Some trimmed
   <-> trimmed = JS.trim value
       /\ 1 <= JS.len trimmed <= 200
       /\ Sanitized.all (Sanitized.wordChar "._+() -") trimmed = true
       /\ JS.includes ".." trimmed = false)
  /\ (Validation.validateAssetName value = Some trimmed ->
      ~ Sanitized.occurs "/" trimmed /\ ~ Sanitized.occurs "\" trimmed).
Proof.
  assert (Hslash : forall s,
            Sanitized.all (Sanitized.wordChar "._+() -") s = true ->
            JS.includes "/" s = false /\ JS.includes "\" s = false).
  { intros s Hall. split.
    - destruct (JS.includes "/" s) eqn:Hin; [|reflexivity].
      apply includes_char_In in Hin.
      destruct (all_not_occurs _ _ "/"%char Hall eq_refl Hin).
    - destruct (JS.includes "\" s) eqn:Hin; [|reflexivity].
      apply includes_char_In in Hin.
      destruct (all_not_occurs _ _ "\"%char Hall eq_refl Hin). }
  assert (Hiff :
    Validation.validateAssetName value = Some trimmed
    <-> trimmed = JS.trim value
        /\ 1 <= JS.len trimmed <= 200
        /\ Sanitized.all (Sanitized.wordChar "._+() -") trimmed = true
        /\ JS.includes ".." trimmed = false).
  { unfold Validation.validateAssetName, Validation.MAX_ASSET_LENGTH.
    rewrite asset_pattern, len_zero.
    destruct (String.eqb (JS.trim value) "") eqn:Hempty.
    - cbn [orb]. split; [discriminate|]. intros (-> & Hlen & _).
      apply String.eqb_eq in Hempty. rewrite Hempty in Hlen.
      unfold JS.len in Hlen. simpl in Hlen. lia.
    - pose proof (len_positive _ Hempty) as Hpos. cbn [orb negb andb].
      destruct (JS.len (JS.trim value) >? 200) eqn:Hlen.
      { split; [discriminate|]. intros (-> & Hle & _). lia. }
      destruct (Sanitized.all _ (JS.trim value)) eqn:Hall; cbn [negb].
      + destruct (Hslash _ Hall) as [-> ->]. cbn [orb].
        destruct (JS.includes ".." (JS.trim value)) eqn:Hdots.
        * split; [discriminate|]. intros (-> & _ & _ & Hno). congruence.
        * split; [intros [= <-] | intros (-> & _)]; [|reflexivity].
          repeat split; [lia | lia | exact Hall | exact Hdots].
      + split.
        * destruct (_ || _); discriminate.
        * intros (-> & _ & Hno & _). congruence. }
  split; [exact Hiff|].
  intros (_ & _ & Hall & _)%Hiff.
  split; apply (all_not_occurs _ _ _ Hall); reflexivity.
Qed.

Lemma falsy_trimmed t : (JS.len t =? 0) = false -> JS.falsy (Some t) = false.
Proof. destruct t; [discriminate | reflexivity]. Qed.

Lemma validateHeaderValue_fixed value maxLength header :
  Validation.validateHeaderValue value maxLength = Some header ->
  header = JS.trim (default "" value)
  /\ Validation.validateHeaderValue (Some header) maxLength = Some header.
Proof.
  unfold Validation.validateHeaderValue.
  destruct (JS.falsy value); [discriminate|].
  destruct (_ || _) eqn:Hlen; [discriminate|].
  destruct (Validation.hasControl _) eqn:Hcontrol; [discriminate|].
  intros [= <-]. split; [reflexivity|].
  apply orb_false_elim in Hlen as [Hzero Hmax].
  rewrite (falsy_trimmed _ Hzero). cbn [default from_option id].
  rewrite trim_idem, Hzero, Hmax, Hcontrol. reflexivity.
Qed.

(** X3. Every validator returns a value it would accept again
    unchanged: sanitizing twice is the same as sanitizing once. *)
Theorem sanitizers_idempotent :
  (forall value accepted,
     Validation.validateOwnerRepo value = Some accepted ->
     Validation.validateOwnerRepo accepted = Some accepted)
  /\ (forall value accepted,
        Validation.validateVersion value = Some accepted ->
        Validation.validateVersion accepted = Some accepted)
  /\ (forall value accepted,
        Validation.validateAssetName value = Some accepted ->
        Validation.validateAssetName accepted = Some accepted)
  /\ (forall value maxLength accepted,
        Validation.validateHeaderValue value maxLength = Some accepted ->
        Validation.validateHeaderValue (Some accepted) maxLength
        = Some accepted)
  /\ (forall value accepted,
        Validation.validateTokenHeader value = Some accepted ->
        Validation.validateTokenHeader (Some accepted) = Some accepted)
  /\ (forall value accepted,
        Validation.validateUserHeader value = Some accepted ->
        Validation.validateUserHeader (Some accepted) = Some accepted)
  /\ (forall value accepted,
        Validation.validateDeviceHeader value = Some accepted ->
        Validation.validateDeviceHeader (Some accepted) = Some accepted)
  /\ (forall value accepted,
        Validation.validateDeviceId value = Some accepted ->
        Validation.validateDeviceId (Some accepted) = Some accepted).
Proof.
  split; [|split; [|split; [|split; [|split; [|split; [|split]]]]]].
  - intros value accepted. unfold Validation.validateOwnerRepo.
    destruct (_ || _) eqn:Hlen; [discriminate|].
    destruct (negb _) eqn:Hpat; [discriminate|].
    intros [= <-]. rewrite trim_idem, Hlen, Hpat. reflexivity.
  - intros value accepted. unfold Validation.validateVersion.
    destruct (_ || _) eqn:Hlen; [discriminate|].
    destruct (Regex.test _ _ || _) eqn:Hpat; [|discriminate].
    intros [= <-]. rewrite trim_idem, Hlen, Hpat. reflexivity.
  - intros value accepted. unfold Validation.validateAssetName.
    destruct (_ || _) eqn:Hlen; [discriminate|].
    destruct (JS.includes "/" _ || _ || _) eqn:Hinc; [discriminate|].
    destruct (negb _) eqn:Hpat; [discriminate|].
    intros [= <-]. rewrite trim_idem, Hlen, Hinc, Hpat. reflexivity.
  - intros value maxLength accepted H.
    apply (validateHeaderValue_fixed value maxLength accepted H).
  - intros value accepted. unfold Validation.validateTokenHeader.
    destruct (Validation.validateHeaderValue value _) as [token|] eqn:Hv;
      [|discriminate].
    destruct (negb _) eqn:Hpat; [discriminate|]. intros [= <-].
    destruct (validateHeaderValue_fixed _ _ _ Hv) as [_ ->].
    rewrite Hpat. reflexivity.
  - intros value accepted. unfold Validation.validateUserHeader.
    destruct (Validation.validateHeaderValue value _) as [user|] eqn:Hv;
      [|discriminate].
    destruct (negb _ || _) eqn:Hpat; [discriminate|]. intros [= <-].
    destruct (validateHeaderValue_fixed _ _ _ Hv) as [_ ->].
    rewrite Hpat. reflexivity.
  - intros value accepted. unfold Validation.validateDeviceHeader.
    destruct (Validation.validateHeaderValue value _) as [device|] eqn:Hv;
      [|discriminate].
    destruct (negb _ || _) eqn:Hpat; [discriminate|]. intros [= <-].
    destruct (validateHeaderValue_fixed _ _ _ Hv) as [_ ->].
    rewrite Hpat. reflexivity.
  - intros value accepted. unfold Validation.validateDeviceId.
    destruct (JS.falsy value); [discriminate|].
    destruct (_ || _) eqn:Hlen; [discriminate|].
    destruct (negb _) eqn:Hpat; [discriminate|].
    intros [= <-].
    pose proof Hlen as Hlen'. apply orb_false_elim in Hlen' as [Hzero _].
    rewrite (falsy_trimmed _ Hzero). cbn [default from_option id].
    rewrite trim_idem, Hlen, Hpat. reflexivity.
Qed.

Lemma all_no_control punctuation s :
  Sanitized.wordChar punctuation Validation.CR = false ->
  Sanitized.wordChar punctuation Validation.LF = false ->
  Sanitized.wordChar punctuation Validation.NUL = false ->
  Sanitized.all (Sanitized.wordChar punctuation) s = true ->
  Validation.hasControl s = false.
Proof.
  intros Hcr Hlf Hnul Hall. unfold Validation.hasControl.
  destruct (existsb _ _) eqn:Hex; [|reflexivity].
  apply existsb_exists in Hex as (c & Hin & Hc).
  unfold Sanitized.all in Hall. rewrite forallb_forall in Hall.
  specialize (Hall c Hin).
  repeat (apply orb_prop in Hc as [Hc | Hc]);
    apply Ascii.eqb_eq in Hc; subst c; congruence.
Qed.

(** X4. [validateDeviceHeader] and [validateDeviceId] accept the same
    values and return the same result: the device pattern admits no
    CR, LF or NUL and the 100-character bound is the tighter one, so the
    header checks add nothing. *)
Theorem validateDeviceHeader_is_validateDeviceId value :
  Validation.validateDeviceHeader value = Validation.validateDeviceId value.
Proof.
  unfold Validation.validateDeviceHeader, Validation.validateDeviceId,
    Validation.validateHeaderValue, Validation.MAX_HEADER_LENGTH,
    Validation.MAX_OWNER_REPO_LENGTH.
  destruct (JS.falsy value); [reflexivity|].
  set (trimmed := JS.trim (default "" value)).
  rewrite !len_zero.
  destruct (String.eqb trimmed "") eqn:Hempty; [reflexivity|]. cbn [orb].
  rewrite device_pattern, Hempty. cbn [negb andb].
  destruct (Sanitized.all _ trimmed) eqn:Hall.
  - rewrite (all_no_control "._-" trimmed eq_refl eq_refl eq_refl Hall).
    destruct (Z.gtb_spec (JS.len trimmed) 2048) as [Hbig | Hbig];
      destruct (Z.gtb_spec (JS.len trimmed) 100) as [Hlen | Hlen];
      rewrite ?device_pattern, ?Hempty, ?Hall; cbn [negb andb orb];
      try reflexivity; lia.
  - cbn [negb orb].
    destruct (JS.len trimmed >? 2048); [|destruct (Validation.hasControl _)];
      destruct (JS.len trimmed >? 100);
      rewrite ?device_pattern, ?Hempty, ?Hall; reflexivity.
Qed.

(** X5. A version that [validateVersion] accepts is the trimmed input,
    has between 1 and 200 characters and consists of letters, digits,
    dots, underscores, hyphens and plus signs only: it holds no slash,
    no colon and no white space. *)
Theorem validateVersion_charset value version :
  Validation.validateVersion value = Some version ->
  version = JS.trim value
  /\ 1 <= JS.len version <= 200
  /\ Sanitized.all (Sanitized.wordChar "._-+") version = true
  /\ ~ Sanitized.occurs "/" version
  /\ ~ Sanitized.occurs ":" version
  /\ ~ Sanitized.occurs " " version.
Proof.
  intros (Htrim & Hlen & Hall)%validateVersion_chars.
  repeat split; try assumption; try lia;
    apply (all_not_occurs _ _ _ Hall); reflexivity.
Qed.

Lemma validateVersion_charset_witness :
  "v1.2.3-rc.1+build.5" = JS.trim " v1.2.3-rc.1+build.5 "
  /\ 1 <= JS.len "v1.2.3-rc.1+build.5" <= 200
  /\ Sanitized.all (Sanitized.wordChar "._-+") "v1.2.3-rc.1+build.5" = true
  /\ ~ Sanitized.occurs "/" "v1.2.3-rc.1+build.5"
  /\ ~ Sanitized.occurs ":" "v1.2.3-rc.1+build.5"
  /\ ~ Sanitized.occurs " " "v1.2.3-rc.1+build.5".
Proof.
  apply (validateVersion_charset " v1.2.3-rc.1+build.5 " "v1.2.3-rc.1+build.5").
  vm_compute. reflexivity.
Defined.

(** ** Sanitizer: request headers *)

Lemma lower_idem c : JS.lower (JS.lower c) = JS.lower c.
Proof. destruct c as [[] [] [] [] [] [] [] []]; reflexivity. Qed.

Lemma toLowerCase_idem s : JS.toLowerCase (JS.toLowerCase s) = JS.toLowerCase s.
Proof.
  induction s as [|c s IH]; simpl; [reflexivity|].
  rewrite lower_idem, IH. reflexivity.
Qed.

(** Reading a member back after an assignment; the name [__proto__]
    is never stored. *)
Lemma member_put headers key value key' :
  Validation.member (Validation.put headers key value) key'
  = if String.eqb key key' then Some value else Validation.member headers key'.
Proof.
  unfold Validation.member.
  induction headers as [|[k v] rest IH]; simpl.
  - destruct (String.eqb key key'); reflexivity.
  - destruct (String.eqb k key) eqn:Hk; simpl.
    + apply String.eqb_eq in Hk. subst k.
      destruct (String.eqb key key'); reflexivity.
    + destruct (String.eqb k key') eqn:Hk'; simpl; [|exact IH].
      destruct (String.eqb key key') eqn:Hkey; [|reflexivity].
      apply String.eqb_eq in Hk', Hkey. subst.
      rewrite String.eqb_refl in Hk. discriminate.
Qed.

Lemma member_assign headers key value key' :
  key <> "__proto__" ->
  Validation.member (Validation.assign headers key value) key'
  = if String.eqb key key' then Some value else Validation.member headers key'.
Proof.
  intros Hkey. unfold Validation.assign.
  destruct (String.eqb key "__proto__") eqn:Hproto.
  - apply String.eqb_eq in Hproto. contradiction.
  - apply member_put.
Qed.

Lemma assign_proto headers value :
  Validation.assign headers "__proto__" value = headers.
Proof. reflexivity. Qed.

Lemma put_Forall (P : string * string -> Prop) headers key value :
  Forall P headers -> P (key, value) ->
  Forall P (Validation.put headers key value).
Proof.
  induction headers as [|[k v] rest IH]; simpl; intros Hall Hnew.
  - constructor; [exact Hnew | constructor].
  - inversion Hall as [|? ? Hhead Hrest]; subst.
    destruct (String.eqb k key) eqn:Hk.
    + apply String.eqb_eq in Hk. subst k. constructor; assumption.
    + constructor; [exact Hhead | apply IH; assumption].
Qed.

Lemma assign_Forall (P : string * string -> Prop) headers key value :
  Forall P headers -> (key <> "__proto__" -> P (key, value)) ->
  Forall P (Validation.assign headers key value).
Proof.
  intros Hall Hnew. unfold Validation.assign.
  destruct (String.eqb key "__proto__") eqn:Hproto; [exact Hall|].
  apply put_Forall; [exact Hall|]. apply Hnew.
  intros ->. discriminate Hproto.
Qed.

Lemma put_names headers key value name :
  In name (map fst (Validation.put headers key value)) ->
  name = key \/ In name (map fst headers).
Proof.
  induction headers as [|[k v] rest IH]; simpl.
  - intros [<- | []]. left. reflexivity.
  - destruct (String.eqb k key); simpl.
    + intros [<- | Hin]; right; [left | right]; auto.
    + intros [<- | Hin]; [right; left; reflexivity|].
      destruct (IH Hin) as [-> | Hrest]; [left | right; right]; auto.
Qed.

Lemma put_NoDup headers key value :
  List.NoDup (map fst headers) ->
  List.NoDup (map fst (Validation.put headers key value)).
Proof.
  induction headers as [|[k v] rest IH]; simpl; intros Hnodup.
  - constructor; [intros [] | constructor].
  - apply List.NoDup_cons_iff in Hnodup as [Hfresh Hrest].
    destruct (String.eqb k key) eqn:Hk; simpl.
    + apply List.NoDup_cons_iff. split; assumption.
    + apply List.NoDup_cons_iff. split; [|apply IH; exact Hrest].
      intros [-> | Hin]%put_names; [|contradiction].
      rewrite String.eqb_refl in Hk. discriminate.
Qed.

Lemma assign_NoDup headers key value :
  List.NoDup (map fst headers) ->
  List.NoDup (map fst (Validation.assign headers key value)).
Proof.
  intros Hnodup. unfold Validation.assign.
  destruct (String.eqb key "__proto__"); [exact Hnodup|].
  apply put_NoDup. exact Hnodup.
Qed.

Lemma validateHeaderValue_clean value safeValue :
  Validation.validateHeaderValue value Validation.MAX_HEADER_LENGTH
  = Some safeValue ->
  Sanitized.cleanValue safeValue.
Proof.
  unfold Validation.validateHeaderValue.
  destruct (JS.falsy value); [discriminate|].
  destruct (_ || _) eqn:Hlen; [discriminate|].
  destruct (Validation.hasControl _) eqn:Hcontrol; [discriminate|].
  intros [= <-]. apply orb_false_elim in Hlen as [Hzero Hmax].
  split; [|split; [|split]].
  - intros Hempty. rewrite Hempty in Hzero. discriminate.
  - apply trim_idem.
  - lia.
  - exact Hcontrol.
Qed.

Lemma collect_step_clean result name value :
  Sanitized.cleanHeaders result ->
  Sanitized.cleanHeaders
    (match Validation.validateHeaderValue (Some value)
             Validation.MAX_HEADER_LENGTH with
     | Some safeValue =>
         Validation.assign result (JS.toLowerCase name) safeValue
     | None => result
     end).
Proof.
  intros [Hnodup Hall].
  destruct (Validation.validateHeaderValue _ _) as [safeValue|] eqn:Hv;
    [|split; assumption].
  split; [apply assign_NoDup; exact Hnodup|].
  apply assign_Forall; [exact Hall|]. intros Hname. split; [|split].
  - apply toLowerCase_idem.
  - exact Hname.
  - apply (validateHeaderValue_clean _ _ Hv).
Qed.

Lemma collect_from_clean raw : forall result,
  Sanitized.cleanHeaders result ->
  Sanitized.cleanHeaders
    (fold_left
       (fun result '(name, value) =>
          match Validation.validateHeaderValue (Some value)
                  Validation.MAX_HEADER_LENGTH with
          | Some safeValue =>
              Validation.assign result (JS.toLowerCase name) safeValue
          | None => result
          end)
       raw result).
Proof.
  induction raw as [|[name value] rest IH]; intros result Hclean;
    [exact Hclean|].
  simpl. apply IH. apply collect_step_clean. exact Hclean.
Qed.

(** X6. Whatever headers a request carries, the record that
    [collectValidatedHeaders] builds has lower-case names, each name at
    most once and none of them [__proto__], and only values that are
    non-empty, trimmed, at most 2048 characters long and free of CR, LF
    and NUL. A later header replaces an earlier one of the same name,
    unless the name is [__proto__]: a header of that name is never
    stored, whatever its value. A header whose value is refused changes
    nothing. *)
Theorem collectValidatedHeaders_clean raw :
  Sanitized.cleanHeaders (Validation.collectValidatedHeaders raw)
  /\ (forall name value safeValue,
        JS.toLowerCase name <> "__proto__" ->
        Validation.validateHeaderValue (Some value)
          Validation.MAX_HEADER_LENGTH = Some safeValue ->
        Validation.member
          (Validation.collectValidatedHeaders (raw ++ [(name, value)]))
          (JS.toLowerCase name) = Some safeValue)
  /\ (forall name value,
        JS.toLowerCase name = "__proto__" ->
        Validation.collectValidatedHeaders (raw ++ [(name, value)])
        = Validation.collectValidatedHeaders raw)
  /\ (forall name value,
        Validation.validateHeaderValue (Some value)
          Validation.MAX_HEADER_LENGTH = None ->
        Validation.collectValidatedHeaders (raw ++ [(name, value)])
        = Validation.collectValidatedHeaders raw).
Proof.
  split; [|split; [|split]].
  - apply collect_from_clean. split; constructor.
  - intros name value safeValue Hname Hv.
    unfold Validation.collectValidatedHeaders.
    rewrite fold_left_app. simpl. rewrite Hv.
    rewrite (member_assign _ _ _ _ Hname), String.eqb_refl. reflexivity.
  - intros name value Hname.
    unfold Validation.collectValidatedHeaders.
    rewrite fold_left_app. simpl. rewrite Hname.
    destruct (Validation.validateHeaderValue _ _); [apply assign_proto|];
      reflexivity.
  - intros name value Hv.
    unfold Validation.collectValidatedHeaders.
    rewrite fold_left_app. simpl. rewrite Hv. reflexivity.
Qed.

Lemma find_lowerCase headers key :
  Forall (fun entry => Sanitized.lowerCase (fst entry)) headers ->
  find (fun e : string * string =>
          String.eqb (JS.toLowerCase (fst e)) key) headers
  = find (fun e : string * string => String.eqb (fst e) key) headers.
Proof.
  induction 1 as [|[k v] rest Hk _ IH]; simpl; [reflexivity|].
  simpl in Hk. rewrite Hk, IH. reflexivity.
Qed.

(** X7. On the headers a route works with, [getHeader] and plain
    member access under the lower-cased name return the same value, for
    every name: the adapters, which call [getHeader], and the routes,
    which read [headers["x-forwarded-for"]] directly, see the same
    forwarded-for address. *)
Theorem getHeader_collected raw name :
  Validation.getHeader (Validation.collectValidatedHeaders raw) name
  = Validation.member (Validation.collectValidatedHeaders raw)
      (JS.toLowerCase name).
Proof.
  assert (Hclean : Sanitized.cleanHeaders
                     (Validation.collectValidatedHeaders raw)).
  { apply collect_from_clean. split; constructor. }
  destruct Hclean as [_ Hall].
  unfold Validation.getHeader.
  destruct (Validation.member _ _) as [v|] eqn:Hm; [reflexivity|].
  rewrite find_lowerCase.
  - exact Hm.
  - apply List.Forall_forall. intros entry Hin.
    rewrite List.Forall_forall in Hall. apply (Hall entry Hin).
Qed.

Lemma isIPb_true isIP s : Validation.isIPb isIP s = true -> isIP s <> 0.
Proof.
  unfold Validation.isIPb. intros H%negb_true_iff. lia.
Qed.

Lemma parseForwardedFor_range isIP value :
  Validation.parseForwardedFor isIP value = "0.0.0.0"
  \/ isIP (Validation.parseForwardedFor isIP value) <> 0.
Proof.
  unfold Validation.parseForwardedFor.
  destruct (JS.falsy value); [left; reflexivity|].
  destruct (negb (JS.truthy _)); [left; reflexivity|].
  destruct (Validation.isIPb isIP (JS.trim _)) eqn:Hfirst;
    [right; apply isIPb_true; exact Hfirst|].
  destruct (JS.startsWith "[" _ && JS.includes "]" _).
  - destruct (Validation.isIPb isIP (JS.sliceFrom 1 _)) eqn:Hinner;
      [right; apply isIPb_true; exact Hinner|].
    destruct (Validation.isIPb isIP (hd "" _)) eqn:Hport;
      [right; apply isIPb_true; exact Hport | left; reflexivity].
  - destruct (Validation.isIPb isIP (hd "" _)) eqn:Hport;
      [right; apply isIPb_true; exact Hport | left; reflexivity].
Qed.

(** X8. [parseForwardedFor] returns either 0.0.0.0 or a string that
    [isIP] recognises as an address, whatever the header holds; without
    the header, or with an empty one, it returns 0.0.0.0. The anonymous
    rate-limit key is built from this value. *)
Theorem parseForwardedFor_address isIP value :
  (Validation.parseForwardedFor isIP value = "0.0.0.0"
   \/ isIP (Validation.parseForwardedFor isIP value) <> 0)
  /\ Validation.parseForwardedFor isIP None = "0.0.0.0"
  /\ Validation.parseForwardedFor isIP (Some "") = "0.0.0.0".
Proof.
  split; [apply parseForwardedFor_range | split; reflexivity].
Qed.

(** ** Cache keys and audit resources *)

Lemma validateOwnerRepo_chars value accepted :
  Validation.validateOwnerRepo value = Some accepted ->
  Sanitized.all (Sanitized.wordChar "_-") accepted = true.
Proof.
  unfold Validation.validateOwnerRepo. rewrite owner_repo_pattern.
  destruct (_ || _); [discriminate|].
  destruct (Sanitized.all _ _) eqn:Hall;
    [|rewrite andb_false_r; discriminate].
  destruct (negb _); [discriminate|]. intros [= <-]. exact Hall.
Qed.

Lemma validateAssetName_chars value accepted :
  Validation.validateAssetName value = Some accepted ->
  Sanitized.all (Sanitized.wordChar "._+() -") accepted = true.
Proof.
  unfold Validation.validateAssetName. rewrite asset_pattern.
  destruct (_ || _); [discriminate|].
  destruct (JS.includes "/" _ || _ || _); [discriminate|].
  destruct (Sanitized.all _ _) eqn:Hall;
    [|rewrite andb_false_r; discriminate].
  destruct (negb _); [discriminate|]. intros [= <-]. exact Hall.
Qed.

(** Two strings cut at the first separator agree piece by piece. *)
Lemma append_separator_inj c a : forall a' b b',
  ~ Sanitized.occurs c a -> ~ Sanitized.occurs c a' ->
  a +:+ String c b = a' +:+ String c b' -> a = a' /\ b = b'.
Proof.
  unfold Sanitized.occurs.
  induction a as [|x a IH]; intros [|y a'] b b' Ha Ha';
    rewrite ?append_nil, ?append_cons; intros Heq.
  - injection Heq as <-. split; reflexivity.
  - injection Heq as <- _. simpl in Ha'. tauto.
  - injection Heq as -> _. simpl in Ha. tauto.
  - injection Heq as <- Heq. simpl in Ha, Ha'.
    destruct (IH a' b b') as [<- <-]; [tauto | tauto | exact Heq|].
    split; reflexivity.
Qed.

(** X9. For path parameters that passed validation, the cache key of a
    release list and the cache key of an asset determine the parameters
    they were built from, and so does the resource name written to the
    audit trail: two different requests never share a cache entry, and a
    release-list key is never an asset key. *)
Theorem cache_keys_identify_request
    (p q : Server.Request) owner repo version asset owner' repo' version'
    asset' :
  Validation.validateOwnerRepo (Server.param_owner p) = Some owner ->
  Validation.validateOwnerRepo (Server.param_repo p) = Some repo ->
  Validation.validateVersion (Server.param_version p) = Some version ->
  Validation.validateAssetName (Server.param_asset p) = Some asset ->
  Validation.validateOwnerRepo (Server.param_owner q) = Some owner' ->
  Validation.validateOwnerRepo (Server.param_repo q) = Some repo' ->
  Validation.validateVersion (Server.param_version q) = Some version' ->
  Validation.validateAssetName (Server.param_asset q) = Some asset' ->
  ("releases:" +:+ owner +:+ ":" +:+ repo
   = "releases:" +:+ owner' +:+ ":" +:+ repo' ->
   owner = owner' /\ repo = repo')
  /\ ("asset:" +:+ owner +:+ ":" +:+ repo +:+ ":" +:+ version +:+ ":" +:+ asset
      = "asset:" +:+ owner' +:+ ":" +:+ repo' +:+ ":" +:+ version' +:+ ":"
        +:+ asset' ->
      owner = owner' /\ repo = repo' /\ version = version' /\ asset = asset')
  /\ "releases:" +:+ owner +:+ ":" +:+ repo
     <> "asset:" +:+ owner' +:+ ":" +:+ repo' +:+ ":" +:+ version' +:+ ":"
        +:+ asset'
  /\ (owner +:+ "/" +:+ repo +:+ "/" +:+ version +:+ "/" +:+ asset
      = owner' +:+ "/" +:+ repo' +:+ "/" +:+ version' +:+ "/" +:+ asset' ->
      owner = owner' /\ repo = repo' /\ version = version' /\ asset = asset').
Proof.
  intros Ho%validateOwnerRepo_chars Hr%validateOwnerRepo_chars
         (_ & _ & Hv)%validateVersion_chars _
         Ho'%validateOwnerRepo_chars Hr'%validateOwnerRepo_chars
         (_ & _ & Hv')%validateVersion_chars _.
  assert (Hcolon : forall punctuation s,
            Sanitized.wordChar punctuation ":" = false ->
            Sanitized.all (Sanitized.wordChar punctuation) s = true ->
            ~ Sanitized.occurs ":" s).
  { intros punctuation s Hp Hall. apply (all_not_occurs _ _ _ Hall Hp). }
  assert (Hslash : forall punctuation s,
            Sanitized.wordChar punctuation "/" = false ->
            Sanitized.all (Sanitized.wordChar punctuation) s = true ->
            ~ Sanitized.occurs "/" s).
  { intros punctuation s Hp Hall. apply (all_not_occurs _ _ _ Hall Hp). }
  split; [|split; [|split]].
  - rewrite !append_cons, !append_nil. intros [= Heq].
    apply append_separator_inj in Heq; [exact Heq | |];
      apply (Hcolon "_-"); auto.
  - rewrite !append_cons, !append_nil. intros [= Heq].
    apply append_separator_inj in Heq as [<- Heq];
      [|apply (Hcolon "_-"); auto | apply (Hcolon "_-"); auto].
    apply append_separator_inj in Heq as [<- Heq];
      [|apply (Hcolon "_-"); auto | apply (Hcolon "_-"); auto].
    apply append_separator_inj in Heq as [<- <-];
      [|apply (Hcolon "._-+"); auto | apply (Hcolon "._-+"); auto].
    repeat split.
  - rewrite !append_cons, !append_nil. discriminate.
  - rewrite !append_cons, !append_nil. intros Heq.
    apply append_separator_inj in Heq as [<- Heq];
      [|apply (Hslash "_-"); auto | apply (Hslash "_-"); auto].
    apply append_separator_inj in Heq as [<- Heq];
      [|apply (Hslash "_-"); auto | apply (Hslash "_-"); auto].
    apply append_separator_inj in Heq as [<- <-];
      [|apply (Hslash "._-+"); auto | apply (Hslash "._-+"); auto].
    repeat split.
Qed.

Lemma cache_keys_identify_request_witness :
  ("releases:" +:+ "acme" +:+ ":" +:+ "tool"
   = "releases:" +:+ "acme" +:+ ":" +:+ "tool" ->
   "acme" = "acme" /\ "tool" = "tool")
  /\ ("asset:" +:+ "acme" +:+ ":" +:+ "tool" +:+ ":" +:+ "v1.0.0" +:+ ":"
      +:+ "tool.tar.gz"
      = "asset:" +:+ "acme" +:+ ":" +:+ "tool" +:+ ":" +:+ "v1.0.0" +:+ ":"
        +:+ "tool.tar.gz" ->
      "acme" = "acme" /\ "tool" = "tool" /\ "v1.0.0" = "v1.0.0"
      /\ "tool.tar.gz" = "tool.tar.gz")
  /\ "releases:" +:+ "acme" +:+ ":" +:+ "tool"
     <> "asset:" +:+ "acme" +:+ ":" +:+ "tool" +:+ ":" +:+ "v1.0.0" +:+ ":"
        +:+ "tool.tar.gz"
  /\ ("acme" +:+ "/" +:+ "tool" +:+ "/" +:+ "v1.0.0" +:+ "/" +:+ "tool.tar.gz"
      = "acme" +:+ "/" +:+ "tool" +:+ "/" +:+ "v1.0.0" +:+ "/"
        +:+ "tool.tar.gz" ->
      "acme" = "acme" /\ "tool" = "tool" /\ "v1.0.0" = "v1.0.0"
      /\ "tool.tar.gz" = "tool.tar.gz").
Proof.
  apply (cache_keys_identify_request Sample.deviceRequest Sample.deviceRequest);
    vm_compute; reflexivity.
Defined.

(** ** Rate limiter: the read-only projections and key isolation *)

Lemma not_blocked_bound s now b :
  RateLimiter.is_blocked s now = false ->
  RateLimiter.blocked_until s = Some b ->
  b = 0 \/ b <= now.
Proof.
  unfold RateLimiter.is_blocked. intros Hblocked Hb. rewrite Hb in Hblocked.
  apply andb_false_iff in Hblocked as [H | H]; lia.
Qed.

(** X10. Right after a call that was admitted, and at the same clock
    reading, [getRemainingRequests] and [getResetTime] report exactly the
    [remaining] and [reset_at] of the verdict. *)
Theorem projections_agree_after_admission limit limits key now :
  RateLimiter.allowed (RateLimiter.consumeInternal limit limits key now).2
  = true ->
  RateLimiter.getRemainingRequests limit
    (RateLimiter.consumeInternal limit limits key now).1 key now
  = RateLimiter.remaining (RateLimiter.consumeInternal limit limits key now).2
  /\ RateLimiter.getResetTime
       (RateLimiter.consumeInternal limit limits key now).1 key now
     = RateLimiter.v_reset_at
         (RateLimiter.consumeInternal limit limits key now).2.
Proof.
  unfold RateLimiter.consumeInternal, RateLimiter.getRemainingRequests,
    RateLimiter.getResetTime.
  destruct (limits !! key) as [s|] eqn:Hk.
  - destruct (RateLimiter.is_blocked s now) eqn:Hblocked;
      [cbn; discriminate|].
    destruct (now >? RateLimiter.reset_at s) eqn:Hexp.
    + intros _. cbn [fst snd]. rewrite lookup_insert_eq.
      cbn [RateLimiter.reset_at RateLimiter.requests
           RateLimiter.blocked_until RateLimiter.remaining
           RateLimiter.v_reset_at].
      replace (now >? now + RateLimiter.window_ms) with false
        by (unfold RateLimiter.window_ms; lia).
      assert (Hsame : RateLimiter.is_blocked
                (RateLimiter.mkState 1 (now + RateLimiter.window_ms)
                   (RateLimiter.blocked_until s)
                   (Some (Z.max 0 (RateLimiter.violations_or_zero s - 1))))
                now = false) by exact Hblocked.
      rewrite Hsame. split; [reflexivity|].
      destruct (RateLimiter.blocked_until s) as [b|] eqn:Hb; [|reflexivity].
      destruct (not_blocked_bound s now b Hblocked Hb) as [-> | Hle];
        [reflexivity|].
      replace (b >? now + RateLimiter.window_ms) with false
        by (unfold RateLimiter.window_ms; lia).
      rewrite andb_false_r. reflexivity.
    + destruct (RateLimiter.requests s <? limit) eqn:Hunder;
        [|cbn; discriminate].
      intros _. cbn [fst snd]. rewrite lookup_insert_eq.
      cbn [RateLimiter.reset_at RateLimiter.requests
           RateLimiter.blocked_until RateLimiter.remaining
           RateLimiter.v_reset_at].
      rewrite Hexp.
      assert (Hsame : RateLimiter.is_blocked
                (RateLimiter.mkState (RateLimiter.requests s + 1)
                   (RateLimiter.reset_at s) (RateLimiter.blocked_until s)
                   (RateLimiter.violations s))
                now = false) by exact Hblocked.
      rewrite Hsame. split; [reflexivity|].
      destruct (RateLimiter.blocked_until s) as [b|] eqn:Hb; [|reflexivity].
      destruct (not_blocked_bound s now b Hblocked Hb) as [-> | Hle];
        [reflexivity|].
      replace (b >? RateLimiter.reset_at s) with false by lia.
      rewrite andb_false_r. reflexivity.
  - intros _. cbn [fst snd]. rewrite lookup_insert_eq.
    cbn [RateLimiter.reset_at RateLimiter.requests
         RateLimiter.blocked_until RateLimiter.remaining
         RateLimiter.v_reset_at RateLimiter.is_blocked].
    replace (now >? now + RateLimiter.window_ms) with false
      by (unfold RateLimiter.window_ms; lia).
    split; reflexivity.
Qed.

Lemma projections_agree_after_admission_witness :
  RateLimiter.getRemainingRequests 60
    (RateLimiter.consumeInternal 60 ∅ "dev-1" 1000).1 "dev-1" 1000
  = RateLimiter.remaining (RateLimiter.consumeInternal 60 ∅ "dev-1" 1000).2
  /\ RateLimiter.getResetTime
       (RateLimiter.consumeInternal 60 ∅ "dev-1" 1000).1 "dev-1" 1000
     = RateLimiter.v_reset_at (RateLimiter.consumeInternal 60 ∅ "dev-1" 1000).2.
Proof.
  apply (projections_agree_after_admission 60 ∅ "dev-1" 1000). reflexivity.
Defined.

Lemma run_other limit calls : forall limits key,
  Forall (fun call : string * Z => call.1 <> key) calls ->
  (RateLimiter.run limit limits calls).1 !! key = limits !! key.
Proof.
  induction calls as [|[k now] rest IH]; intros limits key Hother;
    [reflexivity|].
  inversion Hother as [|? ? Hk Hrest]; subst. simpl in Hk. simpl.
  pose proof (consumeInternal_other limit limits k key now Hk) as Hstep.
  destruct (RateLimiter.consumeInternal limit limits k now)
    as [limits' r].
  specialize (IH limits' key Hrest).
  destruct (RateLimiter.run limit limits' rest) as [limits'' rs].
  simpl in *. congruence.
Qed.

(** X11. Calls made under other keys never change what a key is told:
    after any sequence of calls none of which uses the key, its stored
    state, its remaining count, its reset time and the verdict of its
    next call are what they would have been without those calls. *)
Theorem limiter_keys_independent limit calls limits key now :
  Forall (fun call : string * Z => call.1 <> key) calls ->
  let limits' := (RateLimiter.run limit limits calls).1 in
  limits' !! key = limits !! key
  /\ RateLimiter.getRemainingRequests limit limits' key now
     = RateLimiter.getRemainingRequests limit limits key now
  /\ RateLimiter.getResetTime limits' key now
     = RateLimiter.getResetTime limits key now
  /\ (RateLimiter.consumeInternal limit limits' key now).2
     = (RateLimiter.consumeInternal limit limits key now).2.
Proof.
  intros Hother limits'.
  assert (Hsame : limits' !! key = limits !! key)
    by (apply run_other; exact Hother).
  split; [exact Hsame|].
  unfold RateLimiter.getRemainingRequests, RateLimiter.getResetTime,
    RateLimiter.consumeInternal.
  rewrite Hsame. split; [reflexivity|]. split; [reflexivity|].
  destruct (limits !! key) as [s|]; [|reflexivity].
  repeat case_match; reflexivity.
Qed.

Lemma limiter_keys_independent_witness :
  let limits' :=
    (RateLimiter.run 60 ∅ (replicate 61 ("dev-2", 1000))).1 in
  limits' !! "dev-1" = (∅ : gmap string RateLimiter.RateLimitState) !! "dev-1"
  /\ RateLimiter.getRemainingRequests 60 limits' "dev-1" 1000
     = RateLimiter.getRemainingRequests 60 ∅ "dev-1" 1000
  /\ RateLimiter.getResetTime limits' "dev-1" 1000
     = RateLimiter.getResetTime ∅ "dev-1" 1000
  /\ (RateLimiter.consumeInternal 60 limits' "dev-1" 1000).2
     = (RateLimiter.consumeInternal 60 ∅ "dev-1" 1000).2.
Proof.
  apply (limiter_keys_independent 60 (replicate 61 ("dev-2", 1000)) ∅
           "dev-1" 1000).
  apply List.Forall_forall. intros call Hin.
  apply list_elem_of_In, elem_of_replicate in Hin as [-> _].
  discriminate.
Defined.

(** X12. For a positive limit and any mapping the limiter can be in,
    a verdict always carries a remaining count between 0 and the limit
    minus one, 0 when the call is denied, and a reset time that is not
    before the clock reading of the call; [getRemainingRequests] is
    always between 0 and the limit. *)
Theorem verdicts_well_formed limit limits key now :
  1 <= limit -> RateLimiter.reachable limit limits ->
  let verdict := (RateLimiter.consumeInternal limit limits key now).2 in
  0 <= RateLimiter.remaining verdict <= limit - 1
  /\ (RateLimiter.allowed verdict = false -> RateLimiter.remaining verdict = 0)
  /\ now <= RateLimiter.v_reset_at verdict
  /\ (RateLimiter.allowed verdict = false ->
      now < RateLimiter.v_reset_at verdict)
  /\ 0 <= RateLimiter.getRemainingRequests limit limits key now <= limit.
Proof.
  intros Hlimit Hreach verdict. subst verdict.
  pose proof (reachable_state_ok limit limits Hlimit Hreach key) as Hok.
  unfold RateLimiter.consumeInternal, RateLimiter.getRemainingRequests.
  destruct (limits !! key) as [s|] eqn:Hk.
  - destruct (Hok s eq_refl) as [Hreq Hviol].
    destruct (RateLimiter.is_blocked s now) eqn:Hblocked.
    + cbn [snd RateLimiter.remaining RateLimiter.allowed
           RateLimiter.v_reset_at].
      unfold RateLimiter.is_blocked in Hblocked.
      destruct (RateLimiter.blocked_until s) as [b|]; [|discriminate].
      apply andb_prop in Hblocked as [_ Hlt]. cbn [default from_option id].
      destruct (now >? RateLimiter.reset_at s); repeat split; lia.
    + destruct (now >? RateLimiter.reset_at s) eqn:Hexp.
      * cbn [snd RateLimiter.remaining RateLimiter.allowed
             RateLimiter.v_reset_at RateLimiter.reset_at].
        unfold RateLimiter.window_ms.
        repeat split; try discriminate; lia.
      * destruct (RateLimiter.requests s <? limit) eqn:Hunder;
          cbn [snd RateLimiter.remaining RateLimiter.allowed
               RateLimiter.v_reset_at RateLimiter.reset_at
               RateLimiter.requests];
          unfold RateLimiter.blockMs, RateLimiter.max_block_ms,
            RateLimiter.window_ms;
          repeat split; try discriminate; lia.
  - cbn [snd RateLimiter.remaining RateLimiter.allowed
         RateLimiter.v_reset_at]. unfold RateLimiter.window_ms.
    repeat split; try discriminate; lia.
Qed.

Lemma verdicts_well_formed_witness :
  let verdict :=
    (RateLimiter.consumeInternal 60
       (RateLimiter.run 60 ∅ RateLimiter.burst_calls).1 "dev-1" 2500).2 in
  0 <= RateLimiter.remaining verdict <= 60 - 1
  /\ (RateLimiter.allowed verdict = false -> RateLimiter.remaining verdict = 0)
  /\ 2500 <= RateLimiter.v_reset_at verdict
  /\ (RateLimiter.allowed verdict = false ->
      2500 < RateLimiter.v_reset_at verdict)
  /\ 0 <= RateLimiter.getRemainingRequests 60
            (RateLimiter.run 60 ∅ RateLimiter.burst_calls).1 "dev-1" 2500
     <= 60.
Proof.
  apply (verdicts_well_formed 60
           (RateLimiter.run 60 ∅ RateLimiter.burst_calls).1 "dev-1" 2500).
  - lia.
  - apply run_reachable. constructor.
Defined.

Lemma lockout_bounded_from_start_witness :
  Forall (fun d => d <= 2 * RateLimiter.window_ms)
    (RateLimiter.lockout_durations 2 ∅
       [("dev-1", 1000); ("dev-1", 1000); ("dev-1", 1000);
        ("dev-1", 61001); ("dev-1", 61001); ("dev-1", 61001)]).
Proof.
  apply (lockout_bounded_from_start 2).
  simpl. repeat split; lia.
Defined.

(** ** Rate limiter: how many calls a key gets through *)

Lemma admissions_in_window limit key calls : forall limits s,
  limits !! key = Some s ->
  (forall now, In (key, now) calls -> now <= RateLimiter.reset_at s) ->
  0 <= Admission.admissions limit limits calls key
    <= Z.max 0 (limit - RateLimiter.requests s).
Proof.
  induction calls as [|[k now] rest IH]; intros limits s Hs Hwindow;
    [simpl; lia|].
  cbn [Admission.admissions].
  destruct (String.eqb_spec k key) as [-> | Hother].
  - assert (Hnow : now <= RateLimiter.reset_at s)
      by (apply Hwindow; left; reflexivity).
    assert (Hrest : forall t, In (key, t) rest -> t <= RateLimiter.reset_at s)
      by (intros t Ht; apply Hwindow; right; exact Ht).
    unfold RateLimiter.consumeInternal. rewrite Hs.
    destruct (RateLimiter.is_blocked s now).
    { cbn [andb RateLimiter.allowed]. specialize (IH limits s Hs Hrest). lia. }
    replace (now >? RateLimiter.reset_at s) with false by lia.
    destruct (RateLimiter.requests s <? limit) eqn:Hunder;
      cbn [andb RateLimiter.allowed].
    + match goal with
      | |- context [Admission.admissions limit ?l rest key] =>
          specialize (IH l _ (lookup_insert_eq _ _ _))
      end.
      cbn [RateLimiter.reset_at RateLimiter.requests] in IH.
      specialize (IH Hrest). lia.
    + match goal with
      | |- context [Admission.admissions limit ?l rest key] =>
          specialize (IH l _ (lookup_insert_eq _ _ _))
      end.
      cbn [RateLimiter.reset_at RateLimiter.requests] in IH.
      specialize (IH Hrest). lia.
  - pose proof (consumeInternal_other limit limits k key now Hother) as Hsame.
    destruct (RateLimiter.consumeInternal limit limits k now)
      as [limits' verdict]. cbn [fst] in Hsame. cbn [andb].
    apply (IH limits' s).
    + rewrite Hsame. exact Hs.
    + intros t Ht. apply Hwindow. right. exact Ht.
Qed.

Lemma admissions_in_span limit key from calls : forall limits,
  1 <= limit ->
  Admission.withinOneMinute from calls key ->
  0 <= Admission.admissions limit limits calls key
    <= match limits !! key with
       | Some s => Z.max 0 (limit - RateLimiter.requests s) + limit
       | None => limit
       end.
Proof.
  intros limits Hlimit. revert limits.
  induction calls as [|[k now] rest IH]; intros limits Hspan.
  { simpl. destruct (limits !! key); lia. }
  assert (Hrest : Admission.withinOneMinute from rest key)
    by (intros t Ht; apply Hspan; right; exact Ht).
  cbn [Admission.admissions].
  destruct (String.eqb_spec k key) as [-> | Hother].
  - assert (Hnow : from <= now <= from + RateLimiter.window_ms)
      by (apply Hspan; left; reflexivity).
    assert (Hlater : forall t, In (key, t) rest ->
                               t <= now + RateLimiter.window_ms).
    { intros t Ht. specialize (Hrest t Ht). lia. }
    unfold RateLimiter.consumeInternal.
    destruct (limits !! key) as [s|] eqn:Hs.
    + destruct (RateLimiter.is_blocked s now).
      { cbn [andb RateLimiter.allowed]. specialize (IH limits Hrest).
        rewrite Hs in IH. lia. }
      destruct (now >? RateLimiter.reset_at s) eqn:Hexpired;
        cbn [andb RateLimiter.allowed].
      * match goal with
        | |- context [Admission.admissions limit ?l rest key] =>
            pose proof (admissions_in_window limit key rest l _
                          (lookup_insert_eq _ _ _)) as Hwin
        end.
        cbn [RateLimiter.reset_at RateLimiter.requests] in Hwin.
        specialize (Hwin Hlater). lia.
      * destruct (RateLimiter.requests s <? limit) eqn:Hunder;
          cbn [andb RateLimiter.allowed];
          match goal with
          | |- context [Admission.admissions limit ?l rest key] =>
              specialize (IH l Hrest)
          end;
          rewrite lookup_insert_eq in IH;
          cbn [RateLimiter.requests] in IH; lia.
    + cbn [andb RateLimiter.allowed].
      match goal with
      | |- context [Admission.admissions limit ?l rest key] =>
          pose proof (admissions_in_window limit key rest l _
                        (lookup_insert_eq _ _ _)) as Hwin
      end.
      cbn [RateLimiter.reset_at RateLimiter.requests] in Hwin.
      specialize (Hwin Hlater). lia.
  - pose proof (consumeInternal_other limit limits k key now Hother) as Hsame.
    destruct (RateLimiter.consumeInternal limit limits k now)
      as [limits' verdict]. cbn [fst] in Hsame. cbn [andb].
    specialize (IH limits' Hrest). rewrite Hsame in IH. lia.
Qed.

(** X28. However calls of different keys are interleaved, and even if
    the clock goes back, a key whose calls all fall within one span of 60
    seconds gets fewer than twice the limit of them admitted: at most
    [limit] while its limiter entry is new, and at most
    [2 * limit - 1] in general, the span straddling two windows at
    worst. *)
Theorem admissions_bounded_per_minute limit limits calls key from :
  1 <= limit -> RateLimiter.reachable limit limits ->
  Admission.withinOneMinute from calls key ->
  Admission.admissions limit limits calls key <= 2 * limit - 1
  /\ (limits !! key = None ->
      Admission.admissions limit limits calls key <= limit).
Proof.
  intros Hlimit Hreach Hspan.
  pose proof (admissions_in_span limit key from calls limits Hlimit Hspan)
    as Hbound.
  pose proof (reachable_state_ok limit limits Hlimit Hreach key) as Hok.
  destruct (limits !! key) as [s|].
  - destruct (Hok s eq_refl) as [Hreq _]. split; [lia | discriminate].
  - split; [lia | intros _; lia].
Qed.

Lemma admissions_bounded_per_minute_witness :
  Admission.admissions 60 ∅
    (replicate 61 ("dev-1", 1000) ++ replicate 61 ("dev-1", 61000)) "dev-1"
  <= 2 * 60 - 1.
Proof.
  apply (admissions_bounded_per_minute 60 ∅
           (replicate 61 ("dev-1", 1000) ++ replicate 61 ("dev-1", 61000))
           "dev-1" 1000).
  - lia.
  - constructor.
  - intros now [Hin | Hin]%in_app_or;
      apply list_elem_of_In, elem_of_replicate in Hin as [[= ->] _];
      unfold RateLimiter.window_ms; lia.
Defined.

(** ** Cache manager: where entries live and how they interfere *)

Lemma list_ascii_append a b :
  list_ascii_of_string (a +:+ b)
  = list_ascii_of_string a ++ list_ascii_of_string b.
Proof.
  induction a as [|c a IH]; rewrite ?append_nil, ?append_cons; simpl;
    [reflexivity | rewrite IH; reflexivity].
Qed.

Lemma append_cancel_l p a b : p +:+ a = p +:+ b -> a = b.
Proof.
  induction p as [|c p IH]; rewrite ?append_nil, ?append_cons;
    [auto | intros [= H]; auto].
Qed.

Lemma append_cancel_r s a b : a +:+ s = b +:+ s -> a = b.
Proof.
  intros H. apply (f_equal list_ascii_of_string) in H.
  rewrite !list_ascii_append in H. apply app_inv_tail in H.
  rewrite <- (string_of_list_ascii_of_string a),
          <- (string_of_list_ascii_of_string b), H.
  reflexivity.
Qed.

Lemma splitOn_whole sep s : JS.free_of sep s -> JS.splitOn sep s = [s].
Proof.
  unfold JS.free_of. induction s as [|c s IH]; intros Hfree;
    [reflexivity|].
  simpl. rewrite (Hfree c) by (left; reflexivity).
  rewrite IH; [reflexivity|].
  intros d Hd. apply Hfree. right. exact Hd.
Qed.

Lemma join_snoc xs x :
  JS.join "/" (xs ++ [x])
  = match xs with
    | [] => x
    | _ => JS.join "/" xs +:+ "/" +:+ x
    end.
Proof.
  induction xs as [|y ys IH]; [reflexivity|].
  destruct ys as [|z zs]; [reflexivity|].
  change (JS.join "/" ((y :: z :: zs) ++ [x]))
    with (y +:+ "/" +:+ JS.join "/" ((z :: zs) ++ [x])).
  rewrite IH.
  change (JS.join "/" (y :: z :: zs))
    with (y +:+ "/" +:+ JS.join "/" (z :: zs)).
  rewrite !append_assoc. reflexivity.
Qed.

Lemma join_snoc_inj xs x y :
  JS.join "/" (xs ++ [x]) = JS.join "/" (xs ++ [y]) -> x = y.
Proof.
  rewrite !join_snoc. destruct xs; [auto|].
  intros H%append_cancel_l%append_cancel_l. exact H.
Qed.

Lemma join_snoc_nonempty xs x :
  x <> "" -> String.eqb (JS.join "/" (xs ++ [x])) "" = false.
Proof.
  intros Hx. rewrite join_snoc. apply String.eqb_neq.
  destruct xs as [|y ys]; [exact Hx|].
  intros H. apply (f_equal list_ascii_of_string) in H.
  rewrite !list_ascii_append in H.
  apply app_eq_nil in H as [_ H]. discriminate H.
Qed.

Lemma render_snoc_inj absolute segs x y :
  x <> "" -> y <> "" ->
  Path.render (absolute, segs ++ [x]) = Path.render (absolute, segs ++ [y]) ->
  x = y.
Proof.
  intros Hx Hy. unfold Path.render. destruct absolute.
  - intros H%append_cancel_l. apply (join_snoc_inj segs). exact H.
  - rewrite !join_snoc_nonempty by assumption. apply join_snoc_inj.
Qed.

Lemma hex_head digest :
  Digest.hex digest ->
  exists c rest, digest = String c rest /\ Digest.hexChar c = true.
Proof.
  intros [Hne Hall]. destruct digest as [|c rest]; [congruence|].
  exists c, rest. split; [reflexivity|].
  unfold Sanitized.all in Hall. simpl in Hall.
  apply andb_prop in Hall as [Hc _]. exact Hc.
Qed.

Lemma hexChar_plain c :
  Digest.hexChar c = true ->
  Ascii.eqb c "/" = false /\ Ascii.eqb c "." = false.
Proof.
  intros Hc. split; apply Ascii.eqb_neq; intros ->; discriminate Hc.
Qed.

(** The file name of a cache entry is an ordinary directory entry. *)
Lemma cache_file_name digest :
  Digest.hex digest ->
  Path.isAbsolute (digest +:+ ".cache") = false
  /\ String.eqb (digest +:+ ".cache") "" = false
  /\ Path.keeps (digest +:+ ".cache") = true
  /\ String.eqb (digest +:+ ".cache") ".." = false
  /\ JS.free_of Path.slash (digest +:+ ".cache").
Proof.
  intros Hhex. destruct (hex_head digest Hhex) as (c & rest & -> & Hc).
  destruct (hexChar_plain c Hc) as [Hslash Hdot].
  rewrite append_cons.
  assert (Hslash' : Ascii.eqb "/" c = false)
    by (rewrite Ascii.eqb_sym; exact Hslash).
  assert (Hdot' : Ascii.eqb c "." = false) by exact Hdot.
  split; [|split; [|split; [|split]]].
  - unfold Path.isAbsolute. cbn [JS.startsWith]. rewrite Hslash'. reflexivity.
  - reflexivity.
  - unfold Path.keeps. cbn [String.eqb orb]. rewrite Hdot'. reflexivity.
  - cbn [String.eqb]. rewrite Hdot'. reflexivity.
  - intros d Hd. change (String c (rest +:+ ".cache"))
      with (String c rest +:+ ".cache") in Hd.
    rewrite list_ascii_append in Hd. apply in_app_or in Hd as [Hd | Hd].
    + destruct Hhex as [_ Hall]. unfold Sanitized.all in Hall.
      rewrite forallb_forall in Hall. specialize (Hall d Hd).
      unfold Path.slash. apply (hexChar_plain d Hall).
    + simpl in Hd. unfold Path.slash.
      repeat (destruct Hd as [<- | Hd]; [reflexivity|]). destruct Hd.
Qed.

Lemma getCachePath_explicit cwd sha256_hex cm key :
  Digest.hex (sha256_hex key) ->
  Cache.getCachePath cwd sha256_hex cm key
  = Path.render
      ((Path.resolveParts cwd "" (Cache.cacheDir cm)).1,
       (Path.resolveParts cwd "" (Cache.cacheDir cm)).2
       ++ [sha256_hex key +:+ ".cache"]).
Proof.
  intros Hhex.
  destruct (cache_file_name _ Hhex) as (Habs & Hne & Hkeeps & Hdots & Hfree).
  unfold Cache.getCachePath, Path.resolve. f_equal.
  rewrite resolveParts_below.
  - rewrite (splitOn_whole _ _ Hfree). simpl. rewrite Hkeeps. reflexivity.
  - exact Habs.
  - exact Hne.
  - rewrite (splitOn_whole _ _ Hfree). intros seg [<- | []]. exact Hdots.
Qed.

(** X14. Whatever the key, the file of a cache entry sits directly in
    the resolved cache directory: its path is the directory's segments
    followed by the single entry name made of the key's hexadecimal
    digest and [.cache]. A key containing slashes or dots cannot
    address a file elsewhere. *)
Theorem cache_files_in_cache_dir cwd sha256_hex cm key :
  Digest.hex (sha256_hex key) ->
  Cache.getCachePath cwd sha256_hex cm key
  = Path.render
      ((Path.resolveParts cwd "" (Cache.cacheDir cm)).1,
       (Path.resolveParts cwd "" (Cache.cacheDir cm)).2
       ++ [sha256_hex key +:+ ".cache"])
  /\ Path.entryName (sha256_hex key +:+ ".cache")
  /\ Path.under cwd (Cache.cacheDir cm)
       (Cache.getCachePath cwd sha256_hex cm key).
Proof.
  intros Hhex.
  destruct (cache_file_name _ Hhex) as (Habs & Hne & Hkeeps & Hdots & Hfree).
  assert (Hentry : Path.entryName (sha256_hex key +:+ ".cache"))
    by (split; [|split]; assumption).
  split; [apply getCachePath_explicit; exact Hhex|].
  split; [exact Hentry|].
  exists [sha256_hex key +:+ ".cache"]. split.
  - constructor; [exact Hentry | constructor].
  - apply getCachePath_explicit. exact Hhex.
Qed.

Lemma cache_files_in_cache_dir_witness :
  Cache.getCachePath "/srv/gitgate" Codec.digest Sample.cacheManager
    "asset:acme:tool:v1.0.0:../../etc/passwd"
  = Path.render
      ((Path.resolveParts "/srv/gitgate" ""
          (Cache.cacheDir Sample.cacheManager)).1,
       (Path.resolveParts "/srv/gitgate" ""
          (Cache.cacheDir Sample.cacheManager)).2
       ++ [Codec.digest "asset:acme:tool:v1.0.0:../../etc/passwd"
           +:+ ".cache"])
  /\ Path.entryName
       (Codec.digest "asset:acme:tool:v1.0.0:../../etc/passwd" +:+ ".cache")
  /\ Path.under "/srv/gitgate" (Cache.cacheDir Sample.cacheManager)
       (Cache.getCachePath "/srv/gitgate" Codec.digest Sample.cacheManager
          "asset:acme:tool:v1.0.0:../../etc/passwd").
Proof.
  apply (cache_files_in_cache_dir "/srv/gitgate" Codec.digest
           Sample.cacheManager "asset:acme:tool:v1.0.0:../../etc/passwd").
  split; [vm_compute; discriminate | vm_compute; reflexivity].
Defined.

Lemma getCachePath_inj cwd sha256_hex cm key key' :
  Digest.hex (sha256_hex key) -> Digest.hex (sha256_hex key') ->
  Cache.getCachePath cwd sha256_hex cm key
  = Cache.getCachePath cwd sha256_hex cm key' ->
  sha256_hex key = sha256_hex key'.
Proof.
  intros Hhex Hhex'.
  rewrite (getCachePath_explicit _ _ _ _ Hhex),
          (getCachePath_explicit _ _ _ _ Hhex').
  destruct (cache_file_name _ Hhex) as (_ & Hne%String.eqb_neq & _).
  destruct (cache_file_name _ Hhex') as (_ & Hne'%String.eqb_neq & _).
  intros H%render_snoc_inj; [|assumption|assumption].
  apply (append_cancel_r ".cache"). exact H.
Qed.

Section CacheFrame.

Variable cwd : string.
Variable sha256_hex : string -> string.
Variable base64_encode : Cache.Buffer -> string.
Variable base64_decode : string -> Cache.Buffer.
Variable json_stringify : Cache.CacheEntry -> string.
Variable json_parse : string -> option Cache.CacheEntry.

Local Abbreviation get := (Cache.get cwd sha256_hex base64_decode json_parse).
Local Abbreviation set :=
  (Cache.set cwd sha256_hex base64_encode json_stringify).
Local Abbreviation getChecksum :=
  (Cache.getChecksum cwd sha256_hex json_parse).
Local Abbreviation clear := (Cache.clear cwd sha256_hex).
Local Abbreviation getCachePath := (Cache.getCachePath cwd sha256_hex).

(** X15. Entries of keys with different digests do not interfere:
    storing or clearing one key changes neither the bytes nor the
    checksum reported for the other, at any time and whether or not the
    disk operations succeed. *)
Theorem cache_entries_independent cm files key key' payload now now'
    write_ok read_ok :
  Digest.hex (sha256_hex key) -> Digest.hex (sha256_hex key') ->
  sha256_hex key <> sha256_hex key' ->
  get cm (set cm files key payload now write_ok) key' now' read_ok
  = get cm files key' now' read_ok
  /\ getChecksum cm (set cm files key payload now write_ok) key' now' read_ok
     = getChecksum cm files key' now' read_ok
  /\ get cm (clear cm files key write_ok) key' now' read_ok
     = get cm files key' now' read_ok
  /\ getChecksum cm (clear cm files key write_ok) key' now' read_ok
     = getChecksum cm files key' now' read_ok.
Proof.
  intros Hhex Hhex' Hne.
  assert (Hpath : getCachePath cm key <> getCachePath cm key').
  { intros H. apply Hne. apply (getCachePath_inj cwd sha256_hex cm); auto. }
  assert (Hset : set cm files key payload now write_ok !! getCachePath cm key'
                 = files !! getCachePath cm key').
  { unfold Cache.set. destruct write_ok; [|reflexivity].
    apply lookup_insert_ne. exact Hpath. }
  assert (Hclear : clear cm files key write_ok !! getCachePath cm key'
                   = files !! getCachePath cm key').
  { unfold Cache.clear. destruct (files !! getCachePath cm key);
      [|reflexivity].
    destruct write_ok; [|reflexivity]. apply lookup_insert_ne. exact Hpath. }
  unfold Cache.get, Cache.getChecksum. rewrite Hset, Hclear.
  repeat split.
Qed.

Hypothesis json_parse_empty : json_parse "" = None.

(** X16. [clear] does not delete: it leaves an empty file behind, which
    [get] and [getChecksum] report as absent; it creates no file for a
    key that has none, and no path appears in or disappears from the
    directory. *)
Theorem clear_hides_entry cm files key now read_ok write_ok :
  get cm (clear cm files key true) key now read_ok = None
  /\ getChecksum cm (clear cm files key true) key now read_ok = None
  /\ (is_Some (files !! getCachePath cm key) ->
      clear cm files key true !! getCachePath cm key = Some "")
  /\ (files !! getCachePath cm key = None ->
      clear cm files key write_ok = files)
  /\ (forall path,
        is_Some (clear cm files key write_ok !! path)
        <-> is_Some (files !! path)).
Proof.
  unfold Cache.get, Cache.getChecksum, Cache.clear.
  destruct (files !! getCachePath cm key) as [content|] eqn:Hfile.
  - rewrite lookup_insert_eq. destruct read_ok; simpl;
      rewrite ?json_parse_empty;
      (split; [reflexivity|]); (split; [reflexivity|]);
      (split; [reflexivity|]); (split; [discriminate|]);
      intros path; destruct write_ok; try reflexivity;
      (destruct (decide (getCachePath cm key = path)) as [<- | Hne];
       [rewrite lookup_insert_eq, Hfile; split; eauto
       |rewrite lookup_insert_ne by assumption; reflexivity]).
  - rewrite Hfile. split; [reflexivity|]. split; [reflexivity|].
    split; [intros [? ?]; discriminate|]. split; [reflexivity|].
    reflexivity.
Qed.

End CacheFrame.

Lemma cache_entries_independent_witness :
  let get :=
    Cache.get "/srv/gitgate" Codec.digest Codec.base64_decode Codec.json_parse
              Sample.cacheManager in
  let getChecksum :=
    Cache.getChecksum "/srv/gitgate" Codec.digest Codec.json_parse
                      Sample.cacheManager in
  let set :=
    Cache.set "/srv/gitgate" Codec.digest Codec.base64_encode
              Codec.json_stringify Sample.cacheManager in
  let clear := Cache.clear "/srv/gitgate" Codec.digest Sample.cacheManager in
  let files := set ∅ "releases:acme:tool" "[releases]" 1000 true in
  get (set files "asset:acme:tool:v1.0.0:tool.tar.gz" "tool bytes" 2000 true)
      "releases:acme:tool" 3000 true
  = get files "releases:acme:tool" 3000 true
  /\ getChecksum
       (set files "asset:acme:tool:v1.0.0:tool.tar.gz" "tool bytes" 2000 true)
       "releases:acme:tool" 3000 true
     = getChecksum files "releases:acme:tool" 3000 true
  /\ get (clear files "asset:acme:tool:v1.0.0:tool.tar.gz" true)
         "releases:acme:tool" 3000 true
     = get files "releases:acme:tool" 3000 true
  /\ getChecksum (clear files "asset:acme:tool:v1.0.0:tool.tar.gz" true)
       "releases:acme:tool" 3000 true
     = getChecksum files "releases:acme:tool" 3000 true.
Proof.
  intros get getChecksum set clear files.
  apply (cache_entries_independent "/srv/gitgate" Codec.digest
           Codec.base64_encode Codec.base64_decode Codec.json_stringify
           Codec.json_parse Sample.cacheManager files
           "asset:acme:tool:v1.0.0:tool.tar.gz" "releases:acme:tool"
           "tool bytes" 2000 3000 true true).
  - split; [vm_compute; discriminate | vm_compute; reflexivity].
  - split; [vm_compute; discriminate | vm_compute; reflexivity].
  - vm_compute. discriminate.
Defined.

Lemma clear_hides_entry_witness :
  let files :=
    Cache.set "/srv/gitgate" Codec.digest Codec.base64_encode
              Codec.json_stringify Sample.cacheManager ∅
              "releases:acme:tool" "[releases]" 1000 true in
  let cleared :=
    Cache.clear "/srv/gitgate" Codec.digest Sample.cacheManager files
                "releases:acme:tool" true in
  Cache.get "/srv/gitgate" Codec.digest Codec.base64_decode Codec.json_parse
            Sample.cacheManager cleared "releases:acme:tool" 1500 true = None
  /\ cleared !! Cache.getCachePath "/srv/gitgate" Codec.digest
                  Sample.cacheManager "releases:acme:tool" = Some "".
Proof.
  intros files cleared.
  destruct (clear_hides_entry "/srv/gitgate" Codec.digest Codec.base64_decode
              Codec.json_parse codec_json_parse_empty Sample.cacheManager
              files "releases:acme:tool" 1500 true true)
    as (Hget & _ & Hfile & _).
  split; [exact Hget|]. apply Hfile. subst files. unfold Cache.set.
  rewrite lookup_insert_eq. eauto.
Defined.

(** ** Trust adapters: what an established identity guarantees *)

Lemma validateDeviceId_fixed value deviceId :
  Validation.validateDeviceId value = Some deviceId ->
  deviceId = JS.trim (default "" value)
  /\ Validation.validateDeviceId (Some deviceId) = Some deviceId.
Proof.
  unfold Validation.validateDeviceId.
  destruct (JS.falsy value); [discriminate|].
  destruct (_ || _) eqn:Hlen; [discriminate|].
  destruct (negb _) eqn:Hpat; [discriminate|].
  intros [= <-]. split; [reflexivity|].
  pose proof Hlen as Hlen'. apply orb_false_elim in Hlen' as [Hzero _].
  rewrite (falsy_trimmed _ Hzero). cbn [default from_option id].
  rewrite trim_idem, Hlen, Hpat. reflexivity.
Qed.

Lemma validateDeviceHeader_trimmed value device :
  Validation.validateDeviceHeader value = Some device -> JS.trim device = device.
Proof.
  unfold Validation.validateDeviceHeader.
  destruct (Validation.validateHeaderValue value _) as [header|] eqn:Hv;
    [|discriminate].
  destruct (negb _ || _); [discriminate|]. intros [= <-].
  destruct (validateHeaderValue_fixed _ _ _ Hv) as [-> _]. apply trim_idem.
Qed.

Lemma asString_Some v s : Http.asString v = Some s -> v = Some (Http.JStr s).
Proof. destruct v as [[]|]; simpl; congruence. Qed.

(** X17. When [authenticateJamf] returns an identity, a well-formed
    token header was presented, the identity API answered with a 2xx
    status and a JSON object whose [device_id] is a string, and the
    identity carries that string trimmed, which [validateDeviceId]
    accepts as it is; the method is jamf, the time stamp is the clock
    reading, and the address is the one [parseForwardedFor] derives from
    the request, hence 0.0.0.0 or an address [isIP] recognises. *)
Theorem jamf_identity isIP parseURL fetch headers config now device :
  Jamf.authenticateJamf isIP parseURL fetch headers config now
  = Returned (Some device) ->
  auth_method device = "jamf"
  /\ dc_timestamp device = now
  /\ Validation.validateDeviceId (Some (device_id device))
     = Some (device_id device)
  /\ ip_address device
     = Validation.parseForwardedFor isIP
         (Validation.getHeader headers "x-forwarded-for")
  /\ (ip_address device = "0.0.0.0" \/ isIP (ip_address device) <> 0)
  /\ exists token url data raw,
       Validation.validateTokenHeader
         (Validation.getHeader headers "x-jamf-token") = Some token
       /\ Validation.validateHttpsUrl parseURL (config ≫= Jamf.api_url)
          = Some url
       /\ fetch (Jamf.tokenRequest token url) = Http.Responds true (Some data)
       /\ Http.member data "device_id" = Some (Some (Http.JStr raw))
       /\ device_id device = JS.trim raw.
Proof.
  unfold Jamf.authenticateJamf.
  destruct (Validation.validateTokenHeader _) as [token|] eqn:Htoken;
    [|discriminate].
  destruct (Validation.validateHttpsUrl _ _) as [url|] eqn:Hurl;
    [|discriminate].
  destruct (_ || _); [discriminate|].
  unfold Jamf.exchange, Http.fetchWithTimeout.
  destruct (parseURL _) as [parsed|]; [|discriminate].
  destruct (negb (String.eqb _ _)); [discriminate|].
  destruct (fetch _) as [|ok body] eqn:Hfetch; [discriminate|].
  destruct ok; cbn [negb]; [|discriminate].
  destruct body as [data|]; [|discriminate].
  destruct (Http.member data "device_id") as [deviceIdRaw|] eqn:Hid;
    [|discriminate].
  destruct (Http.member data "device_name") as [deviceNameRaw|];
    [|discriminate].
  destruct (Http.member data "user_id") as [userIdRaw|]; [|discriminate].
  destruct (Validation.validateDeviceId _) as [deviceId|] eqn:Hdev;
    [|discriminate].
  intros [= <-]. cbn [auth_method dc_timestamp device_id ip_address].
  destruct (validateDeviceId_fixed _ _ Hdev) as [Htrim Hfixed].
  split; [reflexivity|]. split; [reflexivity|]. split; [exact Hfixed|].
  split; [reflexivity|]. split; [apply parseForwardedFor_range|].
  destruct (Http.asString deviceIdRaw) as [raw|] eqn:Hraw.
  - apply asString_Some in Hraw. subst deviceIdRaw.
    exists token, url, data, raw. repeat split; assumption.
  - unfold Validation.validateDeviceId in Hdev. discriminate Hdev.
Qed.

Lemma findDevice_found items tsDevice device :
  Tailscale.findDevice items tsDevice = Some (Some device) ->
  In device items
  /\ Http.member device "id" = Some (Some (Http.JStr tsDevice)).
Proof.
  induction items as [|d rest IH]; simpl; [discriminate|].
  destruct (Http.member d "id") as [[[]|]|] eqn:Hid; try discriminate;
    try (intros H; destruct (IH H); split; [right|]; assumption).
  destruct (String.eqb s tsDevice) eqn:Heq.
  - apply String.eqb_eq in Heq. subst s. intros [= <-].
    split; [left; reflexivity | exact Hid].
  - intros H. destruct (IH H). split; [right|]; assumption.
Qed.

(** X18. When [authenticateTailscale] returns an identity, its
    [device_id] is the sanitized x-tailscale-device header and its
    [user_id] the sanitized x-tailscale-user header; the device
    directory answered with a 2xx status and a [devices] array that
    lists an entry whose [id] is that very device identifier; the method
    is tailscale, and the address is 0.0.0.0 or an address [isIP]
    recognises. *)
Theorem tailscale_identity isIP parseURL fetch headers apiKeyRaw now device :
  Tailscale.authenticateTailscale isIP parseURL fetch headers apiKeyRaw now
  = Returned (Some device) ->
  auth_method device = "tailscale"
  /\ dc_timestamp device = now
  /\ Validation.validateDeviceHeader
       (Validation.getHeader headers "x-tailscale-device")
     = Some (device_id device)
  /\ Validation.validateUserHeader
       (Validation.getHeader headers "x-tailscale-user")
     = user_id device
  /\ (ip_address device = "0.0.0.0" \/ isIP (ip_address device) <> 0)
  /\ exists apiKey data items entry,
       Validation.validateTokenHeader apiKeyRaw = Some apiKey
       /\ fetch (Tailscale.devicesRequest apiKey)
          = Http.Responds true (Some data)
       /\ Http.member data "devices" = Some (Some (Http.JArr items))
       /\ In entry items
       /\ Http.member entry "id"
          = Some (Some (Http.JStr (device_id device))).
Proof.
  unfold Tailscale.authenticateTailscale.
  destruct (Validation.validateUserHeader _) as [user|] eqn:Huser;
    [|discriminate].
  destruct (Validation.validateDeviceHeader _) as [tsDevice|] eqn:Hdevice;
    [|discriminate].
  destruct (Validation.validateTokenHeader apiKeyRaw) as [apiKey|] eqn:Hkey;
    [|discriminate].
  unfold Tailscale.lookup, Http.fetchWithTimeout.
  destruct (parseURL _) as [parsed|]; [|discriminate].
  destruct (negb (String.eqb _ _)); [discriminate|].
  destruct (fetch _) as [|ok body] eqn:Hfetch; [discriminate|].
  destruct ok; cbn [negb]; [|discriminate].
  destruct body as [data|]; [|discriminate].
  destruct (Http.member data "devices") as [devices|] eqn:Hdevices;
    [|discriminate].
  destruct (Http.falsy devices); [discriminate|].
  destruct devices as [[| | | |items|]|]; try discriminate.
  destruct (Tailscale.findDevice items tsDevice) as [[entry|]|] eqn:Hfind;
    try discriminate.
  destruct (Validation.validateDeviceId (Some tsDevice)) as [deviceId|]
    eqn:Hid; [|discriminate].
  destruct (Http.member entry "name") as [name|]; [|discriminate].
  intros [= <-]. cbn [auth_method dc_timestamp device_id ip_address user_id].
  assert (HdeviceId : deviceId = tsDevice).
  { rewrite (validateDeviceId_trim _ _ Hid).
    apply (validateDeviceHeader_trimmed _ _ Hdevice). }
  subst deviceId.
  destruct (findDevice_found _ _ _ Hfind) as [Hin Hentry].
  split; [reflexivity|]. split; [reflexivity|]. split; [reflexivity|].
  split; [reflexivity|]. split.
  - destruct (Validation.validateIpAddress isIP _) as [ip|] eqn:Hip;
      [|apply parseForwardedFor_range].
    unfold JS.orElse. destruct (JS.truthy ip);
      [|apply parseForwardedFor_range].
    right. cbn [default from_option id].
    unfold Validation.validateIpAddress in Hip.
    destruct (JS.falsy _); [discriminate|].
    destruct (Validation.isIPb isIP _) eqn:Hok; [|discriminate].
    injection Hip as <-. apply isIPb_true. exact Hok.
  - exists apiKey, data, items, entry. repeat split; assumption.
Qed.

Lemma jamf_identity_witness :
  Validation.validateDeviceId (Some (device_id SampleUpstream.jamfDevice))
  = Some (device_id SampleUpstream.jamfDevice)
  /\ (ip_address SampleUpstream.jamfDevice = "0.0.0.0"
      \/ Sample.isIP (ip_address SampleUpstream.jamfDevice) <> 0).
Proof.
  destruct (jamf_identity Sample.isIP Sample.parseURL
              SampleUpstream.jamfFetch Sample.jamfHeaders Sample.jamfConfig
              1000 SampleUpstream.jamfDevice)
    as (_ & _ & Hid & _ & Hip & _).
  - vm_compute. reflexivity.
  - split; [exact Hid | exact Hip].
Defined.

Lemma tailscale_identity_witness :
  Validation.validateDeviceHeader
    (Validation.getHeader Sample.tailscaleHeaders "x-tailscale-device")
  = Some (device_id SampleUpstream.tailscaleDevice)
  /\ exists apiKey data items entry,
       Validation.validateTokenHeader (Some "tskey-api-123") = Some apiKey
       /\ SampleUpstream.tailscaleFetch (Tailscale.devicesRequest apiKey)
          = Http.Responds true (Some data)
       /\ Http.member data "devices" = Some (Some (Http.JArr items))
       /\ In entry items
       /\ Http.member entry "id"
          = Some (Some (Http.JStr (device_id SampleUpstream.tailscaleDevice))).
Proof.
  destruct (tailscale_identity Sample.isIP Sample.parseURL
              SampleUpstream.tailscaleFetch Sample.tailscaleHeaders
              (Some "tskey-api-123") 1000 SampleUpstream.tailscaleDevice)
    as (_ & _ & Hdevice & _ & _ & Hlisted).
  - vm_compute. reflexivity.
  - split; [exact Hdevice | exact Hlisted].
Defined.

(** ** Configuration *)

Lemma resolveSafePath_absolute cwd baseDir inputPath resolved :
  Validation.resolveSafePath cwd baseDir inputPath = Some resolved ->
  Path.isAbsolute resolved = true.
Proof.
  unfold Validation.resolveSafePath.
  destruct (_ || _); [discriminate|].
  destruct (JS.includes _ _); [discriminate|].
  destruct (Validation.hasDotDot _); [discriminate|].
  destruct (negb (Path.isAbsolute _)) eqn:Habs; [discriminate|].
  destruct (_ && _); [discriminate|].
  intros [= <-]. apply negb_false_iff. exact Habs.
Qed.


Lemma require_returns ok message c c' :
  Config.require ok message c = (None, c') -> c' = c /\ ok c = true.
Proof.
  unfold Config.require. destruct (ok c); [|discriminate].
  intros [= <-]. split; reflexivity.
Qed.

Lemma resolvePath_returns cwd path message update c c' :
  Config.resolvePath cwd path message update c = (None, c') ->
  exists resolved,
    Validation.resolveSafePath cwd cwd path = Some resolved
    /\ Path.isAbsolute resolved = true
    /\ c' = update resolved c.
Proof.
  unfold Config.resolvePath.
  destruct (Validation.resolveSafePath cwd cwd path) as [resolved|] eqn:Hr;
    [|discriminate].
  intros [= <-]. exists resolved. split; [reflexivity|].
  split; [apply (resolveSafePath_absolute _ _ _ _ Hr) | reflexivity].
Qed.

Lemma andThen_returns first next c c' :
  Config.andThen first next c = (None, c') ->
  exists middle, first c = (None, middle) /\ next middle = (None, c').
Proof.
  unfold Config.andThen. destruct (first c) as [[message|] middle];
    [discriminate|].
  intros H. exists middle. split; [reflexivity | exact H].
Qed.

(** The run of [validateConfig] when it returns: the configuration
    after each of the checks that can update it. *)
Lemma validateConfig_returns cwd parseURL c c' :
  Config.validateConfig cwd parseURL c = (None, c') ->
  exists c1 c2 c3 c4 c5,
    Config.checkPort c = (None, c)
    /\ Config.checkHost c = (None, c)
    /\ Config.checkToken c = (None, c)
    /\ Config.checkCacheDir cwd c = (None, c1)
    /\ Config.checkMethod c1 = (None, c1)
    /\ Config.checkJamf parseURL c1 = (None, c2)
    /\ Config.checkTailscale c2 = (None, c2)
    /\ Config.checkMtls cwd c2 = (None, c3)
    /\ Config.checkSigning cwd c3 = (None, c4)
    /\ Config.checkAudit cwd c4 = (None, c5)
    /\ Config.checkOrigins parseURL c5 = (None, c').
Proof.
  unfold Config.validateConfig.
  intros (a1 & H1 & H)%andThen_returns.
  apply andThen_returns in H as (a2 & H2 & H).
  apply andThen_returns in H as (a3 & H3 & H).
  apply andThen_returns in H as (c1 & H4 & H).
  apply andThen_returns in H as (a5 & H5 & H).
  apply andThen_returns in H as (c2 & H6 & H).
  apply andThen_returns in H as (a7 & H7 & H).
  apply andThen_returns in H as (c3 & H8 & H).
  apply andThen_returns in H as (c4 & H9 & H).
  apply andThen_returns in H as (c5 & H10 & H).
  apply andThen_returns in H as (c6 & H11 & H).
  injection H as <-.
  pose proof H1 as [-> _]%require_returns.
  pose proof H2 as [-> _]%require_returns.
  pose proof H3 as [-> _]%require_returns.
  pose proof H5 as [-> _]%require_returns.
  assert (a7 = c2) as ->.
  { unfold Config.checkTailscale in H7.
    repeat case_match; congruence. }
  exists c1, c2, c3, c4, c5. repeat split; assumption.
Qed.

Lemma falsy_false_Some (value : option string) :
  JS.falsy value = false -> exists s, value = Some s /\ s <> "".
Proof.
  destruct value as [[|c s]|]; try discriminate. intros _.
  eexists. split; [reflexivity | discriminate].
Qed.

Lemma absolute_nonempty path : Path.isAbsolute path = true -> path <> "".
Proof. intros H ->. discriminate H. Qed.

Ltac config_case c :=
  destruct c as [? ? ? [[? [[? ? ?]|] ? ?]|] ? ? ?].



Lemma checkMtls_returns cwd c c3 :
  Config.checkMtls cwd c = (None, c3) ->
  Config.port c3 = Config.port c /\ Config.host c3 = Config.host c
  /\ Config.github c3 = Config.github c
  /\ Config.methodOf c3 = Config.methodOf c
  /\ Config.jamfOf c3 = Config.jamfOf c
  /\ Config.tailscaleKeyOf c3 = Config.tailscaleKeyOf c
  /\ Config.signing c3 = Config.signing c
  /\ Config.audit c3 = Config.audit c
  /\ Config.security c3 = Config.security c
  /\ (Config.methodIs "mtls" c3 = true ->
      exists path, Config.caCertPathOf c3 = Some path
                   /\ Path.isAbsolute path = true).
Proof.
  unfold Config.checkMtls.
  destruct (Config.methodIs "mtls" c) eqn:Hmtls.
  - destruct (JS.falsy _) eqn:Hset; [discriminate|].
    intros (path & _ & Habs & ->)%resolvePath_returns.
    apply falsy_false_Some in Hset as (old & Hold & _).
    unfold Config.methodIs, Config.methodOf, Config.jamfOf,
      Config.tailscaleKeyOf, Config.caCertPathOf, Config.set_ca_cert_path
      in *.
    destruct (Config.auth c) as [a|]; [|discriminate Hold]. cbn in *.
    destruct (Config.mtls a) as [m|]; [|discriminate Hold]. cbn in *.
    repeat (split; [reflexivity|]). intros _.
    exists path. split; [reflexivity | exact Habs].
  - intros [= <-]. repeat (split; [reflexivity|]).
    rewrite Hmtls. discriminate.
Qed.

Lemma checkSigning_returns cwd c c4 :
  Config.checkSigning cwd c = (None, c4) ->
  Config.port c4 = Config.port c /\ Config.host c4 = Config.host c
  /\ Config.github c4 = Config.github c /\ Config.auth c4 = Config.auth c
  /\ Config.audit c4 = Config.audit c
  /\ Config.security c4 = Config.security c
  /\ (forall s, Config.signing c4 = Some s ->
      Config.signing_enabled s = true ->
      Config.absoluteIfSet (Config.private_key_path s)).
Proof.
  unfold Config.checkSigning.
  destruct (Config.signing c) as [s|] eqn:Hs.
  - destruct (_ && _) eqn:Hon.
    + intros (path & _ & Habs & ->)%resolvePath_returns.
      unfold Config.set_private_key_path. rewrite Hs. cbn.
      repeat (split; [reflexivity|]).
      intros s' [= <-] _ p [= <-] _. exact Habs.
    + intros [= <-]. repeat (split; [reflexivity|]).
      rewrite Hs. intros s' [= <-] Hen.
      rewrite Hen in Hon. cbn in Hon. apply negb_false_iff in Hon.
      intros p Hp Hne. rewrite Hp in Hon. destruct p; [congruence|].
      discriminate Hon.
  - intros [= <-]. repeat (split; [reflexivity|]).
    rewrite Hs. discriminate.
Qed.

Lemma checkAudit_returns cwd c c5 :
  Config.checkAudit cwd c = (None, c5) ->
  Config.port c5 = Config.port c /\ Config.host c5 = Config.host c
  /\ Config.github c5 = Config.github c /\ Config.auth c5 = Config.auth c
  /\ Config.signing c5 = Config.signing c
  /\ Config.security c5 = Config.security c
  /\ Config.absoluteIfSet (Config.logFileOf c5).
Proof.
  unfold Config.checkAudit.
  destruct (JS.falsy (Config.logFileOf c)) eqn:Hset.
  - intros [= <-]. repeat (split; [reflexivity|]).
    intros p Hp Hne. rewrite Hp in Hset.
    destruct p; [congruence | discriminate Hset].
  - intros (path & _ & Habs & ->)%resolvePath_returns.
    apply falsy_false_Some in Hset as (old & Hold & _).
    unfold Config.logFileOf, Config.set_log_file in *.
    destruct (Config.audit c) as [a|]; [|discriminate Hold]. cbn.
    repeat (split; [reflexivity|]). intros p [= <-] _. exact Habs.
Qed.

Lemma checkOrigins_returns parseURL c c' :
  Config.checkOrigins parseURL c = (None, c') ->
  Config.port c' = Config.port c /\ Config.host c' = Config.host c
  /\ Config.github c' = Config.github c /\ Config.auth c' = Config.auth c
  /\ Config.signing c' = Config.signing c
  /\ Config.audit c' = Config.audit c
  /\ (forall origins,
        Config.originsOf c' = Some origins ->
        Forall (fun origin =>
                  is_Some (Validation.validateHttpsUrl parseURL (Some origin)))
               origins).
Proof.
  unfold Config.checkOrigins.
  destruct (Config.originsOf c) as [origins|] eqn:Ho.
  - intros [= <-]. unfold Config.originsOf, Config.set_allowed_origins in *.
    destruct (Config.security c) as [[[[o cr]|]]|]; try discriminate Ho.
    cbn. repeat (split; [reflexivity|]). intros kept [= <-].
    apply List.Forall_forall. intros origin [_ Hok]%filter_In.
    destruct (Validation.validateHttpsUrl parseURL (Some origin));
      [eauto | discriminate].
  - intros [= <-]. repeat (split; [reflexivity|]).
    rewrite Ho. discriminate.
Qed.

Lemma methodIs_same name c c' :
  Config.methodOf c' = Config.methodOf c ->
  Config.methodIs name c' = Config.methodIs name c.
Proof. unfold Config.methodIs. intros ->. reflexivity. Qed.

Lemma auth_views c c' :
  Config.auth c' = Config.auth c ->
  Config.methodOf c' = Config.methodOf c
  /\ Config.jamfOf c' = Config.jamfOf c
  /\ Config.tailscaleKeyOf c' = Config.tailscaleKeyOf c
  /\ Config.caCertPathOf c' = Config.caCertPathOf c.
Proof.
  unfold Config.methodOf, Config.jamfOf, Config.tailscaleKeyOf,
    Config.caCertPathOf. intros ->. repeat split.
Qed.



Lemma validateConfig_mtls_path cwd parseURL c c' :
  Config.validateConfig cwd parseURL c = (None, c') ->
  Config.methodIs "mtls" c' = true ->
  exists path, Config.caCertPathOf c' = Some path
               /\ Path.isAbsolute path = true.
Proof.
  intros (c1 & c2 & c3 & c4 & c5 & _ & _ & _ & _ & _ & _ & _ & Hmtls & Hsign
          & Haudit & Horigins)%validateConfig_returns.
  apply checkMtls_returns in Hmtls as (_ & _ & _ & _ & _ & _ & _ & _ & _ & Hmtls).
  apply checkSigning_returns in Hsign as (_ & _ & _ & A4 & _).
  apply checkAudit_returns in Haudit as (_ & _ & _ & A5 & _).
  apply checkOrigins_returns in Horigins as (_ & _ & _ & A6 & _).
  destruct (auth_views _ _ A6) as (M6 & _ & _ & C6).
  destruct (auth_views _ _ A5) as (M5 & _ & _ & C5).
  destruct (auth_views _ _ A4) as (M4 & _ & _ & C4).
  rewrite (methodIs_same "mtls" c3 c') by congruence.
  rewrite C6, C5, C4. exact Hmtls.
Qed.

(** X20. A configuration that [validateConfig] has accepted for the
    mtls method never makes [authenticateMTLS] throw: called with the
    validated CA certificate path it returns, an identity or null,
    whatever the certificate, the files and the clock are. *)
Theorem validated_mtls_never_throws cwd parseURL c c' readFile
    parseCertificate verify clientCert now now' :
  Config.validateConfig cwd parseURL c = (None, c') ->
  Config.methodIs "mtls" c' = true ->
  exists result,
    MTLS.authenticateMTLS readFile parseCertificate verify clientCert
      (Config.caCertPathOf c') now now' = Returned result.
Proof.
  intros Hvalid Hmtls.
  destruct (validateConfig_mtls_path _ _ _ _ Hvalid Hmtls)
    as (path & Hpath & Habs).
  unfold MTLS.authenticateMTLS. rewrite Hpath.
  destruct (JS.falsy clientCert); [eauto|].
  destruct path as [|ch rest]; [discriminate Habs|]. cbn [JS.falsy JS.truthy negb].
  destruct (MTLS.check _ _ _ _ _ _ _); eauto.
Qed.

Lemma validated_mtls_never_throws_witness :
  exists result,
    MTLS.authenticateMTLS MTLS.sampleReadFile MTLS.sampleParse
      MTLS.sampleVerify (Some "CLIENT PEM")
      (Config.caCertPathOf
         (Config.validateConfig "/etc/gitgate" Sample.parseURL
            (default (Config.mkConfig None None None None None None None)
               (Config.loadFromEnv Config.sampleMtlsEnv))).2)
      1500 1501
    = Returned result.
Proof.
  apply (validated_mtls_never_throws "/etc/gitgate" Sample.parseURL
           (default (Config.mkConfig None None None None None None None)
              (Config.loadFromEnv Config.sampleMtlsEnv))).
  - vm_compute. reflexivity.
  - vm_compute. reflexivity.
Defined.


Lemma andThen_commutes (w : Config.Config -> Config.Config) first next :
  (forall c, first (w c) = ((first c).1, w (first c).2)) ->
  (forall c, next (w c) = ((next c).1, w (next c).2)) ->
  forall c,
    Config.andThen first next (w c)
    = ((Config.andThen first next c).1, w (Config.andThen first next c).2).
Proof.
  intros Hfirst Hnext c. unfold Config.andThen. rewrite Hfirst.
  destruct (first c) as [[message|] middle]; cbn [fst snd];
    [reflexivity | apply Hnext].
Qed.

Lemma require_commutes (w : Config.Config -> Config.Config) ok message :
  (forall c, ok (w c) = ok c) ->
  forall c,
    Config.require ok message (w c)
    = ((Config.require ok message c).1, w (Config.require ok message c).2).
Proof.
  intros Hok c. unfold Config.require. rewrite Hok.
  destruct (ok c); reflexivity.
Qed.

Lemma resolvePath_commutes (w : Config.Config -> Config.Config) cwd path
    message update :
  (forall resolved c, update resolved (w c) = w (update resolved c)) ->
  forall c,
    Config.resolvePath cwd path message update (w c)
    = ((Config.resolvePath cwd path message update c).1,
       w (Config.resolvePath cwd path message update c).2).
Proof.
  intros Hupdate c. unfold Config.resolvePath.
  destruct (Validation.resolveSafePath cwd cwd path); cbn [fst snd];
    [rewrite Hupdate|]; reflexivity.
Qed.

Ltac views :=
  unfold Config.methodIs, Config.methodOf, Config.jamfOf,
    Config.tailscaleKeyOf, Config.caCertPathOf, Config.logFileOf,
    Config.originsOf, Config.tokenOf, Config.cacheDirOf,
    Config.with_jamf_secret, Config.set_jamf_url, Config.set_ca_cert_path,
    Config.set_private_key_path, Config.set_log_file,
    Config.set_allowed_origins;
  cbn.

Lemma validateConfig_ignores_secret cwd parseURL secret c :
  Config.validateConfig cwd parseURL (Config.with_jamf_secret secret c)
  = ((Config.validateConfig cwd parseURL c).1,
     Config.with_jamf_secret secret (Config.validateConfig cwd parseURL c).2).
Proof.
  revert c. unfold Config.validateConfig.
  repeat (apply andThen_commutes).
  - apply require_commutes. intros c. reflexivity.
  - apply require_commutes. intros c. reflexivity.
  - apply require_commutes. intros c. reflexivity.
  - apply require_commutes. intros c. reflexivity.
  - intros c. change (Config.cacheDirOf (Config.with_jamf_secret secret c))
      with (Config.cacheDirOf c).
    apply resolvePath_commutes. intros resolved c0. reflexivity.
  - apply require_commutes. intros c. config_case c; reflexivity.
  - intros c. unfold Config.checkJamf. config_case c; views;
      repeat case_match; reflexivity.
  - intros c. unfold Config.checkTailscale. config_case c; views;
      repeat case_match; reflexivity.
  - intros c. unfold Config.checkMtls, Config.resolvePath.
    config_case c; views; repeat case_match; reflexivity.
  - intros c. unfold Config.checkSigning, Config.resolvePath.
    config_case c; views; repeat case_match; reflexivity.
  - intros c. unfold Config.checkAudit, Config.resolvePath.
    config_case c; views; repeat case_match; reflexivity.
  - intros c. unfold Config.checkOrigins.
    config_case c; views; repeat case_match; reflexivity.
  - intros c. reflexivity.
Qed.

(** X21. [validateConfig] never looks at the Jamf [api_secret]: with
    any other secret, or none, it throws the same error or returns just
    the same; yet [authenticateJamf] throws for every request that
    carries a well-formed token when the secret is missing or empty. A
    Jamf configuration without a secret therefore passes validation and
    fails at the first authenticated request. *)
Theorem jamf_secret_unchecked cwd parseURL secret c :
  (Config.validateConfig cwd parseURL (Config.with_jamf_secret secret c)).1
  = (Config.validateConfig cwd parseURL c).1
  /\ (forall isIP fetch headers now config token,
        Validation.validateTokenHeader
          (Validation.getHeader headers "x-jamf-token") = Some token ->
        JS.falsy (config ≫= Jamf.api_secret) = true ->
        Jamf.authenticateJamf isIP parseURL fetch headers config now
        = Thrown "Jamf configuration incomplete").
Proof.
  split.
  - rewrite validateConfig_ignores_secret. reflexivity.
  - intros isIP fetch headers now config token Htoken Hsecret.
    unfold Jamf.authenticateJamf. rewrite Htoken, Hsecret.
    destruct (Validation.validateHttpsUrl _ _); [|reflexivity].
    rewrite orb_true_r. reflexivity.
Qed.

(** X22. [loadConfig] answers from its cache when it holds a
    configuration, without looking at its argument, the environment or
    the disk; otherwise a complete environment (GITHUB_TOKEN and
    AUTH_METHOD both set) wins over any file; a failure throws one of
    the two configuration errors and leaves the cache empty, and a path
    that [resolveSafePath] refuses is reported as not found; a
    configuration once returned is returned by every later [loadConfig]
    and [getConfig], whatever they are given; and [getConfig] is
    [loadConfig] without a path. *)
Theorem loadConfig_sources cwd env existsSync readFile parseConfig :
  let load := Config.loadConfig cwd env existsSync readFile parseConfig in
  (forall cached configPath,
     load (Some cached) configPath = (Returned (Some cached), Some cached))
  /\ (Config.loadFromEnv env = None
      <-> JS.falsy (env "GITHUB_TOKEN") || JS.falsy (env "AUTH_METHOD") = true)
  /\ (forall envConfig configPath,
        Config.loadFromEnv env = Some envConfig ->
        load None configPath = (Returned (Some envConfig), Some envConfig))
  /\ (forall configPath message cached',
        load None configPath = (Thrown message, cached') ->
        cached' = None
        /\ (message = Config.notFound
            \/ message = "Failed to load configuration"))
  /\ (forall configPath,
        Config.loadFromEnv env = None ->
        JS.truthy configPath = true ->
        Validation.resolveSafePath cwd cwd configPath = None ->
        load None (Some configPath) = (Thrown Config.notFound, None))
  /\ (forall cached configPath config cached',
        load cached configPath = (Returned (Some config), cached') ->
        cached' = Some config
        /\ forall cwd' env' existsSync' readFile' parseConfig' configPath',
             Config.loadConfig cwd' env' existsSync' readFile' parseConfig'
               cached' configPath'
             = (Returned (Some config), cached')
             /\ Config.getConfig cwd' env' existsSync' readFile' parseConfig'
                  cached'
                = (Returned (Some config), cached'))
  /\ (forall cached,
        Config.getConfig cwd env existsSync readFile parseConfig cached
        = load cached None).
Proof.
  intros load. subst load.
  split; [|split; [|split; [|split; [|split; [|split]]]]].
  - reflexivity.
  - unfold Config.loadFromEnv. cbn [forallb].
    destruct (JS.falsy (env "GITHUB_TOKEN"));
      destruct (JS.falsy (env "AUTH_METHOD")); cbn;
      split; congruence.
  - intros envConfig configPath Henv. unfold Config.loadConfig.
    rewrite Henv. reflexivity.
  - intros configPath message cached'. unfold Config.loadConfig.
    destruct (Config.loadFromEnv env); [discriminate|].
    destruct (Validation.resolveSafePath _ _ _) as [path|];
      [|intros [= <- <-]; auto].
    destruct (negb (existsSync path)); [intros [= <- <-]; auto|].
    destruct (readFile path ≫= parseConfig) as [parsed|];
      [discriminate | intros [= <- <-]; auto].
  - intros configPath Henv Hpath Hrefused. unfold Config.loadConfig.
    rewrite Henv.
    assert (Hchosen : JS.orElse
                        (JS.orElse (Some configPath) (env "GITGATE_CONFIG"))
                        None = Some configPath).
    { unfold JS.orElse. rewrite Hpath. rewrite Hpath. reflexivity. }
    rewrite Hchosen. cbn [default from_option id].
    rewrite Hrefused. reflexivity.
  - intros cached configPath config cached' Hload.
    assert (Hcached : cached' = Some config).
    { unfold Config.loadConfig in Hload.
      destruct cached as [c0|]; [congruence|].
      destruct (Config.loadFromEnv env); [congruence|].
      destruct (Validation.resolveSafePath _ _ _) as [path|];
        [|discriminate].
      destruct (negb (existsSync path)); [discriminate|].
      destruct (readFile path ≫= parseConfig) as [parsed|];
        [congruence | discriminate]. }
    subst cached'. split; [reflexivity|]. intros. split; reflexivity.
  - intros cached. unfold Config.getConfig.
    destruct cached as [c0|]; [reflexivity|].
    unfold Config.loadConfig.
    destruct (Config.loadFromEnv env); [reflexivity|].
    destruct (Validation.resolveSafePath _ _ _) as [path|]; [|reflexivity].
    destruct (negb (existsSync path)); [reflexivity|].
    destruct (readFile path ≫= parseConfig); reflexivity.
Qed.

(** ** Gateway pipeline: responses, headers and invariants *)

Ltac unfold_routes :=
  unfold Server.serve, Server.listReleasesRoute, Server.downloadAssetRoute,
    Server.authenticate, Server.anonymous, Server.rateLimitGate,
    Server.consumeAndReport, Server.signIfEnabled, Server.cacheGet,
    Server.cacheGetChecksum, Server.cacheSet, Server.logAction,
    Server.isAllowed, Server.getRemainingRequests, Server.getResetTime,
    Server.applyRateLimitHeaders, Server.Date_now, Server.bind, Server.ret,
    Server.throw, Server.modify, Server.gets, Server.onError,
    GitHub.listReleases, GitHub.getRelease, GitHub.downloadAsset,
    Errors.ValidationError, Errors.RateLimitError,
    Errors.ExternalServiceError.

Ltac pick :=
  lazymatch goal with
  | |- _ \/ _ => first [left; pick | right; pick]
  | |- _ => solve [reflexivity | repeat eexists; eauto; discriminate]
  end.

(** X23. The release-list route answers with one of six responses
    and nothing else: 400 Invalid request, 401 Unauthorized, 429 Rate
    limited, 404 Repository not found, 500 Internal server error, or 200
    with the cached document or with a non-empty list that the release
    source returned. It never answers 502: when the release source
    fails, the list is empty and the answer is 404. The asset route adds
    404 Release not found, 404 Asset not found and 502 Request failed,
    and its only 200 body is the asset's bytes. *)
Theorem route_responses rt request st :
  (let response :=
     (Server.serve (Server.listReleasesRoute rt) request st).1 in
   response = Server.mkResponse 400 (Server.ErrorBody "Invalid request")
   \/ response = Server.mkResponse 401 (Server.ErrorBody "Unauthorized")
   \/ response = Server.mkResponse 429 (Server.ErrorBody "Rate limited")
   \/ response
      = Server.mkResponse 404 (Server.ErrorBody "Repository not found")
   \/ response
      = Server.mkResponse 500 (Server.ErrorBody "Internal server error")
   \/ (exists bytes,
         response = Server.mkResponse 200 (Server.CachedJson bytes))
   \/ (exists owner repo releases,
         Validation.validateOwnerRepo (Server.param_owner request)
         = Some owner
         /\ Validation.validateOwnerRepo (Server.param_repo request)
            = Some repo
         /\ Server.rt_listReleases rt owner repo 30 = Some releases
         /\ releases <> []
         /\ response = Server.mkResponse 200 (Server.ReleaseList releases)))
  /\ (let response :=
        (Server.serve (Server.downloadAssetRoute rt) request st).1 in
      response = Server.mkResponse 400 (Server.ErrorBody "Invalid request")
      \/ response = Server.mkResponse 401 (Server.ErrorBody "Unauthorized")
      \/ response = Server.mkResponse 429 (Server.ErrorBody "Rate limited")
      \/ response
         = Server.mkResponse 404 (Server.ErrorBody "Release not found")
      \/ response = Server.mkResponse 404 (Server.ErrorBody "Asset not found")
      \/ response = Server.mkResponse 502 (Server.ErrorBody "Request failed")
      \/ response
         = Server.mkResponse 500 (Server.ErrorBody "Internal server error")
      \/ (exists bytes,
            response = Server.mkResponse 200 (Server.RawBytes bytes))).
Proof.
  split.
  - unfold_routes.
    destruct (Validation.validateOwnerRepo (Server.param_owner request))
      as [owner|]; [|left; reflexivity].
    destruct (Validation.validateOwnerRepo (Server.param_repo request))
      as [repo|]; [|left; reflexivity].
    destruct (Server.rt_listReleases rt owner repo 30) as [releases|] eqn:Hup.
    + cbn. repeat case_match; simplify_eq; cbn; pick.
    + cbn. repeat case_match; simplify_eq; cbn; pick.
  - unfold_routes.
    destruct (Validation.validateOwnerRepo (Server.param_owner request))
      as [owner|]; [|left; reflexivity].
    destruct (Validation.validateOwnerRepo (Server.param_repo request))
      as [repo|]; [|left; reflexivity].
    destruct (Validation.validateVersion (Server.param_version request))
      as [version|]; [|left; reflexivity].
    destruct (Validation.validateAssetName (Server.param_asset request))
      as [assetName|]; [|left; reflexivity].
    cbn. repeat case_match; simplify_eq; cbn; pick.
Qed.

Lemma getRemainingRequests_bounds limit limits key now :
  1 <= limit -> RateLimiter.reachable limit limits ->
  0 <= RateLimiter.getRemainingRequests limit limits key now <= limit.
Proof.
  intros Hlimit Hreach.
  pose proof (reachable_state_ok limit limits Hlimit Hreach key) as Hok.
  unfold RateLimiter.getRemainingRequests.
  destruct (limits !! key) as [s|]; [|lia].
  destruct (Hok s eq_refl) as [Hreq _].
  repeat case_match; lia.
Qed.

Lemma isAllowed_reachable limit limits key now limits' verdict :
  RateLimiter.reachable limit limits ->
  RateLimiter.isAllowed limit limits key now = (limits', verdict) ->
  RateLimiter.reachable limit limits'.
Proof.
  intros Hreach. unfold RateLimiter.isAllowed.
  pose proof (RateLimiter.reach_step limit limits key now Hreach) as Hstep.
  destruct (RateLimiter.consumeInternal limit limits key now) as [l r].
  intros [= <- _]. exact Hstep.
Qed.

Ltac headers_leaf Hreach Hreturns :=
  first
    [ intros Hstatus; exfalso; apply Hstatus; reflexivity
    | exfalso; eapply Hreturns; first [eassumption | reflexivity]
    | intros _; eexists _, _; split; [reflexivity|];
      apply getRemainingRequests_bounds; [unfold Server.rateLimitLimit; lia|];
      eapply isAllowed_reachable; [exact Hreach | eassumption] ].

(** X24. Unless the path parameters are refused (400) or the
    dispatcher throws, both routes set the rate-limit headers before
    they answer, whatever the answer is: the limit reported is 60 and
    the remaining count lies between 0 and 60. *)
Theorem rate_limit_headers_set rt request st :
  RateLimiter.reachable 60 (Server.limits st) ->
  (forall message,
     Server.rt_authenticateDevice rt (Server.rt_authMethod rt)
       (Validation.collectValidatedHeaders (Server.raw_headers request))
     <> Thrown message) ->
  (Server.status (Server.serve (Server.listReleasesRoute rt) request st).1
   <> 400 ->
   exists remaining reset,
     Server.rate_headers
       (Server.serve (Server.listReleasesRoute rt) request st).2
     = Some (60, remaining, reset)
     /\ 0 <= remaining <= 60)
  /\ (Server.status (Server.serve (Server.downloadAssetRoute rt) request st).1
      <> 400 ->
      exists remaining reset,
        Server.rate_headers
          (Server.serve (Server.downloadAssetRoute rt) request st).2
        = Some (60, remaining, reset)
        /\ 0 <= remaining <= 60).
Proof.
  intros Hreach Hreturns. split.
  - unfold_routes.
    destruct (Validation.validateOwnerRepo (Server.param_owner request))
      as [owner|]; [|intros H; exfalso; apply H; reflexivity].
    destruct (Validation.validateOwnerRepo (Server.param_repo request))
      as [repo|]; [|intros H; exfalso; apply H; reflexivity].
    cbn. repeat case_match; simplify_eq; cbn in *;
      headers_leaf Hreach Hreturns.
  - unfold_routes.
    destruct (Validation.validateOwnerRepo (Server.param_owner request))
      as [owner|]; [|intros H; exfalso; apply H; reflexivity].
    destruct (Validation.validateOwnerRepo (Server.param_repo request))
      as [repo|]; [|intros H; exfalso; apply H; reflexivity].
    destruct (Validation.validateVersion (Server.param_version request))
      as [version|]; [|intros H; exfalso; apply H; reflexivity].
    destruct (Validation.validateAssetName (Server.param_asset request))
      as [assetName|]; [|intros H; exfalso; apply H; reflexivity].
    cbn. repeat case_match; simplify_eq; cbn in *;
      headers_leaf Hreach Hreturns.
Qed.

Lemma rate_limit_headers_set_witness :
  exists remaining reset,
    Server.rate_headers
      (Server.serve (Server.downloadAssetRoute Sample.runtime)
         Sample.deviceRequest Sample.start).2
    = Some (60, remaining, reset)
    /\ 0 <= remaining <= 60.
Proof.
  apply (proj2 (rate_limit_headers_set Sample.runtime Sample.deviceRequest
                  Sample.start (RateLimiter.reach_init 60)
                  ltac:(intros message; vm_compute; discriminate))).
  vm_compute. discriminate.
Defined.

Ltac added_leaf :=
  first
    [ exists []; split; [symmetry; apply app_nil_r|];
      split; [simpl; lia | constructor]
    | eexists [_]; split; [reflexivity|];
      split; [simpl; lia | repeat constructor] ].

(** X25. A request never rewrites or removes an audit record: after
    either route the records handed to the logger are the earlier ones
    followed by at most one new record, which names the route's
    action. This holds for every outcome, errors included. *)
Theorem audit_append_only rt request st :
  (exists added,
     Server.audit (Server.serve (Server.listReleasesRoute rt) request st).2
     = Server.audit st ++ added
     /\ (length added <= 1)%nat
     /\ Forall (fun entry => Audit.action entry = "list_releases") added)
  /\ (exists added,
        Server.audit
          (Server.serve (Server.downloadAssetRoute rt) request st).2
        = Server.audit st ++ added
        /\ (length added <= 1)%nat
        /\ Forall (fun entry => Audit.action entry = "download_asset") added).
Proof.
  split.
  - unfold_routes.
    destruct (Validation.validateOwnerRepo (Server.param_owner request))
      as [owner|]; [|added_leaf].
    destruct (Validation.validateOwnerRepo (Server.param_repo request))
      as [repo|]; [|added_leaf].
    cbn. repeat case_match; simplify_eq; cbn; added_leaf.
  - unfold_routes.
    destruct (Validation.validateOwnerRepo (Server.param_owner request))
      as [owner|]; [|added_leaf].
    destruct (Validation.validateOwnerRepo (Server.param_repo request))
      as [repo|]; [|added_leaf].
    destruct (Validation.validateVersion (Server.param_version request))
      as [version|]; [|added_leaf].
    destruct (Validation.validateAssetName (Server.param_asset request))
      as [assetName|]; [|added_leaf].
    cbn. repeat case_match; simplify_eq; cbn; added_leaf.
Qed.

Ltac invariant_leaf :=
  repeat split; intros;
  first
    [ reflexivity
    | assumption
    | congruence
    | eapply isAllowed_reachable; eassumption
    | apply Cache.written_set; assumption ].

(** One request: what it does to the limiter and to the cache
    directory. *)
Lemma serve_step_invariants rt request st :
  (let result := Server.serve (Server.listReleasesRoute rt) request st in
   (RateLimiter.reachable 60 (Server.limits st) ->
    RateLimiter.reachable 60 (Server.limits result.2))
   /\ (Cache.written (Server.rt_cwd rt) (Server.rt_sha256_hex rt)
         (Server.rt_base64_encode rt) (Server.rt_json_stringify rt)
         (Server.files st) ->
       Cache.written (Server.rt_cwd rt) (Server.rt_sha256_hex rt)
         (Server.rt_base64_encode rt) (Server.rt_json_stringify rt)
         (Server.files result.2))
   /\ (Server.status result.1 <> 200 ->
       Server.files result.2 = Server.files st)
   /\ (Server.status result.1 = 400 ->
       Server.limits result.2 = Server.limits st
       /\ Server.audit result.2 = Server.audit st
       /\ Server.ticks result.2 = Server.ticks st))
  /\ (let result := Server.serve (Server.downloadAssetRoute rt) request st in
      (RateLimiter.reachable 60 (Server.limits st) ->
       RateLimiter.reachable 60 (Server.limits result.2))
      /\ (Cache.written (Server.rt_cwd rt) (Server.rt_sha256_hex rt)
            (Server.rt_base64_encode rt) (Server.rt_json_stringify rt)
            (Server.files st) ->
          Cache.written (Server.rt_cwd rt) (Server.rt_sha256_hex rt)
            (Server.rt_base64_encode rt) (Server.rt_json_stringify rt)
            (Server.files result.2))
      /\ (Server.status result.1 <> 200 -> Server.status result.1 <> 500 ->
          Server.files result.2 = Server.files st)
      /\ (Server.status result.1 = 400 ->
          Server.limits result.2 = Server.limits st
          /\ Server.audit result.2 = Server.audit st
          /\ Server.ticks result.2 = Server.ticks st)).
Proof.
  split.
  - unfold_routes.
    destruct (Validation.validateOwnerRepo (Server.param_owner request))
      as [owner|]; [|cbn; invariant_leaf].
    destruct (Validation.validateOwnerRepo (Server.param_repo request))
      as [repo|]; [|cbn; invariant_leaf].
    cbn. repeat case_match; simplify_eq; cbn; invariant_leaf.
  - unfold_routes.
    destruct (Validation.validateOwnerRepo (Server.param_owner request))
      as [owner|]; [|cbn; invariant_leaf].
    destruct (Validation.validateOwnerRepo (Server.param_repo request))
      as [repo|]; [|cbn; invariant_leaf].
    destruct (Validation.validateVersion (Server.param_version request))
      as [version|]; [|cbn; invariant_leaf].
    destruct (Validation.validateAssetName (Server.param_asset request))
      as [assetName|]; [|cbn; invariant_leaf].
    cbn. repeat case_match; simplify_eq; cbn; invariant_leaf.
Qed.

(** X26. Both routes keep the limiter and the cache directory within
    what the limiter and the cache manager produce: whatever requests
    are served, one after the other, a mapping reachable by
    [consumeInternal] stays reachable and a directory written by the
    cache manager stays one. A single request leaves the cache
    directory untouched unless its answer is 200 (or, on the asset
    route, a 500 raised after the download was stored), and a request
    refused with 400 changes neither the limiter nor the audit trail and
    reads no clock. *)
Theorem serve_preserves_invariants rt :
  (forall requests st,
     RateLimiter.reachable 60 (Server.limits st) ->
     Cache.written (Server.rt_cwd rt) (Server.rt_sha256_hex rt)
       (Server.rt_base64_encode rt) (Server.rt_json_stringify rt)
       (Server.files st) ->
     RateLimiter.reachable 60 (Server.limits (Run.serveAll rt requests st))
     /\ Cache.written (Server.rt_cwd rt) (Server.rt_sha256_hex rt)
          (Server.rt_base64_encode rt) (Server.rt_json_stringify rt)
          (Server.files (Run.serveAll rt requests st)))
  /\ (forall request st,
        let result := Server.serve (Server.listReleasesRoute rt) request st in
        (Server.status result.1 <> 200 ->
         Server.files result.2 = Server.files st)
        /\ (Server.status result.1 = 400 ->
            Server.limits result.2 = Server.limits st
            /\ Server.audit result.2 = Server.audit st
            /\ Server.ticks result.2 = Server.ticks st))
  /\ (forall request st,
        let result := Server.serve (Server.downloadAssetRoute rt) request st in
        (Server.status result.1 <> 200 -> Server.status result.1 <> 500 ->
         Server.files result.2 = Server.files st)
        /\ (Server.status result.1 = 400 ->
            Server.limits result.2 = Server.limits st
            /\ Server.audit result.2 = Server.audit st
            /\ Server.ticks result.2 = Server.ticks st)).
Proof.
  split; [|split].
  - intros served.
    induction served as [|[route request] rest IH]; intros st Hreach Hwritten;
      [split; assumption|].
    cbn [Run.serveAll].
    destruct (serve_step_invariants rt request st) as [Hlist Hasset].
    cbv zeta in Hlist, Hasset.
    destruct Hlist as (Hl1 & Hl2 & _), Hasset as (Hd1 & Hd2 & _).
    destruct route; cbn [Run.handler]; apply IH; auto.
  - intros request st result.
    destruct (serve_step_invariants rt request st) as [Hlist _].
    cbv zeta in Hlist. destruct Hlist as (_ & _ & H3 & H4).
    split; assumption.
  - intros request st result.
    destruct (serve_step_invariants rt request st) as [_ Hasset].
    cbv zeta in Hasset. destruct Hasset as (_ & _ & H3 & H4).
    split; assumption.
Qed.


(** The checksum recorded with a cached payload is the digest of that
    payload, whenever each of the two is read. *)
Lemma cached_checksum_digest cwd sha256_hex base64_encode base64_decode
    json_stringify json_parse cm files key now now' ok ok' bytes digest :
  (forall b, base64_decode (base64_encode b) = b) ->
  (forall e, json_parse (json_stringify e) = Some e) ->
  json_parse "" = None ->
  Cache.written cwd sha256_hex base64_encode json_stringify files ->
  Cache.get cwd sha256_hex base64_decode json_parse cm files key now ok
  = Some bytes ->
  Cache.getChecksum cwd sha256_hex json_parse cm files key now' ok'
  = Some digest ->
  digest = sha256_hex bytes.
Proof.
  intros Hbase64 Hjson Hempty Hwritten.
  unfold Cache.get, Cache.getChecksum.
  destruct (files !! Cache.getCachePath cwd sha256_hex cm key)
    as [content|] eqn:Hfile; [|discriminate].
  destruct (written_content cwd sha256_hex base64_encode json_stringify
              files Hwritten _ _ Hfile) as [-> | (cm' & payload & t & ->)].
  - rewrite Hempty. destruct (negb ok); discriminate.
  - rewrite Hjson. cbn [Cache.newEntry Cache.timestamp Cache.ttl Cache.data
                        Cache.checksum].
    destruct (negb ok); [discriminate|]. destruct (negb ok'); [discriminate|].
    destruct (now - t >? _); [discriminate|].
    destruct (now' - t >? _); [discriminate|].
    rewrite Hbase64. intros [= <-] [= <-]. reflexivity.
Qed.

Lemma checksum_header_value cwd sha256_hex base64_encode base64_decode
    json_stringify json_parse cm files key now now' ok ok' bytes :
  (forall b, base64_decode (base64_encode b) = b) ->
  (forall e, json_parse (json_stringify e) = Some e) ->
  json_parse "" = None ->
  Cache.written cwd sha256_hex base64_encode json_stringify files ->
  Cache.get cwd sha256_hex base64_decode json_parse cm files key now ok
  = Some bytes ->
  let header :=
    default ""
      (JS.orElse
         (Cache.getChecksum cwd sha256_hex json_parse cm files key now' ok')
         None) in
  header = sha256_hex bytes \/ header = "".
Proof.
  intros Hbase64 Hjson Hempty Hwritten Hget header. subst header.
  destruct (Cache.getChecksum _ _ _ _ _ _ _ _) as [digest|] eqn:Hsum;
    [|right; reflexivity].
  rewrite (cached_checksum_digest _ _ _ _ _ _ _ _ _ _ _ _ _ _ _
             Hbase64 Hjson Hempty Hwritten Hget Hsum).
  unfold JS.orElse. destruct (JS.truthy _); [left | right]; reflexivity.
Qed.

Ltac signature_goal :=
  repeat match goal with
         | H : Server.rt_assetSigner _ = _ |- _ => rewrite H
         end;
  cbn;
  repeat match goal with
         | H : Server.rt_rsaSign _ _ _ = _ |- _ => rewrite H
         end;
  reflexivity.

(** X27. Whenever the asset route answers 200, the body of the answer
    is the asset's bytes and the route has, before answering, passed to
    [c.header] the content type application/octet-stream, a checksum
    and, when a signer is loaded, the signature of exactly those bytes.
    With a cache directory that only the cache manager has written and
    platform codecs that round-trip, the checksum passed is the SHA-256
    digest of the bytes answered, or empty when the cached entry can no
    longer be read at the second look; it is never the digest of other
    bytes. This is a statement about the values handed to [c.header],
    not about the headers of the answer, which the route builds as a
    [Response] of its own from the bytes alone. *)
Theorem download_header_calls rt request st :
  (forall b, Server.rt_base64_decode rt (Server.rt_base64_encode rt b) = b) ->
  (forall e, Server.rt_json_parse rt (Server.rt_json_stringify rt e) = Some e) ->
  Server.rt_json_parse rt "" = None ->
  Cache.written (Server.rt_cwd rt) (Server.rt_sha256_hex rt)
    (Server.rt_base64_encode rt) (Server.rt_json_stringify rt)
    (Server.files st) ->
  Server.status (Server.serve (Server.downloadAssetRoute rt) request st).1
  = 200 ->
  exists bytes checksum,
    Server.body (Server.serve (Server.downloadAssetRoute rt) request st).1
    = Server.RawBytes bytes
    /\ Server.content_type
         (Server.serve (Server.downloadAssetRoute rt) request st).2
       = Some "application/octet-stream"
    /\ Server.checksum_header
         (Server.serve (Server.downloadAssetRoute rt) request st).2
       = Some checksum
    /\ (checksum = Server.rt_sha256_hex rt bytes \/ checksum = "")
    /\ Server.signature_header
         (Server.serve (Server.downloadAssetRoute rt) request st).2
       = Server.rt_assetSigner rt
           ≫= (fun key => Server.rt_rsaSign rt key bytes).
Proof.
  intros Hbase64 Hjson Hempty Hwritten.
  unfold_routes.
  destruct (Validation.validateOwnerRepo (Server.param_owner request))
    as [owner|]; [|discriminate].
  destruct (Validation.validateOwnerRepo (Server.param_repo request))
    as [repo|]; [|discriminate].
  destruct (Validation.validateVersion (Server.param_version request))
    as [version|]; [|discriminate].
  destruct (Validation.validateAssetName (Server.param_asset request))
    as [assetName|]; [|discriminate].
  cbn. repeat case_match; simplify_eq; cbn in *;
    intros Hstatus; try discriminate Hstatus;
    (eexists _, _; split; [reflexivity|]; split; [reflexivity|];
     split; [reflexivity|]; split;
     [ first [ left; reflexivity
             | eapply checksum_header_value; eassumption ]
     | signature_goal ]).
Qed.

Lemma download_header_calls_witness :
  exists bytes checksum,
    Server.body
      (Server.serve (Server.downloadAssetRoute Sample.runtime)
         Sample.deviceRequest Sample.start).1
    = Server.RawBytes bytes
    /\ Server.content_type
         (Server.serve (Server.downloadAssetRoute Sample.runtime)
            Sample.deviceRequest Sample.start).2
       = Some "application/octet-stream"
    /\ Server.checksum_header
         (Server.serve (Server.downloadAssetRoute Sample.runtime)
            Sample.deviceRequest Sample.start).2
       = Some checksum
    /\ (checksum = Server.rt_sha256_hex Sample.runtime bytes \/ checksum = "")
    /\ Server.signature_header
         (Server.serve (Server.downloadAssetRoute Sample.runtime)
            Sample.deviceRequest Sample.start).2
       = Server.rt_assetSigner Sample.runtime
           ≫= (fun key => Server.rt_rsaSign Sample.runtime key bytes).
Proof.
  apply (download_header_calls Sample.runtime Sample.deviceRequest Sample.start).
  - exact codec_base64_roundtrip.
  - exact codec_json_roundtrip.
  - exact codec_json_parse_empty.
  - apply Cache.written_empty.
  - vm_compute. reflexivity.
Defined.


